(** * Retrieval pipeline: paragraph chunking, batched embedding with retry,
      vector store, similarity search with cross-query merge, and the
      indexing orchestrator.

    The development embeds the Python sources

      - [utils/shared_utils.py]  (chunk_by_paragraphs, _embed_with_retry,
                                  generate_embeddings)
      - [utils/db_utils.py]      (load_configuration, get_db_connection,
                                  ensure_database_schema, delete_document_data)
      - [index_documents.py]     (load_document, _validate_data_for_indexing,
                                  store_chunks_to_db, process_document)
      - [search_documents.py]    (_merge_search_results,
                                  _search_single_embedding, similarity_search)

    as Rocq functions and states the properties of the specification
    about them.  Pure code is a function; code that raises returns a
    [res]; code that talks to the database, the file system or the remote
    embedding service is a function of an explicit [world], the
    collaborators being the fields of an [env]. *)

From Stdlib Require Import QArith ZArith String Ascii List Lia.
From stdpp Require Import base list strings gmap sorting pretty.


(* ===================================================================== *)
(** ** Exceptions and results *)
(* ===================================================================== *)

(** The exception classes of [utils/logging_utils.py], the built-in ones
    the code raises or catches, and the two of the libraries
    ([psycopg2.Error]; any other [Exception] of a collaborator). *)
Inductive exn_class : Type :=
| ValueError
| FileNotFoundError
| IndexError
| DocumentProcessingError
| DatabaseError
| EmbeddingGenerationError
| ConfigurationError
| DatabaseSearchError
| EmbeddingError
| Psycopg2Error
| OtherException.

Global Instance exn_class_eq_dec : EqDecision exn_class.
Proof. solve_decision. Defined.

(** An exception object: its class and [str(e)]. *)
Record exn : Type := Exn { exn_cls : exn_class; exn_str : string }.

Global Instance exn_eq_dec : EqDecision exn.
Proof. solve_decision. Defined.

(** The outcome of a call: a returned value or a raised exception. *)
Inductive res (A : Type) : Type :=
| Return (a : A)
| Raise (e : exn).
Arguments Return {A} a.
Arguments Raise {A} e.

Definition is_return {A} (r : res A) : bool :=
  match r with Return _ => true | Raise _ => false end.

(** [isinstance(e, classes)] for an [except (C1, C2)] clause.  None of the
    classes above derives from another one of them. *)
Definition caught_by (classes : list exn_class) (e : exn) : bool :=
  bool_decide (exn_cls e ∈ classes).

(* ===================================================================== *)
(** ** Python strings *)
(* ===================================================================== *)

(** A [str] is a [string]; a character is a code point below 256. *)

Definition newline : ascii := "010"%char.

(** ['\n\n'], the paragraph separator of [chunk_by_paragraphs]. *)
Definition nn : string := String newline (String newline "").

Definition is_newline (c : ascii) : bool := bool_decide (c = newline).

(** [c.isspace()]: the code points below 256 that CPython's [str.strip()]
    removes: 9-13 (tab, LF, VT, FF, CR), 28-31, 32, 133 (NEL), 160 (NBSP). *)
Definition isspace (c : ascii) : bool :=
  let n := nat_of_ascii c in
  ((9 <=? n) && (n <=? 13)) || ((28 <=? n) && (n <=? 31))
  || (n =? 32) || (n =? 133) || (n =? 160).

(** [not s]: the empty string is falsy. *)
Definition str_empty (s : string) : bool :=
  match s with "" => true | String _ _ => false end.

(** [s.lstrip()] *)
Fixpoint lstrip (s : string) : string :=
  match s with
  | "" => ""
  | String c s' => if isspace c then lstrip s' else s
  end.

(** [s.rstrip()]: a character stays when it is not whitespace or when
    something stays after it. *)
Fixpoint rstrip (s : string) : string :=
  match s with
  | "" => ""
  | String c s' =>
      let r := rstrip s' in
      if str_empty r && isspace c then "" else String c r
  end.

(** [s.strip()] *)
Definition strip (s : string) : string := rstrip (lstrip s).

(** Puts a character in front of the first piece of a split. *)
Definition cons_hd (c : ascii) (pieces : list string) : list string :=
  match pieces with
  | [] => [String c ""]
  | p :: ps => String c p :: ps
  end.

(** [s.split(sep)] for a non-empty [sep]: scan from the left, cut at the
    leftmost occurrence of [sep], resume after it.  [skip] counts the
    characters of a separator found that are still to be passed. *)
Fixpoint split_from (sep : string) (skip : nat) (s : string) : list string :=
  match s with
  | "" => [""]
  | String c s' =>
      match skip with
      | S k => split_from sep k s'
      | O =>
          if String.prefix sep s
          then "" :: split_from sep (String.length sep - 1) s'
          else cons_hd c (split_from sep 0 s')
      end
  end.

Definition split (sep s : string) : list string := split_from sep 0 s.

(** [sep.join(parts)] *)
Fixpoint join (sep : string) (parts : list string) : string :=
  match parts with
  | [] => ""
  | [p] => p
  | p :: ps => p +:+ sep +:+ join sep ps
  end.

(* ===================================================================== *)
(** ** utils/shared_utils.py: chunk_by_paragraphs *)
(* ===================================================================== *)

(** The list comprehension
    [[chunk.strip() for chunk in pieces if chunk.strip()]]. *)
Definition cleaned (pieces : list string) : list string :=
  map strip (List.filter (fun chunk => negb (str_empty (strip chunk))) pieces).

(** [chunk_by_paragraphs(text)] *)
Definition chunk_by_paragraphs (text : string) : res (list string) :=
  if str_empty text || str_empty (strip text)
  then Raise (Exn ValueError "Cannot chunk empty text")
  else Return (cleaned (split nn text)).


(** The same split written for the separator ['\n\n'] alone, two characters
    at a time; [split_nn_eq] below shows it is [split nn]. *)
Fixpoint split_nn (s : string) : list string :=
  match s with
  | "" => [""]
  | String c s' =>
      match s' with
      | "" => [String c ""]
      | String d s'' =>
          if is_newline c && is_newline d
          then "" :: split_nn s''
          else cons_hd c (split_nn s')
      end
  end.

(** [sep not in s] for [sep = '\n\n']: no empty line inside [s]. *)
Fixpoint no_nn (s : string) : bool :=
  match s with
  | "" => true
  | String c s' =>
      match s' with
      | "" => true
      | String d _ => negb (is_newline c && is_newline d) && no_nn s'
      end
  end.

(** A text is blank when nothing is left of it after [strip()]. *)
Definition blank (s : string) : bool := str_empty (strip s).

(** Only whitespace, which is what [blank] comes to ([blank_all_space]). *)
Fixpoint all_space (s : string) : bool :=
  match s with
  | "" => true
  | String c s' => isspace c && all_space s'
  end.

(** A string that does not begin with whitespace. *)
Definition lstripped (s : string) : bool :=
  match s with "" => true | String c _ => negb (isspace c) end.

(** The first and the last character of a string, if it has any. *)
Definition first_char (s : string) : option ascii :=
  match s with "" => None | String c _ => Some c end.

Fixpoint last_char (s : string) : option ascii :=
  match s with
  | "" => None
  | String c s' =>
      match s' with
      | "" => Some c
      | String _ _ => last_char s'
      end
  end.

(** A string that is not empty and has no whitespace at either end: its
    first and its last character are not whitespace characters. *)
Definition no_space_at_ends (s : string) : Prop :=
  ∃ c d, first_char s = Some c ∧ last_char s = Some d ∧
         isspace c = false ∧ isspace d = false.

(** [cur + pieces[0]]: the text before a split goes to its first piece. *)
Definition prepend (cur : string) (pieces : list string) : list string :=
  match pieces with
  | [] => [cur]
  | p :: ps => (cur +:+ p) :: ps
  end.

(** [p] is empty or begins with the character [s] begins with. *)
Definition starts_as (s p : string) : Prop :=
  match p, s with
  | "", _ => True
  | String e _, String c _ => e = c
  | String _ _, "" => False
  end.

(** What [chunk_by_paragraphs] lets through: not blank, stripped, no empty
    line inside. *)
Definition clean_chunk (chunk : string) : Prop :=
  blank chunk = false ∧ strip chunk = chunk ∧ no_nn chunk = true.

(** [n] newline characters. *)
Fixpoint newlines (n : nat) : string :=
  match n with
  | O => ""
  | S k => String newline (newlines k)
  end.

(** A text put together from paragraphs: each [(p, k)] is a paragraph
    followed by a run of [2 + k] newline characters, that is [1 + k] empty
    lines; [last] is the final paragraph. *)
Fixpoint assemble (paragraphs : list (string * nat)) (last : string) : string :=
  match paragraphs with
  | [] => last
  | (p, k) :: rest => p +:+ newlines (2 + k) +:+ assemble rest last
  end.

(** What the specification calls a blank line: "a line containing only
    whitespace, or no characters".  [split_lines] is [s.split('\n')];
    [paragraph_lines] cuts the list of lines at the blank ones;
    [paragraphs_by_blank_lines] is the chunking the specification
    describes: the stripped non-empty paragraphs between blank lines. *)
Definition split_lines (s : string) : list string := split (String newline "") s.

Fixpoint paragraph_lines (lines : list string) : list (list string) :=
  match lines with
  | [] => [[]]
  | l :: rest =>
      if blank l then [] :: paragraph_lines rest
      else match paragraph_lines rest with
           | [] => [[l]]
           | g :: gs => (l :: g) :: gs
           end
  end.

Definition paragraphs_by_blank_lines (text : string) : list string :=
  cleaned (map (join (String newline "")) (paragraph_lines (split_lines text))).

(** Two lines with a line of one space between them: ["a\n \nb"]. *)
Definition space_line_text : string :=
  "a" +:+ String newline " " +:+ String newline "b".

(** Three paragraphs, the breaks being one and four empty lines, with
    spaces around the first two. *)
Definition three_paragraphs : string :=
  assemble [("one ", 0); (" two", 3)] "three".

(* ===================================================================== *)
(** ** The [res] monad *)
(* ===================================================================== *)

Global Instance res_ret : MRet res := fun A a => Return a.
Global Instance res_bind : MBind res := fun A B f m =>
  match m with
  | Return a => f a
  | Raise e => Raise e
  end.

(* ===================================================================== *)
(** ** search_documents.py: _merge_search_results *)
(* ===================================================================== *)

(** A search result, the dict built by [_search_single_embedding].  Scores
    are rationals: the comparisons of the code are all this development
    uses of a float. *)
Record result : Type := Result {
  chunk_text : string;
  filename : string;
  split_strategy : string;
  similarity_score : Q
}.

(** [a > b] on scores. *)
Definition Qgt_bool (a b : Q) : bool := negb (Qle_bool a b).

(** The two variables of the merge: [final_results] and [seen_chunks]
    (chunk text -> index in [final_results]). *)
Definition merge_state : Type := list result * gmap string nat.

(** The body of the inner loop for one [result], lines 70-80: a chunk text
    seen before keeps the higher of its two scores in place, a new one is
    appended.  [final_results[existing_index]] raises [IndexError] out of
    range. *)
Definition merge_visit (r : result) (st : merge_state) : res merge_state :=
  let '(final_results, seen_chunks) := st in
  match seen_chunks !! chunk_text r with
  | Some existing_index =>
      match final_results !! existing_index with
      | None => Raise (Exn IndexError "list index out of range")
      | Some existing =>
          if Qgt_bool (similarity_score r) (similarity_score existing)
          then Return (<[existing_index := r]> final_results, seen_chunks)
          else Return st
      end
  | None =>
      Return (final_results ++ [r],
              <[chunk_text r := length final_results]> seen_chunks)
  end.

(** [len(final_results) >= top_k] *)
Definition merge_full (top_k : Z) (st : merge_state) : bool :=
  (top_k <=? Z.of_nat (length st.1))%Z.

(** The inner loop [for search_index, search_results in enumerate(...)] of
    one round: [break] when full, [continue] past a list that has no entry
    at [round_index]. *)
Fixpoint merge_round (top_k : Z) (round_index : nat)
    (all_search_results : list (list result)) (st : merge_state)
    : res merge_state :=
  match all_search_results with
  | [] => Return st
  | search_results :: rest =>
      if merge_full top_k st then Return st
      else match search_results !! round_index with
           | None => merge_round top_k round_index rest st
           | Some r =>
               st' ← merge_visit r st;
               merge_round top_k round_index rest st'
           end
  end.

(** The outer loop [for round_index in range(top_k)]. *)
Fixpoint merge_rounds (top_k : Z) (rounds : list nat)
    (all_search_results : list (list result)) (st : merge_state)
    : res merge_state :=
  match rounds with
  | [] => Return st
  | round_index :: rest =>
      if merge_full top_k st then Return st
      else
        st' ← merge_round top_k round_index all_search_results st;
        merge_rounds top_k rest all_search_results st'
  end.

(** [range(n)]: empty for a negative [n]. *)
Definition range (n : Z) : list nat := seq 0 (Z.to_nat n).

Definition _merge_search_results (all_search_results : list (list result))
    (top_k : Z) : res (list result) :=
  st ← merge_rounds top_k (range top_k) all_search_results ([], ∅);
  Return st.1.

(** Descending by similarity score. *)
Definition score_ge (a b : result) : Prop :=
  (similarity_score b <= similarity_score a)%Q.

Definition sorted_desc (results : list result) : Prop :=
  StronglySorted score_ge results.



(** What holds of the two variables of the merge between any two steps:
    [seen_chunks] maps exactly the chunk texts of [final_results], each to
    the index it stands at. *)
Definition merge_inv (st : merge_state) : Prop :=
  (∀ i x, st.1 !! i = Some x → st.2 !! chunk_text x = Some i) ∧
  (∀ t i, st.2 !! t = Some i → ∃ x, st.1 !! i = Some x ∧ chunk_text x = t).

(** The entries the merge looks at in one round, and in a list of rounds,
    in the order it looks at them (if it does not stop before). *)
Definition round_entries (round_index : nat)
    (all_search_results : list (list result)) : list result :=
  omap (λ search_results : list result, search_results !! round_index)
       all_search_results.

Definition rounds_entries (rounds : list nat)
    (all_search_results : list (list result)) : list result :=
  concat (map (λ r, round_entries r all_search_results) rounds).

(** Every entry of [visited] has its chunk text in [results], with a score
    that is not lower. *)
Definition covers (results visited : list result) : Prop :=
  ∀ y, y ∈ visited →
       ∃ x, x ∈ results ∧ chunk_text x = chunk_text y ∧
            (similarity_score y <= similarity_score x)%Q.

(** What the merge keeps about the entries [visited] it has looked at:
    its results are among them, and as long as the result is not full
    they are all covered. *)
Definition merge_seen (top_k : Z) (visited : list result) (st : merge_state)
    : Prop :=
  merge_inv st ∧ (∀ x, x ∈ st.1 → x ∈ visited) ∧
  (merge_full top_k st = false → covers st.1 visited).




Definition ex_a (score : Q) : result := Result "a" "doc.pdf" "paragraph" score.
Definition ex_b (score : Q) : result := Result "b" "doc.pdf" "paragraph" score.
Definition ex_c (score : Q) : result := Result "c" "doc.pdf" "paragraph" score.

(** The two ranked lists of the example of the specification. *)
Definition example_lists : list (list result) :=
  [[ex_a 0.9; ex_b 0.5]; [ex_a 0.95; ex_c 0.6]].


(* ===================================================================== *)
(** ** The world outside the process *)
(* ===================================================================== *)

(** An embedding vector. *)
Definition vector : Type := list Q.

(** A row of the [documents] table ([id] and [created_at] are never read).
    The columns are not nullable here: SQL gives NULL for an aggregate over
    no element, which [vector_norm] and [dot_product] meet only on an empty
    array; this model gives the empty sum, 0, there. *)
Record row : Type := Row {
  row_filename : string;
  row_chunk_text : string;
  row_split_strategy : string;
  row_embedding : vector;
  row_embedding_norm : Q
}.

(** The statements the code sends to the database. *)
Inductive statement : Type :=
| CreateTable
| CreateDotProduct
| CreateVectorNorm
| DeleteWhereFilename (filename : string)
| TruncateDocuments
| InsertDocuments (data : list (string * string * string * vector))
| SelectSimilar (query : vector) (query_norm : Q) (limit : Z).

(** What the process does to its collaborators, in order. *)
Inductive event : Type :=
| EvSleep (seconds : Q)                               (* time.sleep *)
| EvEmbed (model : string) (content : list string)    (* genai.embed_content *)
| EvExists (path : string)                            (* os.path.exists *)
| EvExtract (path : string)                           (* PyPDF2 / docx *)
| EvConnect (dsn : string)                            (* psycopg2.connect *)
| EvExecute (stmt : statement)                       (* cursor.execute *)
| EvCommit.                                           (* connection.commit *)

(** The dict of [load_configuration]. *)
Record config : Type := Config {
  api_key : string;
  postgres_url : string;
  embedding_model : string
}.

(** The collaborators.  Each answer may depend on everything the process
    has done so far (the trace), so a call that is repeated can fail once
    and succeed later. *)
Record env : Type := Env {
  (** [os.getenv], after [load_dotenv()] *)
  getenv : string → option string;
  (** [genai.embed_content(model=, content=)['embedding']] or an exception *)
  embed_content : list event → string → list string → res (list vector);
  (** [Path(file_path).suffix.lower()] *)
  suffix_lower : string → string;
  (** [os.path.exists] *)
  path_exists : list event → string → bool;
  (** [_extract_pdf_text] and [_extract_docx_text]: the text PyPDF2 or
      python-docx gives for the file, or their exception *)
  extract_text : list event → string → res string;
  (** a failure of the database server or of the connection at [connect],
      at a statement or at [commit], with its message *)
  db_fault : list event → event → option string;
  (** [connection.rollback()] on a connection that is closed or dead: the
      message of the [psycopg2.InterfaceError] it raises *)
  rollback_fault : list event → option string;
  (** [float(np.linalg.norm(np.array(v, dtype=np.float32)))] *)
  np_norm : vector → Q;
  (** PostgreSQL's [SQRT] *)
  sql_sqrt : Q → Q
}.

(** The state the code reads and writes: the committed rows of the
    [documents] table, the module variable [db_utils._config], and the
    trace of events, oldest first. *)
Record world : Type := World {
  documents : list row;
  _config : option config;
  trace : list event
}.

(** A psycopg2 connection: the rows as its open transaction sees them. *)
Record connection : Type := Connection { pending : list row }.

(** A computation in the world: the outcome and the world after it (an
    exception keeps the effects that came before it). *)
Definition M (A : Type) : Type := world → res A * world.

Global Instance M_ret : MRet M := fun A a w => (Return a, w).
Global Instance M_bind : MBind M := fun A B f m w =>
  match m w with
  | (Return a, w') => f a w'
  | (Raise e, w') => (Raise e, w')
  end.

Definition raise {A} (e : exn) : M A := fun w => (Raise e, w).

(** A pure outcome inside a computation. *)
Definition lift {A} (r : res A) : M A := fun w => (r, w).

(** [try: m  except classes as e: handler(e)] *)
Definition try_except {A} (m : M A) (classes : list exn_class)
    (handler : exn → M A) : M A := fun w =>
  match m w with
  | (Raise e, w') =>
      if caught_by classes e then handler e w' else (Raise e, w')
  | r => r
  end.

(** [try: m  except Exception as e: handler(e)] *)
Definition try_except_all {A} (m : M A) (handler : exn → M A) : M A := fun w =>
  match m w with
  | (Raise e, w') => handler e w'
  | r => r
  end.

(** The world after some more events. *)
Definition add_events (w : world) (evs : list event) : world :=
  World (documents w) (_config w) (trace w ++ evs).

Definition emit (ev : event) : M unit := fun w =>
  (Return tt, add_events w [ev]).

(** [time.sleep(seconds)] *)
Definition sleep (seconds : Q) : M unit := emit (EvSleep seconds).

Section Operations.

Context (E : env).

(** A call to the database: it is recorded, and fails with
    [psycopg2.Error] when the server or the connection does. *)
Definition db_action (ev : event) : M unit := fun w =>
  let w' := add_events w [ev] in
  match db_fault E (trace w) ev with
  | Some msg => (Raise (Exn Psycopg2Error msg), w')
  | None => (Return tt, w')
  end.

(** [connection.commit()]: the rows of the transaction become the table. *)
Definition set_documents (rows : list row) : M unit := fun w =>
  (Return tt, World rows (_config w) (trace w)).

Definition commit (c : connection) : M unit :=
  db_action EvCommit;;
  set_documents (pending c).

(** [connection.rollback()]: nothing of the transaction was committed, so
    no row changes; it is no event of the trace.  On a connection that is
    closed or dead it raises [psycopg2.InterfaceError], a
    [psycopg2.Error]. *)
Definition rollback : M unit := fun w =>
  match rollback_fault E (trace w) with
  | Some msg => (Raise (Exn Psycopg2Error msg), w)
  | None => (Return tt, w)
  end.

(** A new connection sees the committed rows. *)
Definition open_transaction : M connection := fun w =>
  (Return (Connection (documents w)), w).

(* --------------------------------------------------------------------- *)
(** *** utils/db_utils.py *)

(** [os.getenv(name)] with [if not value]: unset and empty are alike. *)
Definition getenv_truthy (name : string) : option string :=
  match getenv E name with
  | Some v => if str_empty v then None else Some v
  | None => None
  end.

Definition load_configuration : M config := fun w =>
  match _config w with
  | Some c => (Return c, w)
  | None =>
      match getenv_truthy "GEMINI_API_KEY" with
      | None =>
          (Raise (Exn ConfigurationError
                    "GEMINI_API_KEY not found in environment"), w)
      | Some api_key =>
          match getenv_truthy "EMBEDDING_MODEL" with
          | None =>
              (Raise (Exn ConfigurationError
                        "EMBEDDING_MODEL not found in environment"), w)
          | Some embedding_model =>
              let embedding_model :=
                if String.prefix "models/" embedding_model
                   || String.prefix "tunedModels/" embedding_model
                then embedding_model
                else "models/" +:+ embedding_model in
              match getenv_truthy "POSTGRES_URL" with
              | None =>
                  (Raise (Exn ConfigurationError
                            "POSTGRES_URL not found in environment"), w)
              | Some postgres_url =>
                  let c := Config api_key postgres_url embedding_model in
                  (Return c, World (documents w) (Some c) (trace w))
              end
          end
      end
  end.

Definition get_db_connection : M connection :=
  try_except
    (config ← load_configuration;
     db_action (EvConnect (postgres_url config));;
     open_transaction)
    [ConfigurationError; Psycopg2Error]
    (fun e => raise (Exn DatabaseError
                       ("Failed to get database connection: " +:+ exn_str e))).

(** The table is there (CREATE TABLE IF NOT EXISTS) and the two functions
    are as [dot_product] and [vector_norm] below define them. *)
Definition ensure_database_schema (c : connection) : M unit :=
  try_except_all
    (db_action (EvExecute CreateTable);;
     db_action (EvExecute CreateDotProduct);;
     db_action (EvExecute CreateVectorNorm);;
     commit c)
    (fun e => rollback;;
              raise (Exn DatabaseError
                       ("Failed to ensure database schema: " +:+ exn_str e))).

(** The pattern of [delete_document_data] and [store_chunks_to_db]:

      connection = None
      try:
          connection = get_db_connection()
          body
      except classes:
          if connection: connection.rollback()
          return False

    The handler rolls back only when there is a connection; an exception
    of the rollback leaves the function. *)
Definition try_with_connection (body : connection → M bool)
    (classes : list exn_class) : M bool := fun w =>
  match get_db_connection w with
  | (Return c, w1) =>
      try_except (body c) classes (fun _ => rollback;; mret false) w1
  | (Raise e, w1) =>
      if caught_by classes e then (Return false, w1) else (Raise e, w1)
  end.

(** [filename] is [None] or a string; [if filename:] sends the empty
    string down the TRUNCATE branch as well. *)
Definition delete_document_data (filename : option string) : M bool :=
  try_with_connection
    (fun c =>
       c' ← match filename with
            | Some (String _ _ as f) =>
                db_action (EvExecute (DeleteWhereFilename f));;
                mret (Connection
                        (List.filter
                           (fun r => negb (String.eqb (row_filename r) f))
                           (pending c)))
            | _ =>
                db_action (EvExecute TruncateDocuments);;
                mret (Connection [])
            end;
       commit c';;
       mret true)
    [DatabaseError; Psycopg2Error].

(* --------------------------------------------------------------------- *)
(** *** The two SQL functions and the similarity query *)

Definition Qsum (l : list Q) : Q := foldr Qplus 0%Q l.

(** [dot_product(a, b)]: SUM(ai * bi) over the positions both arrays have. *)
Definition dot_product (a b : vector) : Q := Qsum (zip_with Qmult a b).

(** [vector_norm(a)]: SQRT(SUM(ai * ai)). *)
Definition vector_norm (a : vector) : Q := sql_sqrt E (Qsum (map (fun ai => ai * ai)%Q a)).

(** SQL division: a zero divisor is the error "division by zero". *)
Definition sql_div (a b : Q) : res Q :=
  if Qeq_bool b 0 then Raise (Exn Psycopg2Error "division by zero")
  else Return (a / b)%Q.

(** [embedding_norm > 0] *)
Definition norm_positive (r : row) : bool := Qgt_bool (row_embedding_norm r) 0.

(** One output row of the SELECT list. *)
Definition score_row (query : vector) (query_norm : Q) (r : row) : res result :=
  s ← sql_div (dot_product (row_embedding r) query)
              (row_embedding_norm r * query_norm);
  Return (Result (row_chunk_text r) (row_filename r) (row_split_strategy r) s).

Fixpoint traverse {A B} (f : A → res B) (l : list A) : res (list B) :=
  match l with
  | [] => Return []
  | a :: l' => b ← f a; bs ← traverse f l'; Return (b :: bs)
  end.

Global Instance score_ge_dec (a b : result) : Decision (score_ge a b).
Proof.
  unfold score_ge.
  destruct (Qlt_le_dec (similarity_score a) (similarity_score b)) as [Hlt|Hle].
  - right. intros Hle. exact (Qlt_not_le _ _ Hlt Hle).
  - left. exact Hle.
Defined.

(** The search query: WHERE, the SELECT list, ORDER BY ... DESC, LIMIT.
    PostgreSQL leaves the order of equal scores open; [merge_sort] fixes
    one.  A negative LIMIT is an error of the server. *)
Definition select_similar (rows : list row) (query : vector) (query_norm : Q)
    (limit : Z) : res (list result) :=
  scored ← traverse (score_row query query_norm) (List.filter norm_positive rows);
  if (limit <? 0)%Z
  then Raise (Exn Psycopg2Error "LIMIT must not be negative")
  else Return (take (Z.to_nat limit) (merge_sort score_ge scored)).

(* --------------------------------------------------------------------- *)
(** *** utils/shared_utils.py: _embed_with_retry, generate_embeddings *)

(** [genai.embed_content(model=model, content=content)]; the value is the
    ['embedding'] entry of the response. *)
Definition genai_embed_content (model : string) (content : list string)
    : M (list vector) := fun w =>
  (embed_content E (trace w) model content,
   add_events w [EvEmbed model content]).

(** The loop [for attempt in range(max_retries)] from a given list of
    attempts on.  A loop that runs out returns [None]. *)
Fixpoint embed_attempts (model : string) (content : list string)
    (max_retries : nat) (attempts : list nat) : M (option (list vector)) :=
  match attempts with
  | [] => mret None
  | attempt :: rest =>
      try_except_all
        (r ← genai_embed_content model content; mret (Some r))
        (fun e =>
           if (attempt =? max_retries - 1)%nat
           then raise (Exn EmbeddingGenerationError
                         ("Failed after " +:+ pretty max_retries
                          +:+ " attempts: " +:+ exn_str e))
           else
             let wait_time := (2 ^ Z.of_nat attempt)%Z in
             sleep (inject_Z wait_time);;
             embed_attempts model content max_retries rest)
  end.

Definition _embed_with_retry (model : string) (content : list string)
    (max_retries : nat) : M (option (list vector)) :=
  embed_attempts model content max_retries (seq 0 max_retries).

Definition BATCH_SIZE : nat := 10.

(** [range(0, stop, step)] *)
Definition range_step (stop step : nat) : list nat :=
  map (fun i => i * step)%nat (seq 0 ((stop + step - 1) / step)).

(** [l[a:b]] for [0 <= a] *)
Definition slice {A} (l : list A) (a b : nat) : list A := take (b - a) (drop a l).

(** The loop over the batches, from a given list of batch starts on, with
    the [embeddings] gathered so far. *)
Fixpoint embed_batches (embedding_model : string) (chunks : list string)
    (batch_starts : list nat) (embeddings : list vector) : M (list vector) :=
  match batch_starts with
  | [] => mret embeddings
  | batch_start :: rest =>
      let batch_end := (batch_start + BATCH_SIZE) `min` length chunks in
      let batch := slice chunks batch_start batch_end in
      batch_result ← _embed_with_retry embedding_model batch 3;
      match batch_result with
      | None => raise (Exn OtherException "'NoneType' object is not subscriptable")
      | Some embedding =>
          let embeddings := embeddings ++ embedding in
          (if (batch_end <? length chunks)%nat then sleep 0.1 else mret tt);;
          embed_batches embedding_model chunks rest embeddings
      end
  end.

Definition generate_embeddings (chunks : list string) : M (list vector) :=
  match chunks with
  | [] => raise (Exn ValueError "Cannot generate embeddings for empty chunks list")
  | _ =>
      config ← try_except_all load_configuration
                 (fun e => raise (Exn EmbeddingGenerationError
                                    ("Configuration error: " +:+ exn_str e)));
      try_except_all
        (embed_batches (embedding_model config) chunks
           (range_step (length chunks) BATCH_SIZE) [])
        (fun e => raise (Exn EmbeddingGenerationError
                           ("Failed to generate embeddings: " +:+ exn_str e)))
  end.

(* --------------------------------------------------------------------- *)
(** *** index_documents.py *)

Definition check_exists (file_path : string) : M bool := fun w =>
  (Return (path_exists E (trace w) file_path),
   add_events w [EvExists file_path]).

Definition extract (file_path : string) : M string := fun w =>
  (extract_text E (trace w) file_path,
   add_events w [EvExtract file_path]).

Definition load_document (file_path : string) : M string :=
  let file_extension := suffix_lower E file_path in
  if negb (bool_decide (file_extension ∈ [".pdf"; ".docx"]))
  then raise (Exn ValueError
                ("Unsupported file format: " +:+ file_extension
                 +:+ ". Only PDF and DOCX are supported."))
  else
    found ← check_exists file_path;
    if negb found
    then raise (Exn FileNotFoundError ("File not found: " +:+ file_path))
    else
      text_content ←
        try_except_all (extract file_path)
          (fun e => raise (Exn DocumentProcessingError
                             ("Failed to process file " +:+ file_path
                              +:+ ": " +:+ exn_str e)));
      if str_empty text_content || str_empty (strip text_content)
      then raise (Exn ValueError ("File is empty: " +:+ file_path))
      else mret text_content.

Definition _validate_data_for_indexing (chunks : list string)
    (embeddings : list vector) (filename : string) : res unit :=
  match chunks, embeddings with
  | [], _ => Raise (Exn ValueError "Chunks list cannot be empty for indexing.")
  | _, [] => Raise (Exn ValueError "Embeddings list cannot be empty for indexing.")
  | _, _ =>
      if negb (length chunks =? length embeddings)%nat
      then Raise (Exn ValueError
                    ("Chunks count (" +:+ pretty (length chunks)
                     +:+ ") doesn't match embeddings count ("
                     +:+ pretty (length embeddings) +:+ ")."))
      else if str_empty filename || str_empty (strip filename)
      then Raise (Exn ValueError "Filename cannot be empty for indexing.")
      else Return tt
  end.

(** The row the INSERT template makes of one tuple: the norm is computed
    by the server from the very array it stores. *)
Definition inserted_row (d : string * string * string * vector) : row :=
  let '(filename, chunk, split_strategy, embedding) := d in
  Row filename chunk split_strategy embedding (vector_norm embedding).

Definition store_chunks_to_db (chunks : list string) (embeddings : list vector)
    (filename : string) (split_strategy : string) : M bool :=
  valid ← try_except
            (lift (_validate_data_for_indexing chunks embeddings filename);;
             mret true)
            [ValueError]
            (fun _ => mret false);
  if negb valid then mret false
  else
    try_with_connection
      (fun c =>
         ensure_database_schema c;;
         let data_to_insert :=
           map (fun '(chunk, embedding) =>
                  (filename, chunk, split_strategy, embedding))
               (zip chunks embeddings) in
         db_action (EvExecute (InsertDocuments data_to_insert));;
         commit (Connection (pending c ++ map inserted_row data_to_insert));;
         mret true)
      [DatabaseError; Psycopg2Error].

Definition process_document (file_path : string) : M bool :=
  try_except_all
    (try_except
       (deleted ← delete_document_data (Some file_path);
        if negb deleted then mret false
        else
          text ← load_document file_path;
          chunks ← lift (chunk_by_paragraphs text);
          embeddings ← generate_embeddings chunks;
          db_success ← store_chunks_to_db chunks embeddings file_path "paragraph";
          if (db_success : bool) then mret true else mret false)
       [FileNotFoundError; ValueError; DocumentProcessingError;
        EmbeddingGenerationError]
       (fun _ => mret false))
    (fun _ => mret false).

(* --------------------------------------------------------------------- *)
(** *** search_documents.py *)

Definition _search_single_embedding (embedding : vector) (c : connection)
    (top_k : Z) : M (list result) :=
  try_except
    (let query_norm := np_norm E embedding in
     if Qeq_bool query_norm 0 then mret []
     else
       db_action (EvExecute (SelectSimilar embedding query_norm top_k));;
       lift (select_similar (pending c) embedding query_norm top_k))
    [Psycopg2Error]
    (fun e => raise (Exn DatabaseSearchError
                       ("Failed to search database: " +:+ exn_str e))).

(** The loop [for i, embedding in enumerate(query_embeddings)]. *)
Fixpoint search_each (c : connection) (top_k : Z)
    (query_embeddings : list vector) (all_search_results : list (list result))
    : M (list (list result)) :=
  match query_embeddings with
  | [] => mret all_search_results
  | embedding :: rest =>
      search_results ← _search_single_embedding embedding c top_k;
      search_each c top_k rest (all_search_results ++ [search_results])
  end.

Definition similarity_search (query_embeddings : list vector) (top_k : Z)
    : M (list result) :=
  match query_embeddings with
  | [] => raise (Exn ValueError "Cannot search without embeddings")
  | _ =>
      try_except
        (c ← get_db_connection;
         ensure_database_schema c;;
         all_search_results ← search_each c top_k query_embeddings [];
         lift (_merge_search_results all_search_results top_k))
        [DatabaseError; Psycopg2Error]
        (fun e => raise (Exn DatabaseSearchError
                           ("A database error occurred: " +:+ exn_str e)))
  end.

End Operations.

(** The result the search query makes of a row: its three texts and
    dot(query, stored) / (stored_norm * query_norm). *)
Definition scored_result (query : vector) (query_norm : Q) (r : row) : result :=
  Result (row_chunk_text r) (row_filename r) (row_split_strategy r)
    (dot_product (row_embedding r) query / (row_embedding_norm r * query_norm))%Q.


(** The events of the four steps of [process_document] that reach a
    collaborator (chunking reaches none).  The delete step and the store
    step both connect and commit. *)
Definition delete_event (ev : event) : Prop :=
  match ev with
  | EvConnect _ | EvCommit
  | EvExecute (DeleteWhereFilename _) | EvExecute TruncateDocuments => True
  | _ => False
  end.

Definition load_event (ev : event) : Prop :=
  match ev with
  | EvExists _ | EvExtract _ => True
  | _ => False
  end.

Definition embed_event (ev : event) : Prop :=
  match ev with
  | EvEmbed _ _ | EvSleep _ => True
  | _ => False
  end.

Definition store_event (ev : event) : Prop :=
  match ev with
  | EvConnect _ | EvCommit
  | EvExecute CreateTable | EvExecute CreateDotProduct
  | EvExecute CreateVectorNorm | EvExecute (InsertDocuments _) => True
  | _ => False
  end.

(** A computation that only adds events of the kind [P] to the trace. *)
Definition emits {A} (P : event → Prop) (m : M A) : Prop :=
  ∀ w, ∃ evs, trace (m w).2 = trace w ++ evs ∧ Forall P evs.

(** The settings can be had: [load_configuration] returns. *)
Definition configured (E : env) (w : world) : Prop :=
  ∃ c w', load_configuration E w = (Return c, w').

(** The database answers every call. *)
Definition db_reliable (E : env) : Prop := ∀ h ev, db_fault E h ev = None.

(* ===================================================================== *)
(** ** A concrete environment for the examples *)
(* ===================================================================== *)

(** A square root that is exact on the squares of rationals (and rounds
    down elsewhere): the norms of the example vectors are exact. *)
Definition Qsqrt (q : Q) : Q :=
  let r := Qred q in Z.sqrt (Qnum r) # Pos.sqrt (Qden r).

Definition euclid_norm (v : vector) : Q := Qsqrt (Qsum (map (fun x => x * x)%Q v)).

(** All three settings present, a database that never fails, files that
    exist and hold two paragraphs, and an embedding service that answers
    each string with the one-component vector of its length. *)
Definition example_env : env := {|
  getenv := fun name =>
    if String.eqb name "GEMINI_API_KEY" then Some "secret"
    else if String.eqb name "EMBEDDING_MODEL" then Some "embedding-001"
    else if String.eqb name "POSTGRES_URL" then Some "postgresql://db"
    else None;
  embed_content := fun _ _ content =>
    Return (map (fun s => [inject_Z (Z.of_nat (String.length s))]) content);
  suffix_lower := fun _ => ".pdf";
  path_exists := fun _ _ => true;
  extract_text := fun _ _ => Return ("first" +:+ nn +:+ "second");
  db_fault := fun _ _ => None;
  rollback_fault := fun _ => None;
  np_norm := euclid_norm;
  sql_sqrt := Qsqrt
|}.

(** [example_env] with POSTGRES_URL not set: the embedding service answers
    as before. *)
Definition no_url_env : env := {|
  getenv := fun name =>
    if String.eqb name "POSTGRES_URL" then None else getenv example_env name;
  embed_content := embed_content example_env;
  suffix_lower := suffix_lower example_env;
  path_exists := path_exists example_env;
  extract_text := extract_text example_env;
  db_fault := db_fault example_env;
  rollback_fault := rollback_fault example_env;
  np_norm := np_norm example_env;
  sql_sqrt := sql_sqrt example_env
|}.

Definition empty_world : world := World [] None [].

(** The vector [example_env] answers a string with. *)
Definition length_vector (s : string) (v : vector) : Prop :=
  v = [inject_Z (Z.of_nat (String.length s))].

(** Eleven chunks: one full batch and one more chunk. *)
Definition eleven_chunks : list string := replicate 11 "ab".

(** Three stored chunks with the embeddings (1,0), (0,1) and (3,4). *)
Definition example_rows : list row :=
  [ Row "doc.pdf" "A" "paragraph" [1; 0] 1;
    Row "doc.pdf" "B" "paragraph" [0; 1] 1;
    Row "doc.pdf" "C" "paragraph" [3; 4] 5 ]%Q.

Definition example_world : world := World example_rows None [].


(* ===================================================================== *)
(** ** search_documents.py: the query pipeline *)
(* ===================================================================== *)

Section QueryPipeline.

Context (E : env).

(** [f"{x:.1f}"], the rounding of a float to one decimal, is left open. *)
Context (format_1f : Q → string).

(** [create_query_embeddings(query)]: the first [except] clause that
    matches handles the exception. *)
Definition create_query_embeddings (query : string)
    : M (list string * list vector) :=
  try_except_all
    (chunks ← lift (chunk_by_paragraphs query);
     embeddings ← generate_embeddings E chunks;
     mret (chunks, embeddings))
    (fun e =>
       if caught_by [ValueError] e
       then raise (Exn ValueError ("Invalid query: " +:+ exn_str e))
       else if caught_by [EmbeddingGenerationError] e
       then raise (Exn EmbeddingError
                     ("Failed to create query embeddings: " +:+ exn_str e))
       else raise (Exn EmbeddingError ("Unexpected error: " +:+ exn_str e))).

(** [s * n] *)
Fixpoint str_repeat (s : string) (n : nat) : string :=
  match n with
  | O => ""
  | S k => s +:+ str_repeat s k
  end.

(** The text [format_results] adds for one result, [result_index] counting
    from 1. *)
Definition format_result (result_index : nat) (r : result) : string :=
  let similarity_percentage := (similarity_score r * 100)%Q in
  (pretty result_index +:+ ". Source: " +:+ filename r +:+ " | Similarity: "
   +:+ format_1f similarity_percentage +:+ "%" +:+ String newline "")
  +:+ (chunk_text r +:+ nn)
  +:+ (str_repeat "-" 30 +:+ nn).

(** The loop [for result_index, result in enumerate(results, 1)]. *)
Fixpoint format_each (result_index : nat) (results : list result)
    (formatted_text : string) : string :=
  match results with
  | [] => formatted_text
  | r :: rest =>
      format_each (S result_index) rest
        (formatted_text +:+ format_result result_index r)
  end.

Definition format_results (results : list result) : string :=
  match results with
  | [] => "No results found for your search."
  | _ =>
      format_each 1 results
        (("Search Results (" +:+ pretty (length results) +:+ " results):"
          +:+ String newline "")
         +:+ (str_repeat "=" 50 +:+ nn))
  end.

(** [search_query(user_question)]; [similarity_search] runs with its
    default [top_k = 5]. *)
Definition search_query (user_question : string) : M string :=
  try_except_all
    (try_except
       ('(chunks, embeddings) ← create_query_embeddings user_question;
        results ← similarity_search E embeddings 5;
        mret (format_results results))
       [ValueError; EmbeddingError; DatabaseSearchError]
       (fun e => mret ("Search failed: " +:+ exn_str e)))
    (fun _ => mret "An unexpected error occurred. Please try again.").

End QueryPipeline.

(* ===================================================================== *)
(** ** Predicates on computations *)
(* ===================================================================== *)

(** A computation that leaves the [documents] table as it is. *)
Definition keeps_documents {A} (m : M A) : Prop :=
  ∀ w, documents (m w).2 = documents w.

(** The rows [delete_document_data(filename)] leaves. *)
Definition rows_after_delete (filename : option string) (rows : list row)
    : list row :=
  match filename with
  | Some (String _ _ as f) =>
      List.filter (fun r => negb (String.eqb (row_filename r) f)) rows
  | _ => []
  end.

(** The rows [store_chunks_to_db] adds. *)
Definition rows_to_store (chunks : list string) (embeddings : list vector)
    (filename split_strategy : string) (norm : vector → Q) : list row :=
  map (fun '(chunk, embedding) =>
         Row filename chunk split_strategy embedding (norm embedding))
      (zip chunks embeddings).

(** The events of [k] attempts of one call: the call, and before each
    attempt but the first a sleep of 1, 2, 4, ... seconds. *)
Fixpoint retry_events (call : event) (attempt : nat) (k : nat) : list event :=
  match k with
  | O => []
  | S O => [call]
  | S k' =>
      call :: EvSleep (inject_Z (2 ^ Z.of_nat attempt))
      :: retry_events call (S attempt) k'
  end.

(** An event a run of [generate_embeddings chunks] may add: a request for
    [model] with between 1 and [BATCH_SIZE] strings that stand together
    in [chunks], or a sleep. *)
Definition batch_event (model : string) (chunks : list string) (ev : event)
    : Prop :=
  match ev with
  | EvEmbed m content =>
      m = model ∧ 0 < length content ≤ BATCH_SIZE ∧
      ∃ i, content = take (length content) (drop i chunks)
  | EvSleep _ => True
  | _ => False
  end.

(** The requests of a run of [generate_embeddings] where every call
    succeeds: one for each batch, a sleep of 0.1 s between two. *)
Fixpoint batch_requests (model : string) (batches : list (list string))
    : list event :=
  match batches with
  | [] => []
  | [b] => [EvEmbed model b]
  | b :: rest => EvEmbed model b :: EvSleep 0.1 :: batch_requests model rest
  end.

(** The [n] batches of [chunks] from batch number [i] on. *)
Definition batches_from (chunks : list string) (i n : nat)
    : list (list string) :=
  map (fun j => slice chunks (j * BATCH_SIZE)
                  ((j * BATCH_SIZE + BATCH_SIZE) `min` length chunks))
      (seq i n).

(** The events of a search that reach the database: the connection, the
    schema statements with their commit, and SELECT statements. *)
Definition search_event (ev : event) : Prop :=
  match ev with
  | EvConnect _ | EvCommit
  | EvExecute CreateTable | EvExecute CreateDotProduct
  | EvExecute CreateVectorNorm | EvExecute (SelectSimilar _ _ _) => True
  | _ => False
  end.

(** A result of a search over [rows] for one of the vectors [queries]:
    the score of a row with a positive norm against one of them. *)
Definition result_of (E : env) (rows : list row) (queries : list vector)
    (x : result) : Prop :=
  ∃ q r, q ∈ queries ∧ r ∈ rows ∧ (0 < row_embedding_norm r)%Q ∧
         x = scored_result q (np_norm E q) r.

(* ===================================================================== *)
(** ** index_documents.py: _extract_docx_text *)
(* ===================================================================== *)

(** [_extract_docx_text], from the texts of the paragraphs python-docx
    finds on: [paragraph_texts] is
    [[paragraph.text for paragraph in document.paragraphs]]. *)
Definition _extract_docx_text (paragraph_texts : list string) : string :=
  join nn (List.filter (fun text => negb (str_empty (strip text)))
             paragraph_texts).

(* ===================================================================== *)
(** ** document_search_cli.py *)
(* ===================================================================== *)

(** What a call of [input()] meets: a line typed, or Ctrl-C
    ([KeyboardInterrupt]).  When the keys are used up standard input is at
    its end, and [input()] raises [EOFError]. *)
Inductive key : Type :=
| Line (s : string)
| CtrlC.

(** What [get_user_choice] prints besides its prompt, without the
    wording. *)
Inductive notice : Type :=
| EnterNumberBetween (low high : Z)
| EnterValidNumber
| Goodbye.

(** How [get_user_choice] ends: it returns, [sys.exit(code)], or the
    [EOFError] of [input()], which it does not catch. *)
Inductive ending : Type :=
| Chosen (choice_num : Z)
| SysExit (code : Z)
| EndOfInput.

Section Cli.

(** [int(choice_str)]: [None] where it raises [ValueError]. *)
Context (int : string → option Z).

(** The loop [while True] of [get_user_choice], over the keys to come;
    [printed] gathers the notices. *)
Fixpoint get_user_choice (max_option : Z) (keys : list key)
    (printed : list notice) : ending * list notice * list key :=
  match keys with
  | [] => (EndOfInput, printed, [])
  | CtrlC :: rest => (SysExit 0, printed ++ [Goodbye], rest)
  | Line s :: rest =>
      let choice_str := strip s in
      if str_empty choice_str then get_user_choice max_option rest printed
      else
        match int choice_str with
        | None =>
            get_user_choice max_option rest (printed ++ [EnterValidNumber])
        | Some choice_num =>
            if ((1 <=? choice_num) && (choice_num <=? max_option))%Z
            then (Chosen choice_num, printed, rest)
            else get_user_choice max_option rest
                   (printed ++ [EnterNumberBetween 1 max_option])
        end
  end.

(** A line that [get_user_choice] passes over. *)
Definition passed_over (max_option : Z) (s : string) : Prop :=
  strip s = "" ∨ int (strip s) = None ∨
  ∃ n, int (strip s) = Some n ∧ ¬ (1 <= n <= max_option)%Z.

End Cli.

(** The notices for the lines passed over: one for each line that is not
    blank, none of them the farewell. *)
Definition complaints (skipped : list string) (notices : list notice) : Prop :=
  length notices
  = length (List.filter (λ s, negb (str_empty (strip s))) skipped) ∧
  Forall (λ m, m ≠ Goodbye) notices.


(** An exception that leaves [delete_document_data] or
    [store_chunks_to_db]: the one of a rollback that failed, in the world
    [w'] it left. *)
Definition rollback_failed (E : env) (e : exn) (w' : world) : Prop :=
  exn_cls e = Psycopg2Error ∧ rollback_fault E (trace w') = Some (exn_str e).

(* ===================================================================== *)
(** * Properties *)
(* ===================================================================== *)

(* ===================================================================== *)
(** ** Strings *)
(* ===================================================================== *)

Section StringFacts.

Implicit Types (s t cur : string) (c d w : ascii).

(** Induction two characters at a time, as [split_nn] recurses. *)
Lemma string_ind2 (P : string → Prop) :
  P "" →
  (∀ c, P (String c "")) →
  (∀ c d s, P s → P (String d s) → P (String c (String d s))) →
  ∀ s, P s.
Proof.
  intros H0 H1 H2 s.
  assert (H : P s ∧ ∀ c, P (String c s)).
  { induction s as [|d s [IHa IHb]]; split; auto. }
  exact (proj1 H).
Qed.

Lemma str_app_nil_l s : "" +:+ s = s.
Proof. reflexivity. Qed.

Lemma str_app_cons c s t : String c s +:+ t = String c (s +:+ t).
Proof. reflexivity. Qed.

Lemma str_app_nil_r s : s +:+ "" = s.
Proof. induction s as [|c s IH]; [done | by rewrite str_app_cons, IH]. Qed.

Lemma str_app_assoc s t u : (s +:+ t) +:+ u = s +:+ (t +:+ u).
Proof. induction s as [|c s IH]; [done | by rewrite !str_app_cons, IH]. Qed.

Lemma isspace_newline : isspace newline = true.
Proof. reflexivity. Qed.

Lemma is_newline_space c : is_newline c = true → isspace c = true.
Proof.
  unfold is_newline. intros H. apply bool_decide_eq_true in H. by subst.
Qed.

(** *** Whitespace-only strings *)

Lemma all_space_app s t : all_space (s +:+ t) = all_space s && all_space t.
Proof.
  induction s as [|c s IH]; [done|].
  rewrite str_app_cons. simpl. rewrite IH. by destruct (isspace c).
Qed.

Lemma rstrip_empty s : str_empty (rstrip s) = all_space s.
Proof.
  induction s as [|c s IH]; simpl; [done|].
  rewrite <- IH. destruct (str_empty (rstrip s)), (isspace c); done.
Qed.

Lemma lstrip_all_space s : all_space (lstrip s) = all_space s.
Proof.
  induction s as [|c s IH]; simpl; [done|].
  destruct (isspace c) eqn:Hc; simpl; [done | by rewrite Hc].
Qed.

Lemma blank_all_space s : blank s = all_space s.
Proof. unfold blank, strip. by rewrite rstrip_empty, lstrip_all_space. Qed.

Lemma blank_empty : blank "" = true.
Proof. reflexivity. Qed.

Lemma blank_app s t : blank (s +:+ t) = blank s && blank t.
Proof. rewrite !blank_all_space. apply all_space_app. Qed.

Lemma blank_newlines k : blank (newlines k) = true.
Proof. rewrite blank_all_space. induction k; simpl; auto. Qed.

(** *** [strip] *)

Lemma strip_space c s : isspace c = true → strip (String c s) = strip s.
Proof. intros Hc. unfold strip. simpl. by rewrite Hc. Qed.

Lemma rstrip_app_space s w : isspace w = true → rstrip (s +:+ String w "") = rstrip s.
Proof.
  intros Hw. induction s as [|c s IH].
  - simpl. by rewrite Hw.
  - rewrite str_app_cons. simpl. by rewrite IH.
Qed.

Lemma lstrip_app_space s w :
  isspace w = true →
  lstrip (s +:+ String w "") = if all_space s then "" else lstrip s +:+ String w "".
Proof.
  intros Hw. induction s as [|c s IH].
  - simpl. by rewrite Hw.
  - rewrite str_app_cons. simpl. destruct (isspace c); simpl; [apply IH | done].
Qed.

Lemma strip_app_space s w : isspace w = true → strip (s +:+ String w "") = strip s.
Proof.
  intros Hw. unfold strip. rewrite lstrip_app_space by done.
  destruct (all_space s) eqn:Hs.
  - assert (H : str_empty (rstrip (lstrip s)) = true).
    { by rewrite rstrip_empty, lstrip_all_space. }
    destruct (rstrip (lstrip s)); done.
  - by apply rstrip_app_space.
Qed.

Lemma rstrip_idemp s : rstrip (rstrip s) = rstrip s.
Proof.
  induction s as [|c s IH]; simpl; [done|].
  destruct (str_empty (rstrip s) && isspace c) eqn:Hb; simpl; [done|].
  rewrite IH, Hb. done.
Qed.

Lemma lstrip_lstripped s : lstripped (lstrip s) = true.
Proof.
  induction s as [|c s IH]; simpl; [done|].
  destruct (isspace c) eqn:Hc; simpl; [done | by rewrite Hc].
Qed.

Lemma lstripped_lstrip s : lstripped s = true → lstrip s = s.
Proof.
  destruct s as [|c s]; simpl; [done|]. by destruct (isspace c).
Qed.

Lemma rstrip_lstripped s : lstripped s = true → lstripped (rstrip s) = true.
Proof.
  destruct s as [|c s]; simpl; [done|].
  destruct (isspace c) eqn:Hc; [done|]. intros _.
  rewrite andb_false_r. simpl. by rewrite Hc.
Qed.

Lemma strip_idemp s : strip (strip s) = strip s.
Proof.
  unfold strip. rewrite lstripped_lstrip.
  - apply rstrip_idemp.
  - apply rstrip_lstripped, lstrip_lstripped.
Qed.

End StringFacts.

(* ===================================================================== *)
(** ** Splitting at empty lines *)
(* ===================================================================== *)

Section SplitFacts.

Implicit Types (s t a b cur p : string) (c d : ascii) (X : list string).

Lemma split_nn_cons2 c d s :
  split_nn (String c (String d s)) =
  if is_newline c && is_newline d then "" :: split_nn s
  else cons_hd c (split_nn (String d s)).
Proof. reflexivity. Qed.

Lemma split_nn_nonempty s : split_nn s ≠ [].
Proof.
  induction s as [| c | c d s IHs IHd] using string_ind2; [done..|].
  rewrite split_nn_cons2. destruct (is_newline c && is_newline d); [done|].
  destruct (split_nn (String d s)); done.
Qed.

Lemma prefix_cons c s d t :
  String.prefix (String c s) (String d t) =
  if ascii_dec c d then String.prefix s t else false.
Proof. reflexivity. Qed.

Lemma prefix_nn c s :
  String.prefix nn (String c s) =
  is_newline c && match s with "" => false | String d _ => is_newline d end.
Proof.
  unfold nn, is_newline. rewrite prefix_cons.
  destruct (ascii_dec newline c) as [<-|Hc].
  - rewrite bool_decide_eq_true_2 by done. destruct s as [|d s]; [done|].
    rewrite prefix_cons. destruct (ascii_dec newline d) as [<-|Hd].
    + rewrite bool_decide_eq_true_2 by done. by destruct s.
    + rewrite bool_decide_eq_false_2; [done | congruence].
  - rewrite bool_decide_eq_false_2; [done | congruence].
Qed.

(** [text.split('\n\n')] is [split_nn text]. *)
Lemma split_nn_eq s : split nn s = split_nn s.
Proof.
  unfold split.
  induction s as [| c | c d s IHs IHd] using string_ind2.
  - reflexivity.
  - unfold split_from. rewrite prefix_nn, andb_false_r. reflexivity.
  - rewrite split_nn_cons2.
    change (split_from nn 0 (String c (String d s))) with
      (if String.prefix nn (String c (String d s))
       then "" :: split_from nn 0 s
       else cons_hd c (split_from nn 0 (String d s))).
    rewrite prefix_nn, IHs, IHd. reflexivity.
Qed.

Lemma prepend_cons_hd cur c X :
  prepend cur (cons_hd c X) = prepend (cur +:+ String c "") X.
Proof.
  destruct X as [|p ps]; simpl; [done|].
  by rewrite str_app_assoc.
Qed.

Lemma prepend_empty s : prepend "" (split_nn s) = split_nn s.
Proof.
  pose proof (split_nn_nonempty s). by destruct (split_nn s).
Qed.

Lemma cleaned_single p : cleaned [p] = if blank p then [] else [strip p].
Proof. unfold cleaned, blank. simpl. by destruct (str_empty (strip p)). Qed.

Lemma cleaned_cons p X : cleaned (p :: X) = cleaned [p] ++ cleaned X.
Proof.
  unfold cleaned. simpl. by destruct (negb (str_empty (strip p))).
Qed.

Lemma cleaned_app X Y : cleaned (X ++ Y) = cleaned X ++ cleaned Y.
Proof.
  induction X as [|p X IH]; [done|].
  rewrite <- app_comm_cons, (cleaned_cons p X), (cleaned_cons p (X ++ Y)), IH.
  by rewrite (assoc_L (++)).
Qed.

(** A whitespace character in front of a text changes no chunk. *)
Lemma cleaned_cons_hd_space c X :
  isspace c = true → X ≠ [] → cleaned (cons_hd c X) = cleaned X.
Proof.
  intros Hc HX. destruct X as [|p ps]; [done|]. simpl.
  rewrite (cleaned_cons (String c p)), (cleaned_cons p), !cleaned_single.
  unfold blank. by rewrite strip_space.
Qed.

(** One more newline in front of a text changes no chunk. *)
Lemma cleaned_split_newline s :
  cleaned (split_nn (String newline s)) = cleaned (split_nn s).
Proof.
  induction s as [|d s IH]; [reflexivity|].
  rewrite split_nn_cons2. destruct (is_newline d) eqn:Hd.
  - apply bool_decide_eq_true in Hd. subst d. simpl.
    rewrite cleaned_cons, cleaned_single. simpl. by rewrite <- IH.
  - rewrite andb_false_r. apply cleaned_cons_hd_space; [done|].
    apply split_nn_nonempty.
Qed.

Lemma cleaned_split_newlines k s :
  cleaned (split_nn (newlines k +:+ s)) = cleaned (split_nn s).
Proof.
  induction k as [|k IH]; [done|].
  change (newlines (S k)) with (String newline (newlines k)).
  rewrite str_app_cons, cleaned_split_newline. exact IH.
Qed.

(** The chunks of [a + '\n\n' + b] are those of [a] followed by those of [b],
    whatever stands before [a] in its first piece. *)
Lemma cleaned_split_nn_app a : ∀ cur b,
  cleaned (prepend cur (split_nn (a +:+ nn +:+ b))) =
  cleaned (prepend cur (split_nn a)) ++ cleaned (split_nn b).
Proof.
  induction a as [| c | c d a IHa IHd] using string_ind2; intros cur b.
  - rewrite str_app_nil_l. unfold nn. rewrite !str_app_cons, str_app_nil_l, split_nn_cons2.
    change (is_newline newline) with true. cbn [prepend andb].
    by rewrite cleaned_cons.
  - unfold nn. rewrite !str_app_cons, !str_app_nil_l, split_nn_cons2.
    change (is_newline newline) with true. rewrite andb_true_r.
    change (split_nn (String c "")) with [String c ""].
    destruct (is_newline c) eqn:Hc; cbn [prepend].
    + rewrite cleaned_cons, cleaned_split_newline, !cleaned_single.
      rewrite str_app_nil_r, blank_app. unfold blank at 3.
      rewrite strip_app_space by (by apply is_newline_space).
      rewrite (strip_space c) by (by apply is_newline_space).
      change (str_empty (strip "")) with true. by rewrite andb_true_r.
    + rewrite split_nn_cons2. change (is_newline newline) with true.
      cbn [andb cons_hd prepend]. by rewrite cleaned_cons.
  - rewrite !str_app_cons, !split_nn_cons2.
    destruct (is_newline c && is_newline d).
    + cbn [prepend].
      rewrite (cleaned_cons _ (split_nn _)), (cleaned_cons _ (split_nn a)).
      specialize (IHa "" b). rewrite !prepend_empty in IHa.
      by rewrite IHa, (assoc_L (++)).
    + rewrite !prepend_cons_hd. rewrite <- str_app_cons. apply IHd.
Qed.

(** An empty line separates: a run of two or more newlines between [a] and
    [b] is one paragraph break. *)
Lemma cleaned_split_break a k b :
  cleaned (split_nn (a +:+ newlines (2 + k) +:+ b)) =
  cleaned (split_nn a) ++ cleaned (split_nn b).
Proof.
  change (newlines (2 + k)) with (String newline (String newline (newlines k))).
  rewrite !str_app_cons.
  change (a +:+ String newline (String newline (newlines k +:+ b)))
    with (a +:+ nn +:+ (newlines k +:+ b)).
  pose proof (cleaned_split_nn_app a "" (newlines k +:+ b)) as H.
  rewrite !prepend_empty in H. rewrite H. by rewrite cleaned_split_newlines.
Qed.

(** No empty line inside: the text is one piece. *)
Lemma split_nn_no_nn p : no_nn p = true → split_nn p = [p].
Proof.
  induction p as [| c | c d p IHp IHd] using string_ind2; [done..|].
  intros H. rewrite split_nn_cons2.
  change (no_nn (String c (String d p))) with
    (negb (is_newline c && is_newline d) && no_nn (String d p)) in H.
  apply andb_true_iff in H as [H1 H2]. apply negb_true_iff in H1.
  rewrite H1, IHd by done. reflexivity.
Qed.

End SplitFacts.

Section ChunkFacts.

Implicit Types (s t a b cur p text : string) (c d : ascii) (X chunks : list string).

Lemma cleaned_nil_cons p X :
  cleaned (p :: X) = [] ↔ blank p = true ∧ cleaned X = [].
Proof.
  rewrite cleaned_cons, cleaned_single. destruct (blank p); simpl.
  - split; [by intros -> | by intros [_ ->]].
  - split; [done | by intros [? _]].
Qed.

(** No chunk comes out of a text exactly when the text is blank. *)
Lemma cleaned_prepend_nil t : ∀ cur,
  cleaned (prepend cur (split_nn t)) = [] ↔ blank cur && blank t = true.
Proof.
  induction t as [| c | c d t IHt IHd] using string_ind2; intros cur.
  - change (split_nn "") with [""]. cbn [prepend].
    rewrite cleaned_nil_cons, str_app_nil_r, blank_empty, andb_true_r. tauto.
  - change (split_nn (String c "")) with [String c ""]. cbn [prepend].
    rewrite cleaned_nil_cons, blank_app. tauto.
  - rewrite split_nn_cons2.
    destruct (is_newline c && is_newline d) eqn:Hcd.
    + apply andb_true_iff in Hcd as [Hc%is_newline_space Hd%is_newline_space].
      cbn [prepend]. rewrite cleaned_nil_cons, str_app_nil_r.
      specialize (IHt ""). rewrite prepend_empty, blank_empty in IHt.
      rewrite IHt. rewrite !blank_all_space. cbn [all_space andb].
      rewrite Hc, Hd. simpl. rewrite andb_true_iff. tauto.
    + rewrite prepend_cons_hd, IHd, blank_app.
      rewrite !blank_all_space. cbn [all_space].
      by destruct (all_space cur), (isspace c), (isspace d), (all_space t).
Qed.

Lemma cleaned_split_nil t : cleaned (split_nn t) = [] ↔ blank t = true.
Proof.
  pose proof (cleaned_prepend_nil t "") as H.
  by rewrite prepend_empty, blank_empty in H.
Qed.

(** The guard of [chunk_by_paragraphs] is [blank]. *)
Lemma chunk_guard text : str_empty text || str_empty (strip text) = blank text.
Proof. unfold blank. by destruct text. Qed.

Lemma chunk_by_paragraphs_nonblank text :
  blank text = false →
  chunk_by_paragraphs text = Return (cleaned (split_nn text)).
Proof.
  intros H. unfold chunk_by_paragraphs. by rewrite chunk_guard, H, split_nn_eq.
Qed.

Lemma chunk_by_paragraphs_blank text :
  blank text = true →
  chunk_by_paragraphs text = Raise (Exn ValueError "Cannot chunk empty text").
Proof.
  intros H. unfold chunk_by_paragraphs. by rewrite chunk_guard, H.
Qed.

Lemma chunk_by_paragraphs_returns text chunks :
  chunk_by_paragraphs text = Return chunks →
  blank text = false ∧ chunks = cleaned (split_nn text).
Proof.
  destruct (blank text) eqn:Hb.
  - by rewrite chunk_by_paragraphs_blank.
  - rewrite chunk_by_paragraphs_nonblank by done. by intros [= <-].
Qed.

(** *** The pieces of a split hold no empty line *)

Lemma no_nn_cons2 c d s :
  no_nn (String c (String d s)) =
  negb (is_newline c && is_newline d) && no_nn (String d s).
Proof. reflexivity. Qed.

Lemma no_nn_tail c s : no_nn (String c s) = true → no_nn s = true.
Proof.
  destruct s as [|d s]; [done|]. rewrite no_nn_cons2.
  by intros [_ ?]%andb_true_iff.
Qed.

Lemma split_nn_pieces s :
  match split_nn s with
  | [] => False
  | p :: ps => no_nn p = true ∧ Forall (λ q, no_nn q = true) ps ∧ starts_as s p
  end.
Proof.
  induction s as [| c | c d s IHs IHd] using string_ind2.
  - simpl. auto.
  - simpl. auto.
  - rewrite split_nn_cons2. destruct (is_newline c && is_newline d) eqn:Hcd.
    + destruct (split_nn s) as [|p ps]; [done|].
      destruct IHs as (Hp & Hps & _). repeat split; auto.
    + destruct (split_nn (String d s)) as [|p ps]; [done|].
      destruct IHd as (Hp & Hps & Hst). cbn [cons_hd].
      repeat split; auto.
      destruct p as [|e p]; [done|]. simpl in Hst. subst e.
      rewrite no_nn_cons2, Hcd, Hp. done.
Qed.

Lemma split_nn_no_nn_pieces s : Forall (λ q, no_nn q = true) (split_nn s).
Proof.
  pose proof (split_nn_pieces s) as H.
  destruct (split_nn s) as [|p ps]; [done|].
  destruct H as (? & ? & _). by constructor.
Qed.

Lemma no_nn_lstrip s : no_nn s = true → no_nn (lstrip s) = true.
Proof.
  induction s as [|c s IH]; [done|]. intros H. simpl.
  destruct (isspace c); [|done]. by apply IH, (no_nn_tail c).
Qed.

Lemma rstrip_starts_as s : starts_as s (rstrip s).
Proof.
  destruct s as [|c s]; simpl; [done|].
  by destruct (str_empty (rstrip s) && isspace c).
Qed.

Lemma no_nn_rstrip s : no_nn s = true → no_nn (rstrip s) = true.
Proof.
  induction s as [|c s IH]; [done|]. intros H. simpl.
  destruct (str_empty (rstrip s) && isspace c); [done|].
  pose proof (rstrip_starts_as s) as Hst.
  destruct (rstrip s) as [|e r] eqn:Hr; [done|].
  destruct s as [|d s]; [done|]. simpl in Hst. subst e.
  rewrite no_nn_cons2 in H. apply andb_true_iff in H as [H1 H2].
  rewrite no_nn_cons2, H1. simpl. by apply IH.
Qed.

Lemma no_nn_strip s : no_nn s = true → no_nn (strip s) = true.
Proof. intros H. by apply no_nn_rstrip, no_nn_lstrip. Qed.

(** What [rstrip] leaves, if anything, ends with a character that is not
    whitespace. *)
Lemma rstrip_last_char s :
  rstrip s ≠ "" → ∃ d, last_char (rstrip s) = Some d ∧ isspace d = false.
Proof.
  induction s as [|c s IH]; [done|]. cbn [rstrip]. cbv zeta.
  destruct (rstrip s) as [|d r] eqn:Hr.
  - cbn [str_empty andb]. destruct (isspace c) eqn:Hc; [done|]. intros _.
    by exists c.
  - cbn [str_empty andb]. intros _.
    destruct IH as (d' & Hd' & Hs); [done|]. by exists d'.
Qed.

(** A text that is not blank, stripped, is not empty and begins and ends
    with characters that are not whitespace. *)
Lemma strip_no_space_at_ends s :
  blank s = false → no_space_at_ends (strip s).
Proof.
  intros Hb. unfold blank in Hb.
  assert (Hne : strip s ≠ "") by (by destruct (strip s)).
  destruct (rstrip_last_char (lstrip s) Hne) as (d & Hd & Hds).
  pose proof (rstrip_lstripped _ (lstrip_lstripped s)) as Hl.
  fold (strip s) in Hl, Hd. destruct (strip s) as [|c r]; [done|].
  exists c, d. split; [done|]. split; [done|]. split; [|done].
  simpl in Hl. by apply negb_true_iff in Hl.
Qed.

Lemma cleaned_clean X :
  Forall (λ q, no_nn q = true) X → Forall clean_chunk (cleaned X).
Proof.
  induction 1 as [|p X Hp HX IH]; [constructor|].
  rewrite cleaned_cons, cleaned_single.
  destruct (blank p) eqn:Hb; [done|]. simpl. constructor; [|done].
  unfold clean_chunk, blank. rewrite strip_idemp.
  repeat split; [done | by apply no_nn_strip].
Qed.

(** Joining clean chunks by an empty line and splitting again gives them
    back. *)
Lemma cleaned_split_join chunks :
  Forall clean_chunk chunks → cleaned (split_nn (join nn chunks)) = chunks.
Proof.
  induction 1 as [|c' chunks (Hb & Hs & Hn) Hrest IH]; [done|].
  destruct chunks as [|c2 chunks].
  - simpl. by rewrite split_nn_no_nn, cleaned_single, Hb, Hs.
  - change (join nn (c' :: c2 :: chunks))
      with (c' +:+ nn +:+ join nn (c2 :: chunks)).
    pose proof (cleaned_split_nn_app c' "" (join nn (c2 :: chunks))) as H.
    rewrite !prepend_empty in H.
    by rewrite H, IH, split_nn_no_nn, cleaned_single, Hb, Hs.
Qed.

(** The text [assemble paragraphs last] chunks to its paragraphs. *)
Lemma cleaned_split_assemble (paragraphs : list (string * nat)) last :
  Forall (λ pk, no_nn pk.1 = true) paragraphs → no_nn last = true →
  cleaned (split_nn (assemble paragraphs last)) =
  cleaned (map fst paragraphs ++ [last]).
Proof.
  intros Hps Hlast. induction Hps as [|[p k] ps Hp Hps IH].
  - simpl. by rewrite split_nn_no_nn.
  - cbn [assemble map fst]. rewrite cleaned_split_break, IH.
    simpl in Hp. rewrite split_nn_no_nn by done.
    by rewrite <- app_comm_cons, (cleaned_cons p (_ ++ _)).
Qed.

End ChunkFacts.

(* ===================================================================== *)
(** ** Chunker: the claims *)
(* ===================================================================== *)

Section ChunkClaims.

Implicit Types (text last : string) (chunks : list string).

Lemma join_cons_hd c X :
  X ≠ [] → join nn (cons_hd c X) = String c (join nn X).
Proof. destruct X as [|p [|q X]]; done. Qed.

(** Joining the pieces of a split gives the text back. *)
Lemma join_split_nn text : join nn (split_nn text) = text.
Proof.
  induction text as [| c | c d s IHs IHd] using string_ind2; [done..|].
  rewrite split_nn_cons2. destruct (is_newline c && is_newline d) eqn:Hcd.
  - apply andb_true_iff in Hcd as [Hc Hd].
    apply bool_decide_eq_true in Hc, Hd. subst c d.
    pose proof (split_nn_nonempty s) as Hne.
    destruct (split_nn s) as [|p ps] eqn:Hs; [done|].
    change (join nn ("" :: p :: ps)) with ("" +:+ nn +:+ join nn (p :: ps)).
    by rewrite IHs.
  - rewrite join_cons_hd by apply split_nn_nonempty. by rewrite IHd.
Qed.

Lemma join_assemble X : ∀ p,
  ∃ (paragraphs : list (string * nat)) last,
    join nn (p :: X) = assemble paragraphs last ∧
    map fst paragraphs ++ [last] = p :: X.
Proof.
  induction X as [|q X IH]; intros p.
  - by exists [], p.
  - destruct (IH q) as (ps & last & Hj & Hm).
    exists ((p, 0) :: ps), last. split.
    + change (join nn (p :: q :: X)) with (p +:+ nn +:+ join nn (q :: X)).
      by rewrite Hj.
    + simpl. by rewrite Hm.
Qed.

(** Every text is put together from paragraphs without an empty line
    inside, so [chunk_by_paragraphs_empty_line_breaks] below speaks of
    every text. *)
Lemma every_text_assembles text :
  ∃ (paragraphs : list (string * nat)) last,
    text = assemble paragraphs last ∧
    Forall (λ pk, no_nn pk.1 = true) paragraphs ∧ no_nn last = true.
Proof.
  pose proof (split_nn_no_nn_pieces text) as Hn.
  pose proof (split_nn_nonempty text) as Hne.
  pose proof (join_split_nn text) as Hj.
  destruct (split_nn text) as [|p X]; [done|].
  destruct (join_assemble X p) as (ps & last & Ha & Hm).
  exists ps, last. rewrite <- Hj, Ha. split; [done|].
  rewrite <- Hm in Hn. apply Forall_app in Hn as [Hps Hlast].
  split.
  - by apply Forall_fmap in Hps.
  - by inversion Hlast.
Qed.

(** C3, as stated, fails: a line that holds one space is a blank line in
    the words of the specification, and the chunks it describes for
    ["a\\n \\nb"] are "a" and "b"; [chunk_by_paragraphs] returns the whole
    text as one chunk. *)
Lemma chunk_by_paragraphs_space_line :
  blank space_line_text = false ∧
  paragraphs_by_blank_lines space_line_text = ["a"; "b"] ∧
  chunk_by_paragraphs space_line_text = Return [space_line_text] ∧
  chunk_by_paragraphs space_line_text
    ≠ Return (paragraphs_by_blank_lines space_line_text).
Proof. repeat split; [reflexivity.. | discriminate]. Qed.

(** C3 (amended): a text that is not blank, made of paragraphs that hold no
    empty line and that are separated by runs of two or more newline
    characters (one or more empty lines), is chunked to its paragraphs,
    stripped, without the blank ones, in the order of the text.  Each
    run, whatever its length, is one break. *)
Theorem chunk_by_paragraphs_empty_line_breaks
    (paragraphs : list (string * nat)) last :
  Forall (λ pk, no_nn pk.1 = true) paragraphs →
  no_nn last = true →
  blank (assemble paragraphs last) = false →
  chunk_by_paragraphs (assemble paragraphs last) =
  Return (map strip
            (List.filter (λ p, negb (blank p)) (map fst paragraphs ++ [last]))).
Proof.
  intros Hps Hlast Hb.
  rewrite chunk_by_paragraphs_nonblank by done.
  by rewrite cleaned_split_assemble.
Qed.

Lemma chunk_by_paragraphs_three_paragraphs :
  chunk_by_paragraphs three_paragraphs = Return ["one"; "two"; "three"].
Proof.
  apply (chunk_by_paragraphs_empty_line_breaks [("one ", 0); (" two", 3)] "three").
  - repeat constructor.
  - reflexivity.
  - reflexivity.
Defined.

(** C8: when [chunk_by_paragraphs text] returns [chunks], chunking
    ['\n\n'.join(chunks)] returns the same [chunks]; every chunk is
    non-empty, has no whitespace at either end (its first and its last
    character are not whitespace characters, so that it is equal to its
    own [strip()]), and holds no ['\n\n']. *)
Theorem chunk_by_paragraphs_rechunk text chunks :
  chunk_by_paragraphs text = Return chunks →
  chunk_by_paragraphs (join nn chunks) = Return chunks ∧
  Forall (λ chunk, chunk ≠ "" ∧ no_space_at_ends chunk ∧
                   strip chunk = chunk ∧ no_nn chunk = true) chunks.
Proof.
  intros [Hb ->]%chunk_by_paragraphs_returns.
  pose proof (cleaned_clean _ (split_nn_no_nn_pieces text)) as Hclean.
  pose proof (cleaned_split_join _ Hclean) as Hjoin.
  split.
  - rewrite chunk_by_paragraphs_nonblank; [by rewrite Hjoin|].
    destruct (blank (join nn (cleaned (split_nn text)))) eqn:Hbj; [|done].
    apply cleaned_split_nil in Hbj. rewrite Hjoin in Hbj.
    apply cleaned_split_nil in Hbj. congruence.
  - eapply Forall_impl; [exact Hclean|].
    intros chunk (Hbc & Hs & Hn). split; [|split; [|done]].
    + intros ->. discriminate.
    + rewrite <- Hs. by apply strip_no_space_at_ends.
Qed.

Lemma chunk_by_paragraphs_rechunk_three :
  chunk_by_paragraphs (join nn ["one"; "two"; "three"])
    = Return ["one"; "two"; "three"] ∧
  Forall (λ chunk, chunk ≠ "" ∧ no_space_at_ends chunk ∧
                   strip chunk = chunk ∧ no_nn chunk = true)
         ["one"; "two"; "three"].
Proof.
  apply (chunk_by_paragraphs_rechunk three_paragraphs). reflexivity.
Defined.

End ChunkClaims.

(* ===================================================================== *)
(** ** Cross-query merge *)
(* ===================================================================== *)

Section MergeFacts.

Implicit Types (st : merge_state) (y x : result) (V : list result)
  (lists : list (list result)) (top_k : Z).

Lemma Qgt_bool_true (a b : Q) : Qgt_bool a b = true ↔ (b < a)%Q.
Proof.
  unfold Qgt_bool. rewrite negb_true_iff. split.
  - intros H. apply Qnot_le_lt. intros Hle. apply Qle_bool_iff in Hle. congruence.
  - intros H. destruct (Qle_bool a b) eqn:Hle; [|done].
    apply Qle_bool_iff in Hle. exfalso. exact (Qlt_not_le _ _ H Hle).
Qed.

Lemma Qgt_bool_false (a b : Q) : Qgt_bool a b = false ↔ (a <= b)%Q.
Proof.
  unfold Qgt_bool. rewrite negb_false_iff. apply Qle_bool_iff.
Qed.

Lemma merge_inv_init : merge_inv ([], ∅).
Proof. split; [intros i x | intros t i]; simpl; by rewrite ?lookup_empty. Qed.

(** What one visit does, the invariant given: it replaces, keeps, or
    appends; it never raises. *)
Lemma merge_visit_cases y st :
  merge_inv st →
  (∃ i x, st.2 !! chunk_text y = Some i ∧ st.1 !! i = Some x ∧
          chunk_text x = chunk_text y ∧
          merge_visit y st =
          Return (if Qgt_bool (similarity_score y) (similarity_score x)
                  then (<[i := y]> st.1, st.2) else st)) ∨
  (st.2 !! chunk_text y = None ∧
   merge_visit y st =
   Return (st.1 ++ [y], <[chunk_text y := length st.1]> st.2)).
Proof.
  destruct st as [final seen]. intros [Ha Hb]. simpl in *.
  destruct (seen !! chunk_text y) as [i|] eqn:Hs.
  - left. destruct (Hb _ _ Hs) as (x & Hx & Ht).
    exists i, x. repeat split; try done.
    rewrite Hx. by destruct (Qgt_bool _ _).
  - right. done.
Qed.

Lemma merge_inv_replace st i x y :
  merge_inv st → st.1 !! i = Some x → chunk_text x = chunk_text y →
  merge_inv (<[i := y]> st.1, st.2).
Proof.
  destruct st as [final seen]. intros [Ha Hb] Hx Ht. simpl in *.
  pose proof (lookup_lt_Some _ _ _ Hx) as Hlt.
  split; simpl.
  - intros j x' Hj. destruct (decide (j = i)) as [->|Hne].
    + rewrite list_lookup_insert_eq in Hj by done. injection Hj as <-.
      rewrite <- Ht. by apply Ha.
    + rewrite list_lookup_insert_ne in Hj by done. by apply Ha.
  - intros t j Hj. destruct (Hb _ _ Hj) as (x0 & Hx0 & Ht0).
    destruct (decide (j = i)) as [->|Hne].
    + exists y. rewrite list_lookup_insert_eq by done. split; [done|].
      congruence.
    + exists x0. by rewrite list_lookup_insert_ne.
Qed.

Lemma merge_inv_append st y :
  merge_inv st → st.2 !! chunk_text y = None →
  merge_inv (st.1 ++ [y], <[chunk_text y := length st.1]> st.2).
Proof.
  destruct st as [final seen]. intros [Ha Hb] Hnone. simpl in *.
  split; simpl.
  - intros j x' Hj. apply lookup_app_Some in Hj as [Hj|[Hlen Hj]].
    + rewrite lookup_insert_ne; [by apply Ha|].
      intros Heq. apply Ha in Hj. congruence.
    + apply list_lookup_singleton_Some in Hj as [Hj ->].
      rewrite lookup_insert_eq. f_equal. lia.
  - intros t j Hj. destruct (decide (t = chunk_text y)) as [->|Hne].
    + rewrite lookup_insert_eq in Hj. injection Hj as <-.
      exists y. split; [|done]. by rewrite list_lookup_middle.
    + rewrite lookup_insert_ne in Hj by done.
      destruct (Hb _ _ Hj) as (x0 & Hx0 & Ht0). exists x0. split; [|done].
      by apply lookup_app_l_Some.
Qed.

Lemma merge_inv_NoDup st : merge_inv st → NoDup (map chunk_text st.1).
Proof.
  intros [Ha _]. apply NoDup_alt. intros i j t Hi Hj.
  rewrite list_lookup_fmap in Hi, Hj.
  destruct (st.1 !! i) as [x|] eqn:Hx; [|done].
  destruct (st.1 !! j) as [x'|] eqn:Hx'; [|done].
  simpl in *. apply Ha in Hx, Hx'. congruence.
Qed.

Lemma merge_full_false top_k st :
  merge_full top_k st = false ↔ (Z.of_nat (length st.1) < top_k)%Z.
Proof. unfold merge_full. rewrite Z.leb_gt. done. Qed.

Lemma merge_full_true top_k st :
  merge_full top_k st = true ↔ (top_k <= Z.of_nat (length st.1))%Z.
Proof. unfold merge_full. rewrite Z.leb_le. done. Qed.

(** *** The two loops keep what every visit keeps *)

Section Loops.

Context (top_k : Z) (Q : list result → merge_state → Prop).

(** A visit made while the result is not full keeps [Q], the entry
    visited being added to the entries seen. *)
Hypothesis Q_visit : ∀ V st y,
  Q V st → merge_full top_k st = false →
  ∃ st', merge_visit y st = Return st' ∧ Q (V ++ [y]) st'.

(** Once the result is full, [Q] holds whatever else is counted as seen. *)
Hypothesis Q_full : ∀ V V' st,
  Q V st → merge_full top_k st = true → Q (V ++ V') st.

Lemma merge_round_keeps round_index lists : ∀ V st,
  Q V st →
  ∃ st', merge_round top_k round_index lists st = Return st' ∧
         Q (V ++ round_entries round_index lists) st'.
Proof.
  induction lists as [|l lists IH]; intros V st HQ.
  - exists st. split; [done|]. unfold round_entries. simpl. by rewrite app_nil_r.
  - cbn [merge_round]. destruct (merge_full top_k st) eqn:Hfull.
    + exists st. split; [done|]. by apply Q_full.
    + unfold round_entries. cbn [omap list_omap].
      destruct (l !! round_index) as [y|] eqn:Hy.
      * destruct (Q_visit V st y HQ Hfull) as (st1 & Hv & HQ1).
        rewrite Hv. cbn [mbind res_bind].
        destruct (IH _ _ HQ1) as (st' & Hr & HQ').
        exists st'. split; [done|].
        unfold round_entries in HQ'. by rewrite <- (assoc_L (++)) in HQ'.
      * by apply IH.
Qed.

Lemma merge_rounds_keeps rounds lists : ∀ V st,
  Q V st →
  ∃ st', merge_rounds top_k rounds lists st = Return st' ∧
         Q (V ++ rounds_entries rounds lists) st'.
Proof.
  induction rounds as [|r rounds IH]; intros V st HQ.
  - exists st. split; [done|]. unfold rounds_entries. simpl. by rewrite app_nil_r.
  - cbn [merge_rounds]. destruct (merge_full top_k st) eqn:Hfull.
    + exists st. split; [done|]. by apply Q_full.
    + destruct (merge_round_keeps r lists V st HQ) as (st1 & Hr & HQ1).
      rewrite Hr. cbn [mbind res_bind].
      destruct (IH _ _ HQ1) as (st' & Hrs & HQ').
      exists st'. split; [done|].
      unfold rounds_entries in *. cbn [map concat].
      by rewrite (assoc_L (++)).
Qed.

End Loops.

(** *** Length and uniqueness *)

Lemma merge_visit_bounded top_k y st :
  merge_inv st → merge_full top_k st = false →
  ∃ st', merge_visit y st = Return st' ∧
         merge_inv st' ∧ (Z.of_nat (length st'.1) <= top_k)%Z.
Proof.
  intros Hinv Hfull. apply merge_full_false in Hfull.
  destruct (merge_visit_cases y st Hinv)
    as [(i & x & Hs & Hx & Ht & ->) | (Hs & ->)].
  - destruct (Qgt_bool _ _).
    + eexists. split; [done|]. split; [by eapply merge_inv_replace|].
      simpl. rewrite length_insert. lia.
    + exists st. split; [done|]. split; [done | lia].
  - eexists. split; [done|]. split; [by apply merge_inv_append|].
    simpl. rewrite length_app. simpl. lia.
Qed.

Lemma merge_rounds_bounded top_k rounds lists st :
  merge_inv st → (Z.of_nat (length st.1) <= top_k)%Z →
  ∃ st', merge_rounds top_k rounds lists st = Return st' ∧
         merge_inv st' ∧ (Z.of_nat (length st'.1) <= top_k)%Z.
Proof.
  intros Hinv Hlen.
  destruct (merge_rounds_keeps top_k
              (λ _ st, merge_inv st ∧ (Z.of_nat (length st.1) <= top_k)%Z))
    with (rounds := rounds) (lists := lists) (V := @nil result) (st := st)
    as (st' & Hr & HQ); [| |done|by exists st'].
  - intros V st0 y [Hi _] Hfull. by apply merge_visit_bounded.
  - intros V V' st0 HQ _. exact HQ.
Qed.

Lemma merge_returns_bounded lists top_k :
  (0 <= top_k)%Z →
  ∃ out, _merge_search_results lists top_k = Return out ∧
         (Z.of_nat (length out) <= top_k)%Z ∧ NoDup (map chunk_text out).
Proof.
  intros Hk.
  destruct (merge_rounds_bounded top_k (range top_k) lists ([], ∅))
    as (st' & Hr & Hinv & Hlen); [apply merge_inv_init | simpl; lia |].
  exists st'.1. unfold _merge_search_results. rewrite Hr.
  split; [done|]. split; [done|]. by apply merge_inv_NoDup.
Qed.

(** *** Entries seen and scores kept *)

Lemma round_entries_elem y round_index lists :
  y ∈ round_entries round_index lists ↔
  ∃ l, l ∈ lists ∧ l !! round_index = Some y.
Proof. unfold round_entries. by rewrite list_elem_of_omap. Qed.

Lemma rounds_entries_elem y rounds lists :
  y ∈ rounds_entries rounds lists ↔
  ∃ r l, r ∈ rounds ∧ l ∈ lists ∧ l !! r = Some y.
Proof.
  unfold rounds_entries. rewrite list_elem_of_In, in_concat. split.
  - intros (es & Hes & Hy). apply in_map_iff in Hes as (r & <- & Hr).
    apply list_elem_of_In in Hr, Hy.
    apply round_entries_elem in Hy as (l & Hl & Hy). by exists r, l.
  - intros (r & l & Hr & Hl & Hy). exists (round_entries r lists). split.
    + apply in_map_iff. exists r. split; [done|]. by apply list_elem_of_In.
    + apply list_elem_of_In, round_entries_elem. by exists l.
Qed.

Lemma rounds_entries_from_lists y rounds lists :
  y ∈ rounds_entries rounds lists → y ∈ concat lists.
Proof.
  intros (r & l & _ & Hl & Hy)%rounds_entries_elem.
  apply list_elem_of_In, in_concat. exists l.
  split; apply list_elem_of_In; [done|]. by eapply list_elem_of_lookup_2.
Qed.



Lemma merge_visit_seen top_k V st y :
  merge_seen top_k V st → merge_full top_k st = false →
  ∃ st', merge_visit y st = Return st' ∧ merge_seen top_k (V ++ [y]) st'.
Proof.
  intros (Hinv & Hin & Hcov) Hfull. specialize (Hcov Hfull).
  destruct (merge_visit_cases y st Hinv)
    as [(i & x & Hs & Hx & Ht & ->) | (Hs & ->)].
  - destruct (Qgt_bool _ _) eqn:Hgt.
    + apply Qgt_bool_true in Hgt.
      pose proof (lookup_lt_Some _ _ _ Hx) as Hlt.
      eexists. split; [done|]. split; [by eapply merge_inv_replace|].
      simpl. split.
      * intros x' [j Hj]%list_elem_of_lookup_1.
        destruct (decide (j = i)) as [->|Hne].
        -- rewrite list_lookup_insert_eq in Hj by done. injection Hj as <-.
           set_solver.
        -- rewrite list_lookup_insert_ne in Hj by done.
           apply list_elem_of_lookup_2 in Hj. set_solver.
      * intros _ y0 [Hy0 | ->%list_elem_of_singleton]%elem_of_app.
        -- destruct (Hcov y0 Hy0) as (x0 & [j Hj]%list_elem_of_lookup_1 & Ht0 & Hle).
           destruct (decide (j = i)) as [->|Hne].
           ++ exists y. split; [|split].
              ** eapply list_elem_of_lookup_2.
                 by rewrite list_lookup_insert_eq.
              ** congruence.
              ** assert (x0 = x) as -> by congruence.
                 eapply Qle_trans; [exact Hle | by apply Qlt_le_weak].
           ++ exists x0. split; [|done].
              eapply list_elem_of_lookup_2.
              by rewrite list_lookup_insert_ne.
        -- exists y. split; [|split; [done | apply Qle_refl]].
           eapply list_elem_of_lookup_2. by rewrite list_lookup_insert_eq.
    + apply Qgt_bool_false in Hgt.
      exists st. split; [done|]. split; [done|]. split; [set_solver|].
      intros _ y0 [Hy0 | ->%list_elem_of_singleton]%elem_of_app.
      * by apply Hcov.
      * exists x. split; [by eapply list_elem_of_lookup_2 | done].
  - eexists. split; [done|]. split; [by apply merge_inv_append|].
    simpl. split.
    { intros x [Hx|Hx]%elem_of_app; apply elem_of_app;
        [left; by apply Hin | by right]. }
    intros _ y0 [Hy0 | ->%list_elem_of_singleton]%elem_of_app.
    + destruct (Hcov y0 Hy0) as (x0 & Hx0 & Ht0 & Hle).
      exists x0. split; [set_solver | done].
    + exists y. split; [|split; [done | apply Qle_refl]].
      apply elem_of_app. right. by apply list_elem_of_singleton.
Qed.

Lemma merge_rounds_seen top_k rounds lists :
  ∃ st', merge_rounds top_k rounds lists ([], ∅) = Return st' ∧
         merge_seen top_k (rounds_entries rounds lists) st'.
Proof.
  destruct (merge_rounds_keeps top_k (merge_seen top_k))
    with (rounds := rounds) (lists := lists) (V := @nil result)
         (st := (@nil result, ∅ : gmap string nat))
    as (st' & Hr & HQ); [| | |by exists st'].
  - intros V st y. apply merge_visit_seen.
  - intros V V' st (Hinv & Hin & _) Hfull. split; [done|]. split.
    + intros x Hx. apply elem_of_app. left. by apply Hin.
    + intros Hnot. congruence.
  - split; [apply merge_inv_init|]. split.
    + intros x Hx. simpl in Hx. by apply elem_of_nil in Hx.
    + intros _ y Hy. by apply elem_of_nil in Hy.
Qed.


(** *** The entries looked at *)










End MergeFacts.

Section MergeClaims.

Implicit Types (lists : list (list result)) (top_k : Z) (out : list result).

(** C10: for [top_k >= 0] the merge returns at most [top_k] results, no two
    with the same chunk text; the invariant behind this, [merge_inv], holds
    at the start and is kept by every visit, be it an insertion or the
    replacement of a duplicate. *)
Theorem merge_at_most_top_k_unique lists top_k :
  (0 <= top_k)%Z →
  (∃ out, _merge_search_results lists top_k = Return out ∧
          (Z.of_nat (length out) <= top_k)%Z ∧
          NoDup (map chunk_text out)) ∧
  merge_inv ([], ∅) ∧
  (∀ st y, merge_inv st →
           ∃ st', merge_visit y st = Return st' ∧ merge_inv st' ∧
                  NoDup (map chunk_text st'.1)).
Proof.
  intros Hk. split; [|split].
  - by apply merge_returns_bounded.
  - apply merge_inv_init.
  - intros st y Hinv.
    destruct (merge_visit_cases y st Hinv)
      as [(i & x & Hs & Hx & Ht & ->) | (Hs & ->)].
    + destruct (Qgt_bool _ _).
      * eexists. split; [done|].
        assert (merge_inv (<[i:=y]> st.1, st.2)) by (by eapply merge_inv_replace).
        split; [done | by apply merge_inv_NoDup].
      * exists st. split; [done|]. split; [done | by apply merge_inv_NoDup].
    + eexists. split; [done|].
      assert (merge_inv (st.1 ++ [y], <[chunk_text y:=length st.1]> st.2))
        by (by apply merge_inv_append).
      split; [done | by apply merge_inv_NoDup].
Qed.

Lemma merge_example_at_most_3 :
  ∃ out, _merge_search_results example_lists 3 = Return out ∧
         (Z.of_nat (length out) <= 3)%Z ∧ NoDup (map chunk_text out).
Proof.
  apply (merge_at_most_top_k_unique example_lists 3). lia.
Defined.




End MergeClaims.

(* ===================================================================== *)
(** ** Embedding client *)
(* ===================================================================== *)

Section EmbedFacts.

Context (E : env).

Implicit Types (w : world) (model : string) (content chunks : list string).

Lemma add_events_add w evs evs' :
  add_events (add_events w evs) evs' = add_events w (evs ++ evs').
Proof. unfold add_events. simpl. by rewrite (assoc_L (++)). Qed.

Lemma add_events_nil w : add_events w [] = w.
Proof. destruct w. unfold add_events. simpl. by rewrite app_nil_r. Qed.

Lemma bind_run {A B} (m : M A) (f : A → M B) w :
  (m ≫= f) w =
  match m w with
  | (Return a, w') => f a w'
  | (Raise e, w') => (Raise e, w')
  end.
Proof. reflexivity. Qed.

Lemma try_except_all_run {A} (m : M A) handler w :
  try_except_all m handler w =
  match m w with
  | (Raise e, w') => handler e w'
  | r => r
  end.
Proof. reflexivity. Qed.

(** One turn of the retry loop. *)
Lemma embed_attempts_cons model content max_retries attempt rest w :
  embed_attempts E model content max_retries (attempt :: rest) w =
  let w1 := add_events w [EvEmbed model content] in
  match embed_content E (trace w) model content with
  | Return r => (Return (Some r), w1)
  | Raise e =>
      if (attempt =? max_retries - 1)%nat
      then (Raise (Exn EmbeddingGenerationError
                     ("Failed after " +:+ pretty max_retries
                      +:+ " attempts: " +:+ exn_str e)), w1)
      else embed_attempts E model content max_retries rest
             (add_events w1 [EvSleep (inject_Z (2 ^ Z.of_nat attempt))])
  end.
Proof.
  cbn [embed_attempts]. unfold try_except_all. rewrite bind_run.
  unfold genai_embed_content.
  destruct (embed_content E (trace w) model content) as [r|e]; [done|].
  cbv zeta. destruct (attempt =? max_retries - 1)%nat; done.
Qed.

(** C6: [_embed_with_retry] with its [max_retries = 3].  The call is made
    once, twice or three times; [time.sleep(1)] stands between the first
    and the second call, [time.sleep(2)] between the second and the third,
    and nothing else happens.  The first call that returns ends the loop
    with its result.  [EmbeddingGenerationError] is raised exactly when all
    three calls raise, and its message ends with [str(e)] of the third. *)
Theorem embed_with_retry_three_attempts model content w :
  let call := EvEmbed model content in
  let first := embed_content E (trace w) model content in
  let second := embed_content E (trace w ++ [call; EvSleep 1]) model content in
  let third :=
    embed_content E (trace w ++ [call; EvSleep 1; call; EvSleep 2])
      model content in
  _embed_with_retry E model content 3 w =
  match first with
  | Return r => (Return (Some r), add_events w [call])
  | Raise _ =>
      match second with
      | Return r => (Return (Some r), add_events w [call; EvSleep 1; call])
      | Raise _ =>
          let w' := add_events w [call; EvSleep 1; call; EvSleep 2; call] in
          match third with
          | Return r => (Return (Some r), w')
          | Raise e =>
              (Raise (Exn EmbeddingGenerationError
                        ("Failed after 3 attempts: " +:+ exn_str e)), w')
          end
      end
  end.
Proof.
  cbv zeta. unfold _embed_with_retry. cbn [seq].
  rewrite embed_attempts_cons. cbv zeta.
  destruct (embed_content E (trace w) model content) as [r1|e1]; [done|].
  cbn [Nat.eqb Nat.sub]. rewrite embed_attempts_cons. cbv zeta.
  rewrite !add_events_add. cbn [trace add_events app].
  change (inject_Z (2 ^ Z.of_nat 0)) with 1%Q.
  destruct (embed_content E (trace w ++ [EvEmbed model content; EvSleep 1])
              model content) as [r2|e2]; [done|].
  cbn [Nat.eqb Nat.sub]. rewrite embed_attempts_cons. cbv zeta.
  rewrite !add_events_add. cbn [trace add_events app].
  change (inject_Z (2 ^ Z.of_nat 1)) with 2%Q.
  destruct (embed_content E _ model content) as [r3|e3]; reflexivity.
Qed.

(** *** generate_embeddings *)

Lemma load_configuration_trace w c w' :
  load_configuration E w = (Return c, w') →
  trace w' = trace w ∧ documents w' = documents w.
Proof.
  unfold load_configuration. destruct (_config w).
  - by intros [= _ <-].
  - destruct (getenv_truthy E "GEMINI_API_KEY"); [|done].
    destruct (getenv_truthy E "EMBEDDING_MODEL"); [|done].
    destruct (getenv_truthy E "POSTGRES_URL"); [|done].
    by intros [= _ <-].
Qed.

Section Order.

(** [R s v]: the vector [v] is an embedding of the string [s]. *)
Context (R : string → vector → Prop).

(** Each call of the remote service returns one vector for each string,
    in the order of the strings. *)
Hypothesis service_ok : ∀ h model content,
  ∃ vs, embed_content E h model content = Return vs ∧ Forall2 R content vs.

Lemma embed_with_retry_ok model content w :
  ∃ vs, _embed_with_retry E model content 3 w
        = (Return (Some vs), add_events w [EvEmbed model content]) ∧
        Forall2 R content vs.
Proof.
  destruct (service_ok (trace w) model content) as (vs & Hvs & HR).
  exists vs. split; [|done].
  unfold _embed_with_retry. cbn [seq].
  rewrite embed_attempts_cons. cbv zeta. by rewrite Hvs.
Qed.

Lemma take_next_batch {A} (l : list A) (s : nat) :
  take s l ++ slice l s ((s + BATCH_SIZE) `min` length l)
  = take (s + BATCH_SIZE) l.
Proof.
  unfold slice. rewrite <- take_take_drop. f_equal.
  destruct (decide (s + BATCH_SIZE ≤ length l)) as [Hle|Hgt].
  - f_equal. lia.
  - rewrite !take_ge; [done | rewrite length_drop; lia..].
Qed.

Lemma embed_batches_ok model chunks n : ∀ i acc w,
  Forall2 R (take (i * BATCH_SIZE) chunks) acc →
  ∃ vs w',
    embed_batches E model chunks
      (map (λ j, j * BATCH_SIZE) (seq i n)) acc w = (Return vs, w') ∧
    Forall2 R (take ((i + n) * BATCH_SIZE) chunks) vs.
Proof.
  induction n as [|n IH]; intros i acc w Hacc.
  - exists acc, w. split; [done|]. by rewrite Nat.add_0_r.
  - cbn [seq map embed_batches]. rewrite bind_run.
    destruct (embed_with_retry_ok model
                (slice chunks (i * BATCH_SIZE)
                   ((i * BATCH_SIZE + BATCH_SIZE) `min` length chunks)) w)
      as (r & -> & Hr).
    rewrite bind_run.
    assert (Hnext : Forall2 R (take (S i * BATCH_SIZE) chunks) (acc ++ r)).
    { replace (S i * BATCH_SIZE) with (i * BATCH_SIZE + BATCH_SIZE) by lia.
      rewrite <- take_next_batch. by apply Forall2_app. }
    replace ((i + S n) * BATCH_SIZE) with ((S i + n) * BATCH_SIZE) by lia.
    destruct (_ <? _)%nat; simpl; by apply IH.
Qed.

Lemma range_step_batches len :
  range_step len BATCH_SIZE
  = map (λ j, j * BATCH_SIZE) (seq 0 ((len + BATCH_SIZE - 1) / BATCH_SIZE)).
Proof. reflexivity. Qed.

Lemma load_configuration_raises w e w' :
  load_configuration E w = (Raise e, w') →
  w' = w ∧ exn_cls e = ConfigurationError ∧ ¬ configured E w.
Proof.
  intros H. assert (w' = w ∧ exn_cls e = ConfigurationError) as [-> Hcls].
  { revert H. unfold load_configuration. destruct (_config w); [done|].
    destruct (getenv_truthy E "GEMINI_API_KEY"); [|by intros [= <- <-]].
    destruct (getenv_truthy E "EMBEDDING_MODEL"); [|by intros [= <- <-]].
    destruct (getenv_truthy E "POSTGRES_URL"); [done|by intros [= <- <-]]. }
  split; [done|]. split; [done|]. intros (c & w0 & Hc). congruence.
Qed.

(** C5 (amended): each call of the remote service returning one vector for
    each string in order, [generate_embeddings] does as follows.  For the
    empty list it raises [ValueError], before it looks at the settings.
    For a list of chunks that is not empty, when the settings can be had,
    it returns as many vectors as there are chunks, the i-th an embedding
    of the i-th chunk, however many batches of 10 the chunks make; when
    the settings cannot be had it raises [EmbeddingGenerationError] and
    the service is not called. *)
Theorem generate_embeddings_same_length_and_order chunks w :
  match chunks with
  | [] =>
      generate_embeddings E chunks w
      = (Raise (Exn ValueError
                  "Cannot generate embeddings for empty chunks list"), w)
  | _ :: _ =>
      (configured E w →
       ∃ vs w', generate_embeddings E chunks w = (Return vs, w') ∧
                length vs = length chunks ∧ Forall2 R chunks vs) ∧
      (¬ configured E w →
       ∃ e, generate_embeddings E chunks w = (Raise e, w) ∧
            exn_cls e = EmbeddingGenerationError)
  end.
Proof.
  destruct chunks as [|chunk chunks]; [done|]. split.
  2:{ intros Hnot. unfold generate_embeddings.
      rewrite bind_run, try_except_all_run.
      destruct (load_configuration E w) as [[c|e] w0] eqn:Hc.
      - exfalso. apply Hnot. by exists c, w0.
      - apply load_configuration_raises in Hc as (-> & _ & _).
        by eexists. }
  intros (c & w0 & Hc).
  unfold generate_embeddings. rewrite bind_run.
  unfold try_except_all. rewrite Hc, range_step_batches.
  generalize (chunk :: chunks). clear chunk chunks. intros chunks.
  destruct (embed_batches_ok (embedding_model c) chunks
              ((length chunks + BATCH_SIZE - 1) / BATCH_SIZE) 0 [] w0)
    as (vs & w' & -> & HR); [by rewrite take_0|].
  exists vs, w'. split; [done|].
  rewrite take_ge in HR.
  - split; [|done]. symmetry. by eapply Forall2_length.
  - unfold BATCH_SIZE.
    pose proof (Nat.div_mod_eq (length chunks + 10 - 1) 10) as Hd.
    pose proof (Nat.mod_upper_bound (length chunks + 10 - 1) 10) as Hm.
    lia.
Qed.

End Order.

End EmbedFacts.

Lemma length_vector_service h model content :
  ∃ vs, embed_content example_env h model content = Return vs ∧
        Forall2 length_vector content vs.
Proof.
  eexists. split; [reflexivity|].
  induction content as [|s content IH]; constructor; done.
Qed.

Lemma example_configured w : configured example_env w.
Proof.
  unfold configured, load_configuration.
  destruct (_config w) as [c|]; [by exists c, w|].
  by eexists _, _.
Qed.

Lemma generate_embeddings_eleven_chunks :
  ∃ vs w', generate_embeddings example_env eleven_chunks empty_world
           = (Return vs, w') ∧
           length vs = length eleven_chunks ∧
           Forall2 length_vector eleven_chunks vs.
Proof.
  exact (proj1 (generate_embeddings_same_length_and_order example_env
                  length_vector length_vector_service eleven_chunks
                  empty_world)
           (example_configured empty_world)).
Defined.

(** C5, as stated, fails: with a service that answers every call as the
    claim assumes, but POSTGRES_URL not set, [generate_embeddings] raises
    [EmbeddingGenerationError] for a list of one chunk. *)
Lemma generate_embeddings_unconfigured :
  (∀ h model content,
     ∃ vs, embed_content no_url_env h model content = Return vs ∧
           Forall2 length_vector content vs) ∧
  generate_embeddings no_url_env ["a"] empty_world
  = (Raise (Exn EmbeddingGenerationError
              "Configuration error: POSTGRES_URL not found in environment"),
     empty_world).
Proof. split; [apply length_vector_service | reflexivity]. Qed.

(* ===================================================================== *)
(** ** What a computation adds to the trace *)
(* ===================================================================== *)

Section Emits.

Context (E : env) (P : event → Prop).

Lemma emits_silent {A} (m : M A) :
  (∀ w, trace (m w).2 = trace w) → emits P m.
Proof. intros H w. exists []. by rewrite H, app_nil_r. Qed.

Lemma emits_ret {A} (a : A) : emits P (mret a).
Proof. by apply emits_silent. Qed.

Lemma emits_raise {A} (e : exn) : emits P (raise e : M A).
Proof. by apply emits_silent. Qed.

Lemma emits_lift {A} (r : res A) : emits P (lift r).
Proof. by apply emits_silent. Qed.

Lemma emits_one {A} (m : M A) ev :
  P ev → (∀ w, trace (m w).2 = trace w ++ [ev]) → emits P m.
Proof. intros HP H w. exists [ev]. split; [done | by constructor]. Qed.

Lemma emits_bind {A B} (m : M A) (f : A → M B) :
  emits P m → (∀ a, emits P (f a)) → emits P (m ≫= f).
Proof.
  intros Hm Hf w. rewrite bind_run. destruct (Hm w) as (evs & Ht & Hevs).
  destruct (m w) as [[a|e] w1]; simpl in Ht.
  - destruct (Hf a w1) as (evs' & Ht' & Hevs'). exists (evs ++ evs').
    rewrite Ht', Ht, (assoc_L (++)). split; [done | by apply Forall_app].
  - by exists evs.
Qed.

Lemma emits_try_except {A} (m : M A) classes handler :
  emits P m → (∀ e, emits P (handler e)) →
  emits P (try_except m classes handler).
Proof.
  intros Hm Hh w. unfold try_except. destruct (Hm w) as (evs & Ht & Hevs).
  destruct (m w) as [[a|e] w1]; simpl in Ht; [by exists evs|].
  destruct (caught_by classes e); [|by exists evs].
  destruct (Hh e w1) as (evs' & Ht' & Hevs'). exists (evs ++ evs').
  rewrite Ht', Ht, (assoc_L (++)). split; [done | by apply Forall_app].
Qed.

Lemma emits_try_except_all {A} (m : M A) handler :
  emits P m → (∀ e, emits P (handler e)) → emits P (try_except_all m handler).
Proof.
  intros Hm Hh w. unfold try_except_all. destruct (Hm w) as (evs & Ht & Hevs).
  destruct (m w) as [[a|e] w1]; simpl in Ht; [by exists evs|].
  destruct (Hh e w1) as (evs' & Ht' & Hevs'). exists (evs ++ evs').
  rewrite Ht', Ht, (assoc_L (++)). split; [done | by apply Forall_app].
Qed.

Lemma emits_db_action ev : P ev → emits P (db_action E ev).
Proof.
  intros HP. apply (emits_one _ ev HP). intros w. unfold db_action.
  by destruct (db_fault E (trace w) ev).
Qed.

Lemma emits_commit c : P EvCommit → emits P (commit E c).
Proof.
  intros HP. apply emits_bind; [by apply emits_db_action|].
  intros _. by apply emits_silent.
Qed.

Lemma emits_load_configuration : emits P (load_configuration E).
Proof.
  apply emits_silent. intros w. unfold load_configuration.
  destruct (_config w); [done|].
  destruct (getenv_truthy E "GEMINI_API_KEY"); [|done].
  destruct (getenv_truthy E "EMBEDDING_MODEL"); [|done].
  by destruct (getenv_truthy E "POSTGRES_URL").
Qed.

Lemma emits_get_db_connection :
  (∀ dsn, P (EvConnect dsn)) → emits P (get_db_connection E).
Proof.
  intros HP. apply emits_try_except; [|intros e; apply emits_raise].
  apply emits_bind; [apply emits_load_configuration|]. intros cfg.
  apply emits_bind; [by apply emits_db_action|]. intros _.
  by apply emits_silent.
Qed.

Lemma emits_rollback : emits P (rollback E).
Proof.
  apply emits_silent. intros w. unfold rollback.
  by destruct (rollback_fault E (trace w)).
Qed.

Lemma emits_try_with_connection body classes :
  (∀ dsn, P (EvConnect dsn)) → (∀ c, emits P (body c)) →
  emits P (try_with_connection E body classes).
Proof.
  intros HP Hbody w. unfold try_with_connection.
  destruct (emits_get_db_connection HP w) as (evs & Ht & Hevs).
  destruct (get_db_connection E w) as [[c|e] w1]; simpl in Ht.
  - destruct (emits_try_except (body c) classes
                (λ _, rollback E;; mret false) (Hbody c)
                (λ _, emits_bind _ _ emits_rollback (λ _, emits_ret false)) w1)
      as (evs' & Ht' & Hevs').
    exists (evs ++ evs'). rewrite Ht', Ht, (assoc_L (++)).
    split; [done | by apply Forall_app].
  - exists evs. by destruct (caught_by classes e).
Qed.

Lemma emits_ensure_database_schema c :
  P (EvExecute CreateTable) → P (EvExecute CreateDotProduct) →
  P (EvExecute CreateVectorNorm) → P EvCommit →
  emits P (ensure_database_schema E c).
Proof.
  intros H1 H2 H3 H4.
  apply emits_try_except_all;
    [|intros e; apply emits_bind; [apply emits_rollback|];
      intros _; apply emits_raise].
  do 3 (apply emits_bind; [by apply emits_db_action | intros _]).
  by apply emits_commit.
Qed.

End Emits.

Section StepEvents.

Context (E : env).

Lemma emits_delete_document_data filename :
  emits delete_event (delete_document_data E filename).
Proof.
  apply emits_try_with_connection; [done|]. intros c.
  apply emits_bind.
  - destruct filename as [[|ch f]|];
      (apply emits_bind; [by apply emits_db_action | intros _; apply emits_ret]).
  - intros c'. apply emits_bind; [by apply emits_commit|].
    intros _. apply emits_ret.
Qed.

Lemma emits_load_document file_path :
  emits load_event (load_document E file_path).
Proof.
  unfold load_document. destruct (negb _); [apply emits_raise|].
  apply emits_bind.
  { by apply (emits_one _ _ (EvExists file_path)). }
  intros [|]; [|apply emits_raise]. cbn [negb].
  apply emits_bind.
  - apply emits_try_except_all; [|intros e; apply emits_raise].
    by apply (emits_one _ _ (EvExtract file_path)).
  - intros text. destruct (_ || _); [apply emits_raise | apply emits_ret].
Qed.

Lemma emits_embed_attempts model content max_retries attempts :
  emits embed_event (embed_attempts E model content max_retries attempts).
Proof.
  induction attempts as [|attempt rest IH]; [apply emits_ret|].
  cbn [embed_attempts]. apply emits_try_except_all.
  - apply emits_bind; [|intros r; apply emits_ret].
    by apply (emits_one _ _ (EvEmbed model content)).
  - intros e. destruct (_ =? _)%nat; [apply emits_raise|].
    apply emits_bind; [|by intros _].
    by apply (emits_one _ _ (EvSleep (inject_Z (2 ^ Z.of_nat attempt)))).
Qed.

Lemma emits_embed_batches model chunks batch_starts : ∀ embeddings,
  emits embed_event (embed_batches E model chunks batch_starts embeddings).
Proof.
  induction batch_starts as [|batch_start rest IH]; intros embeddings;
    [apply emits_ret|].
  cbn [embed_batches]. apply emits_bind; [apply emits_embed_attempts|].
  intros [embedding|]; [|apply emits_raise].
  apply emits_bind; [|intros _; apply IH].
  destruct (_ <? _)%nat; [|apply emits_ret].
  by apply (emits_one _ _ (EvSleep 0.1)).
Qed.

Lemma emits_generate_embeddings chunks :
  emits embed_event (generate_embeddings E chunks).
Proof.
  destruct chunks as [|chunk chunks]; [apply emits_raise|].
  apply emits_bind.
  - apply emits_try_except_all; [apply emits_load_configuration|].
    intros e. apply emits_raise.
  - intros cfg. apply emits_try_except_all; [apply emits_embed_batches|].
    intros e. apply emits_raise.
Qed.

Lemma emits_store_chunks_to_db chunks embeddings filename split_strategy :
  emits store_event
    (store_chunks_to_db E chunks embeddings filename split_strategy).
Proof.
  apply emits_bind.
  - apply emits_try_except; [|intros e; apply emits_ret].
    apply emits_bind; [apply emits_lift | intros _; apply emits_ret].
  - intros [|]; [|apply emits_ret]. cbn [negb].
    apply emits_try_with_connection; [done|]. intros c.
    apply emits_bind; [by apply emits_ensure_database_schema|]. intros _.
    apply emits_bind; [by apply emits_db_action|]. intros _.
    apply emits_bind; [by apply emits_commit|]. intros _. apply emits_ret.
Qed.

End StepEvents.

(* ===================================================================== *)
(** ** Vector store and indexing orchestrator *)
(* ===================================================================== *)

Section IndexFacts.

Context (E : env).

Implicit Types (w : world) (chunks : list string) (embeddings : list vector)
  (filename file_path split_strategy : string).

Lemma validate_invalid chunks embeddings filename :
  chunks = [] ∨ embeddings = [] ∨ length chunks ≠ length embeddings
  ∨ blank filename = true →
  ∃ msg, _validate_data_for_indexing chunks embeddings filename
         = Raise (Exn ValueError msg).
Proof.
  intros H. unfold _validate_data_for_indexing.
  destruct chunks as [|chunk chunks]; [by eexists|].
  destruct embeddings as [|embedding embeddings]; [by eexists|].
  destruct (length (chunk :: chunks) =? length (embedding :: embeddings))%nat
    eqn:Hlen; [|by eexists].
  rewrite chunk_guard. cbn [negb].
  destruct (blank filename) eqn:Hb; [by eexists|].
  apply Nat.eqb_eq in Hlen. by destruct H as [?|[?|[?|?]]].
Qed.

Lemma validate_valid chunks embeddings filename :
  chunks ≠ [] → length chunks = length embeddings → blank filename = false →
  _validate_data_for_indexing chunks embeddings filename = Return tt.
Proof.
  intros Hne Hlen Hb. unfold _validate_data_for_indexing.
  destruct chunks as [|chunk chunks]; [done|].
  destruct embeddings as [|embedding embeddings]; [done|].
  rewrite chunk_guard, Hb. apply Nat.eqb_eq in Hlen. by rewrite Hlen.
Qed.

(** C2, as stated, fails: on a chunk list and an embedding list of
    different lengths [store_chunks_to_db] raises nothing; it returns
    [False]. *)
Lemma store_chunks_to_db_mismatch_returns_false :
  store_chunks_to_db example_env ["a"] [] "doc.pdf" "paragraph" empty_world
  = (Return false, empty_world) ∧
  ∀ e w', store_chunks_to_db example_env ["a"] [] "doc.pdf" "paragraph"
            empty_world ≠ (Raise e, w').
Proof. split; [reflexivity | discriminate]. Qed.

(** C2 (amended): when the chunk count differs from the vector count, or
    either list is empty, or the source identifier is empty or whitespace,
    [_validate_data_for_indexing] raises [ValueError];
    [store_chunks_to_db] catches it and returns [False] to its caller, and
    the world is as before: no record is written and the database is not
    even called. *)
Theorem store_chunks_to_db_invalid chunks embeddings filename split_strategy w :
  chunks = [] ∨ embeddings = [] ∨ length chunks ≠ length embeddings
  ∨ blank filename = true →
  (∃ msg, _validate_data_for_indexing chunks embeddings filename
          = Raise (Exn ValueError msg)) ∧
  store_chunks_to_db E chunks embeddings filename split_strategy w
  = (Return false, w).
Proof.
  intros H. destruct (validate_invalid _ _ _ H) as [msg Hmsg].
  split; [by exists msg|].
  unfold store_chunks_to_db. rewrite bind_run.
  unfold try_except at 1. rewrite bind_run. unfold lift. rewrite Hmsg.
  reflexivity.
Qed.

(** The outcome and the world of [process_document], step by step. *)
Lemma process_document_run file_path w :
  match delete_document_data E (Some file_path) w with
  | (Return true, w1) =>
      match load_document E file_path w1 with
      | (Return text, w2) =>
          match chunk_by_paragraphs text with
          | Return chunks =>
              match generate_embeddings E chunks w2 with
              | (Return embeddings, w3) =>
                  match store_chunks_to_db E chunks embeddings file_path
                          "paragraph" w3 with
                  | (Return stored, w4) =>
                      process_document E file_path w = (Return stored, w4)
                  | (Raise _, w4) =>
                      process_document E file_path w = (Return false, w4)
                  end
              | (Raise _, w3) =>
                  process_document E file_path w = (Return false, w3)
              end
          | Raise _ => process_document E file_path w = (Return false, w2)
          end
      | (Raise _, w2) => process_document E file_path w = (Return false, w2)
      end
  | (_, w1) => process_document E file_path w = (Return false, w1)
  end.
Proof.
  unfold process_document, try_except_all, try_except.
  destruct (delete_document_data E (Some file_path) w) as [[[|]|e] w1] eqn:Hd;
    [| by rewrite bind_run, Hd
     | rewrite bind_run, Hd; by destruct (caught_by _ e)].
  destruct (load_document E file_path w1) as [[text|e] w2] eqn:Hl;
    [| rewrite bind_run, Hd; cbn [negb]; rewrite bind_run, Hl;
       by destruct (caught_by _ e)].
  destruct (chunk_by_paragraphs text) as [chunks|e] eqn:Hc;
    [| rewrite bind_run, Hd; cbn [negb]; rewrite bind_run, Hl, bind_run;
       unfold lift; rewrite Hc; by destruct (caught_by _ e)].
  destruct (generate_embeddings E chunks w2) as [[embeddings|e] w3] eqn:Hg;
    [| rewrite bind_run, Hd; cbn [negb]; rewrite bind_run, Hl, bind_run;
       unfold lift; rewrite Hc, bind_run, Hg; by destruct (caught_by _ e)].
  destruct (store_chunks_to_db E chunks embeddings file_path "paragraph" w3)
    as [[stored|e] w4] eqn:Hs;
    rewrite bind_run, Hd; cbn [negb]; rewrite bind_run, Hl, bind_run;
    unfold lift; rewrite Hc, bind_run, Hg, bind_run, Hs.
  - by destruct stored.
  - by destruct (caught_by _ e).
Qed.

(** C9: [process_document] runs delete, load, chunk, embed, store in this
    order, each in the world the one before left.  When the delete step
    does not report success, or a later step raises, the outcome is
    [False] and the world is the one that step left: no later step has
    run, the store step least of all.  When all five run, the outcome is
    what the store step reports.  Accordingly the events it adds to the
    trace are events of the delete step, then of the load step, then of
    the embed step, then of the store step. *)
Theorem process_document_steps file_path w :
  match delete_document_data E (Some file_path) w with
  | (Return true, w1) =>
      match load_document E file_path w1 with
      | (Return text, w2) =>
          match chunk_by_paragraphs text with
          | Return chunks =>
              match generate_embeddings E chunks w2 with
              | (Return embeddings, w3) =>
                  match store_chunks_to_db E chunks embeddings file_path
                          "paragraph" w3 with
                  | (Return stored, w4) =>
                      process_document E file_path w = (Return stored, w4)
                  | (Raise _, w4) =>
                      process_document E file_path w = (Return false, w4)
                  end
              | (Raise _, w3) =>
                  process_document E file_path w = (Return false, w3)
              end
          | Raise _ => process_document E file_path w = (Return false, w2)
          end
      | (Raise _, w2) => process_document E file_path w = (Return false, w2)
      end
  | (_, w1) => process_document E file_path w = (Return false, w1)
  end ∧
  ∃ d l g s,
    trace (process_document E file_path w).2 = trace w ++ d ++ l ++ g ++ s ∧
    Forall delete_event d ∧ Forall load_event l ∧
    Forall embed_event g ∧ Forall store_event s.
Proof.
  pose proof (process_document_run file_path w) as Hrun.
  split; [exact Hrun|].
  destruct (emits_delete_document_data E (Some file_path) w) as (d & Hd & HPd).
  destruct (delete_document_data E (Some file_path) w) as [[[|]|e] w1];
    simpl in Hd;
    [| rewrite Hrun; exists d, [], [], []; by rewrite !app_nil_r
     | rewrite Hrun; exists d, [], [], []; by rewrite !app_nil_r].
  destruct (emits_load_document E file_path w1) as (l & Hl & HPl).
  destruct (load_document E file_path w1) as [[text|e] w2]; simpl in Hl;
    [| rewrite Hrun; exists d, l, [], []; cbn [snd];
       by rewrite Hl, Hd, !app_nil_r, <- (assoc_L (++))].
  destruct (chunk_by_paragraphs text) as [chunks|e];
    [| rewrite Hrun; exists d, l, [], []; cbn [snd];
       by rewrite Hl, Hd, !app_nil_r, <- (assoc_L (++))].
  destruct (emits_generate_embeddings E chunks w2) as (g & Hg & HPg).
  destruct (generate_embeddings E chunks w2) as [[embeddings|e] w3];
    simpl in Hg;
    [| rewrite Hrun; exists d, l, g, []; cbn [snd];
       by rewrite Hg, Hl, Hd, !app_nil_r, <- !(assoc_L (++))].
  destruct (emits_store_chunks_to_db E chunks embeddings file_path "paragraph"
              w3) as (st & Hst & HPst).
  destruct (store_chunks_to_db E chunks embeddings file_path "paragraph" w3)
    as [[stored|e] w4]; simpl in Hst; rewrite Hrun; exists d, l, g, st;
    cbn [snd]; by rewrite Hst, Hg, Hl, Hd, <- !(assoc_L (++)).
Qed.

End IndexFacts.

(* ===================================================================== *)
(** ** Similarity search *)
(* ===================================================================== *)

Section SearchFacts.

Implicit Types (rows : list row) (query embedding : vector) (query_norm : Q)
  (top_k limit : Z) (w : world) (c : connection).

Lemma score_ge_trans : Transitive score_ge.
Proof. intros x y z Hxy Hyz. unfold score_ge in *. by eapply Qle_trans. Qed.

Lemma score_ge_total : Total score_ge.
Proof.
  intros x y. unfold score_ge.
  destruct (Qlt_le_dec (similarity_score x) (similarity_score y)) as [H|H].
  - right. by apply Qlt_le_weak.
  - by left.
Qed.

Lemma StronglySorted_take {A} (R : relation A) (l : list A) n :
  StronglySorted R l → StronglySorted R (take n l).
Proof.
  intros H. revert n. induction H as [|x l Hl IH Hx]; intros [|n]; simpl;
    try constructor; [apply IH | by apply Forall_take].
Qed.

Lemma StronglySorted_lookup_lt {A} (R : relation A) (l : list A) i j a b :
  StronglySorted R l → i < j → l !! i = Some a → l !! j = Some b → R a b.
Proof.
  intros H. revert i j. induction H as [|x l Hl IH Hx]; intros i j Hij Hi Hj.
  - done.
  - destruct j as [|j]; [lia|]. destruct i as [|i]; simpl in *.
    + injection Hi as <-. rewrite Forall_forall in Hx. apply Hx.
      by eapply list_elem_of_lookup_2.
    + eapply IH; [|done..]. lia.
Qed.

(** *** The query *)

Lemma norm_positive_spec (r : row) :
  norm_positive r = true ↔ (0 < row_embedding_norm r)%Q.
Proof. apply Qgt_bool_true. Qed.

(** A positive stored norm times a query norm that is not zero is not
    zero. *)
Lemma divisor_not_zero (r : row) query_norm :
  norm_positive r = true → ¬ (query_norm == 0)%Q →
  ¬ (row_embedding_norm r * query_norm == 0)%Q.
Proof.
  intros Hr Hq Hz. apply norm_positive_spec in Hr.
  apply Qmult_integral in Hz as [Hz|Hz]; [|done].
  rewrite Hz in Hr. by apply Qlt_irrefl in Hr.
Qed.

Lemma score_row_ok query query_norm (r : row) :
  ¬ (row_embedding_norm r * query_norm == 0)%Q →
  score_row query query_norm r = Return (scored_result query query_norm r).
Proof.
  intros Hz. unfold score_row, sql_div.
  destruct (Qeq_bool _ 0) eqn:Heq; [|done].
  by apply Qeq_bool_iff in Heq.
Qed.

Lemma traverse_score_rows query query_norm rows :
  Forall (λ r, ¬ (row_embedding_norm r * query_norm == 0)%Q) rows →
  traverse (score_row query query_norm) rows
  = Return (map (scored_result query query_norm) rows).
Proof.
  induction 1 as [|r rows Hr Hrows IH]; [done|].
  cbn [traverse map]. rewrite score_row_ok by done.
  cbn [mbind res_bind]. by rewrite IH.
Qed.

Lemma scoring_divisors rows query_norm :
  ¬ (query_norm == 0)%Q →
  Forall (λ r, ¬ (row_embedding_norm r * query_norm == 0)%Q)
         (List.filter norm_positive rows).
Proof.
  intros Hq. apply Forall_forall. intros r Hr.
  apply list_elem_of_In, filter_In in Hr as [_ Hr].
  by apply divisor_not_zero.
Qed.

(** The query returns for a query norm that is not zero and a limit that
    is not negative: a descending list, of at most [limit] results, made
    of rows with a positive norm. *)
Lemma select_similar_ok rows query query_norm limit :
  ¬ (query_norm == 0)%Q → (0 <= limit)%Z →
  ∃ out, select_similar rows query query_norm limit = Return out ∧
         sorted_desc out ∧ (Z.of_nat (length out) <= limit)%Z ∧
         ∀ x, x ∈ out →
              ∃ r, r ∈ rows ∧ (0 < row_embedding_norm r)%Q ∧
                   x = scored_result query query_norm r.
Proof.
  intros Hq Hl. unfold select_similar.
  rewrite traverse_score_rows by (by apply scoring_divisors).
  cbn [mbind res_bind]. destruct (limit <? 0)%Z eqn:Hneg; [lia|].
  eexists. split; [done|]. split; [|split].
  - apply StronglySorted_take, StronglySorted_merge_sort.
    + apply score_ge_trans.
    + apply score_ge_total.
  - rewrite length_take. lia.
  - intros x Hx. apply subseteq_take in Hx.
    rewrite merge_sort_Permutation in Hx.
    apply list_elem_of_fmap in Hx as (r & -> & Hr).
    apply list_elem_of_In, filter_In in Hr as [Hr Hpos].
    exists r. split; [by apply list_elem_of_In|].
    split; [by apply norm_positive_spec | done].
Qed.

End SearchFacts.

Section SearchRun.

Context (E : env).

Implicit Types (rows : list row) (query embedding : vector) (query_norm : Q)
  (top_k limit : Z) (w : world) (c : connection).

Lemma try_except_run {A} (m : M A) classes handler w :
  try_except m classes handler w =
  match m w with
  | (Raise e, w') => if caught_by classes e then handler e w' else (Raise e, w')
  | r => r
  end.
Proof. reflexivity. Qed.

Lemma db_action_ok ev w :
  db_fault E (trace w) ev = None →
  db_action E ev w = (Return tt, add_events w [ev]).
Proof. intros H. unfold db_action. by rewrite H. Qed.

(** A query vector of norm zero: no result, no statement, no error. *)
Lemma search_single_zero embedding c top_k w :
  (np_norm E embedding == 0)%Q →
  _search_single_embedding E embedding c top_k w = (Return [], w).
Proof.
  intros H. apply Qeq_bool_iff in H.
  unfold _search_single_embedding. rewrite try_except_run.
  cbv zeta. by rewrite H.
Qed.

Lemma search_single_nonzero embedding c top_k w :
  ¬ (np_norm E embedding == 0)%Q → (0 <= top_k)%Z →
  db_fault E (trace w)
    (EvExecute (SelectSimilar embedding (np_norm E embedding) top_k)) = None →
  ∃ out,
    _search_single_embedding E embedding c top_k w
    = (Return out,
       add_events w
         [EvExecute (SelectSimilar embedding (np_norm E embedding) top_k)]) ∧
    sorted_desc out ∧ (Z.of_nat (length out) <= top_k)%Z ∧
    ∀ x, x ∈ out →
         ∃ r, r ∈ pending c ∧ (0 < row_embedding_norm r)%Q ∧
              x = scored_result embedding (np_norm E embedding) r.
Proof.
  intros Hq Hk Hdb.
  destruct (select_similar_ok (pending c) embedding (np_norm E embedding)
              top_k Hq Hk) as (out & Hout & Hprops).
  exists out. split; [|done].
  unfold _search_single_embedding. rewrite try_except_run. cbv zeta.
  destruct (Qeq_bool (np_norm E embedding) 0) eqn:Heq.
  { by apply Qeq_bool_iff in Heq. }
  rewrite bind_run, db_action_ok by done. unfold lift. by rewrite Hout.
Qed.



Lemma get_db_connection_ok w cfg w0 :
  db_reliable E → load_configuration E w = (Return cfg, w0) →
  ∃ w', get_db_connection E w = (Return (Connection (documents w0)), w').
Proof.
  intros Hdb Hc. unfold get_db_connection. rewrite try_except_run, bind_run, Hc.
  rewrite bind_run, db_action_ok by apply Hdb. by eexists.
Qed.

Lemma ensure_database_schema_ok c w :
  db_reliable E → ∃ w', ensure_database_schema E c w = (Return tt, w').
Proof.
  intros Hdb. unfold ensure_database_schema, try_except_all, commit.
  rewrite bind_run, db_action_ok by apply Hdb.
  rewrite bind_run, db_action_ok by apply Hdb.
  rewrite bind_run, db_action_ok by apply Hdb.
  rewrite bind_run, db_action_ok by apply Hdb.
  by eexists.
Qed.

End SearchRun.

Section MergeSingle.

Implicit Types (st : merge_state) (l : list result) (top_k : Z).






End MergeSingle.

Section SearchClaims.

Context (E : env).

Implicit Types (embedding : vector) (top_k : Z) (w : world) (c : connection).

(** C7: a query vector of norm zero gives the empty list, raises nothing
    and sends no statement.  For any other query vector, a row whose
    stored norm is not greater than 0 is not among the rows that are
    scored; the divisor stored_norm * query_norm of every row that is
    scored is not zero, so that no division fails; and when the server
    answers the statement the search returns, each of its results being
    the score of a row with a positive norm. *)
Theorem search_zero_norm_and_divisor embedding c top_k w :
  let query_norm := np_norm E embedding in
  let scoring := List.filter norm_positive (pending c) in
  ((query_norm == 0)%Q →
   _search_single_embedding E embedding c top_k w = (Return [], w)) ∧
  (¬ (query_norm == 0)%Q →
   (∀ r, r ∈ pending c → ¬ (0 < row_embedding_norm r)%Q → r ∉ scoring) ∧
   Forall (λ r, (0 < row_embedding_norm r)%Q ∧
                ¬ (row_embedding_norm r * query_norm == 0)%Q) scoring ∧
   traverse (score_row embedding query_norm) scoring
   = Return (map (scored_result embedding query_norm) scoring) ∧
   ((0 <= top_k)%Z →
    db_fault E (trace w)
      (EvExecute (SelectSimilar embedding query_norm top_k)) = None →
    ∃ out w',
      _search_single_embedding E embedding c top_k w = (Return out, w') ∧
      ∀ x, x ∈ out →
           ∃ r, r ∈ pending c ∧ (0 < row_embedding_norm r)%Q ∧
                x = scored_result embedding query_norm r)).
Proof.
  cbv zeta. split; [apply search_single_zero|]. intros Hq.
  split; [|split; [|split]].
  - intros r _ Hr Hin. apply list_elem_of_In, filter_In in Hin as [_ Hpos].
    by apply norm_positive_spec in Hpos.
  - apply Forall_forall. intros r Hr.
    apply list_elem_of_In, filter_In in Hr as [_ Hr].
    split; [by apply norm_positive_spec | by apply divisor_not_zero].
  - apply traverse_score_rows. by apply scoring_divisors.
  - intros Hk Hdb.
    destruct (search_single_nonzero E embedding c top_k w Hq Hk Hdb)
      as (out & Hout & _ & _ & Hrows).
    by eexists _, _.
Qed.


End SearchClaims.



Lemma search_zero_vector :
  _search_single_embedding example_env [0; 0]%Q (Connection example_rows) 3
    example_world = (Return [], example_world).
Proof.
  apply (search_zero_norm_and_divisor example_env [0; 0]%Q
           (Connection example_rows) 3 example_world).
  reflexivity.
Defined.

Lemma store_chunks_to_db_no_chunks :
  (∃ msg, _validate_data_for_indexing [] [] "doc.pdf"
          = Raise (Exn ValueError msg)) ∧
  store_chunks_to_db example_env [] [] "doc.pdf" "paragraph" example_world
  = (Return false, example_world).
Proof.
  apply (store_chunks_to_db_invalid example_env [] [] "doc.pdf" "paragraph"
           example_world).
  by left.
Defined.

(* ===================================================================== *)
(** * More of the code *)
(* ===================================================================== *)

(* ===================================================================== *)
(** ** What a computation keeps *)
(* ===================================================================== *)

Section Combinators.

Context (E : env).

Lemma keeps_documents_ret {A} (a : A) : keeps_documents (mret a : M A).
Proof. by intros w. Qed.

Lemma keeps_documents_raise {A} (e : exn) : keeps_documents (raise e : M A).
Proof. by intros w. Qed.

Lemma keeps_documents_bind {A B} (m : M A) (f : A → M B) :
  keeps_documents m → (∀ a, keeps_documents (f a)) → keeps_documents (m ≫= f).
Proof.
  intros Hm Hf w. rewrite bind_run. specialize (Hm w).
  destruct (m w) as [[a|e] w1]; simpl in Hm; [|done].
  by rewrite Hf.
Qed.

Lemma keeps_documents_try_except_all {A} (m : M A) handler :
  keeps_documents m → (∀ e, keeps_documents (handler e)) →
  keeps_documents (try_except_all m handler).
Proof.
  intros Hm Hh w. unfold try_except_all. specialize (Hm w).
  destruct (m w) as [[a|e] w1]; simpl in Hm; [done|]. by rewrite Hh.
Qed.

Lemma keeps_documents_load_configuration :
  keeps_documents (load_configuration E).
Proof.
  intros w. unfold load_configuration. destruct (_config w); [done|].
  destruct (getenv_truthy E "GEMINI_API_KEY"); [|done].
  destruct (getenv_truthy E "EMBEDDING_MODEL"); [|done].
  by destruct (getenv_truthy E "POSTGRES_URL").
Qed.

End Combinators.

(* ===================================================================== *)
(** ** utils/db_utils.py *)
(* ===================================================================== *)

Section ConfigFacts.

Context (E : env).

Lemma getenv_truthy_Some name v :
  getenv_truthy E name = Some v → getenv E name = Some v ∧ v ≠ "".
Proof.
  unfold getenv_truthy. destruct (getenv E name) as [v'|]; [|done].
  destruct v' as [|c s]; [done|]. by intros [= <-].
Qed.

Lemma getenv_truthy_None name :
  getenv_truthy E name = None →
  getenv E name = None ∨ getenv E name = Some "".
Proof.
  unfold getenv_truthy. destruct (getenv E name) as [v'|]; [|by left].
  destruct v' as [|c s]; [by right | done].
Qed.

Lemma prefix_empty s : String.prefix "" s = true.
Proof. by destruct s. Qed.

Lemma prefix_app s t : String.prefix s (s +:+ t) = true.
Proof.
  induction s as [|c s IH]; [apply prefix_empty|].
  rewrite str_app_cons, prefix_cons. by destruct (ascii_dec c c).
Qed.

(** X1: With nothing cached, [load_configuration] returns exactly when the
    three variables are set and not empty; the configuration holds the
    key and the URL as they are; a model name that begins with "models/"
    or "tunedModels/" it holds as it is, and any other with "models/" put
    before it; it is cached, and nothing else changes.  Otherwise
    [ConfigurationError] is raised, one of the three variables is unset or
    empty, and nothing is cached. *)
Theorem load_configuration_fresh w :
  _config w = None →
  match load_configuration E w with
  | (Return c, w') =>
      w' = World (documents w) (Some c) (trace w) ∧
      (getenv E "GEMINI_API_KEY" = Some (api_key c) ∧ api_key c ≠ "") ∧
      (getenv E "POSTGRES_URL" = Some (postgres_url c) ∧ postgres_url c ≠ "") ∧
      (∃ m, getenv E "EMBEDDING_MODEL" = Some m ∧ m ≠ "" ∧
            embedding_model c
            = (if String.prefix "models/" m || String.prefix "tunedModels/" m
               then m else "models/" +:+ m)) ∧
      String.prefix "models/" (embedding_model c)
      || String.prefix "tunedModels/" (embedding_model c) = true
  | (Raise e, w') =>
      w' = w ∧ exn_cls e = ConfigurationError ∧
      ∃ name, name ∈ ["GEMINI_API_KEY"; "EMBEDDING_MODEL"; "POSTGRES_URL"] ∧
              (getenv E name = None ∨ getenv E name = Some "")
  end.
Proof.
  intros Hnone. unfold load_configuration. rewrite Hnone.
  destruct (getenv_truthy E "GEMINI_API_KEY") as [k|] eqn:Hk.
  2:{ split; [done|]. split; [done|]. exists "GEMINI_API_KEY".
      split; [set_solver | by apply getenv_truthy_None]. }
  destruct (getenv_truthy E "EMBEDDING_MODEL") as [m|] eqn:Hm.
  2:{ split; [done|]. split; [done|]. exists "EMBEDDING_MODEL".
      split; [set_solver | by apply getenv_truthy_None]. }
  destruct (getenv_truthy E "POSTGRES_URL") as [u|] eqn:Hu.
  2:{ split; [done|]. split; [done|]. exists "POSTGRES_URL".
      split; [set_solver | by apply getenv_truthy_None]. }
  apply getenv_truthy_Some in Hk, Hm, Hu. cbv zeta. cbn [api_key postgres_url embedding_model].
  split; [done|]. split; [done|]. split; [done|]. split.
  - exists m. by destruct Hm as [Hm1 Hm2].
  - destruct (String.prefix "models/" m || String.prefix "tunedModels/" m)
      eqn:Hp; [done|].
    by rewrite (prefix_app "models/" m).
Qed.

(** X2: Once [load_configuration] has returned, every later call returns the
    same configuration and changes nothing, whatever the environment
    variables are by then. *)
Theorem load_configuration_cached w c w' :
  load_configuration E w = (Return c, w') →
  _config w' = Some c ∧
  ∀ E', load_configuration E' w' = (Return c, w').
Proof.
  intros H.
  assert (Hc : _config w' = Some c).
  { revert H. unfold load_configuration. destruct (_config w) as [c0|] eqn:Hc0.
    - by intros [= <- <-].
    - destruct (getenv_truthy E "GEMINI_API_KEY"); [|done].
      destruct (getenv_truthy E "EMBEDDING_MODEL"); [|done].
      destruct (getenv_truthy E "POSTGRES_URL"); [|done].
      by intros [= <- <-]. }
  split; [done|]. intros E'. unfold load_configuration. by rewrite Hc.
Qed.

End ConfigFacts.

Lemma load_configuration_fresh_example :
  match load_configuration example_env empty_world with
  | (Return c, w') =>
      w' = World (documents empty_world) (Some c) (trace empty_world) ∧
      (getenv example_env "GEMINI_API_KEY" = Some (api_key c) ∧ api_key c ≠ "") ∧
      (getenv example_env "POSTGRES_URL" = Some (postgres_url c)
       ∧ postgres_url c ≠ "") ∧
      (∃ m, getenv example_env "EMBEDDING_MODEL" = Some m ∧ m ≠ "" ∧
            embedding_model c
            = (if String.prefix "models/" m || String.prefix "tunedModels/" m
               then m else "models/" +:+ m)) ∧
      String.prefix "models/" (embedding_model c)
      || String.prefix "tunedModels/" (embedding_model c) = true
  | (Raise e, w') =>
      w' = empty_world ∧ exn_cls e = ConfigurationError ∧
      ∃ name, name ∈ ["GEMINI_API_KEY"; "EMBEDDING_MODEL"; "POSTGRES_URL"] ∧
              (getenv example_env name = None
               ∨ getenv example_env name = Some "")
  end.
Proof. apply (load_configuration_fresh example_env empty_world). reflexivity. Defined.

Lemma load_configuration_cached_example :
  _config (load_configuration example_env empty_world).2
  = Some (Config "secret" "postgresql://db" "models/embedding-001") ∧
  ∀ E', load_configuration E' (load_configuration example_env empty_world).2
        = (Return (Config "secret" "postgresql://db" "models/embedding-001"),
           (load_configuration example_env empty_world).2).
Proof.
  apply (load_configuration_cached example_env empty_world). reflexivity.
Defined.

Section StoreFacts.

Context (E : env).

Implicit Types (w : world) (c : connection) (rows : list row).

Lemma db_action_cases ev w :
  db_action E ev w = (Return tt, add_events w [ev]) ∨
  ∃ msg, db_action E ev w = (Raise (Exn Psycopg2Error msg), add_events w [ev]).
Proof.
  unfold db_action. destruct (db_fault E (trace w) ev) as [msg|]; [right|left].
  - by exists msg.
  - done.
Qed.

(** A connection sees the committed rows; getting it changes none. *)
Lemma get_db_connection_cases w :
  (∃ w', get_db_connection E w = (Return (Connection (documents w)), w') ∧
         documents w' = documents w) ∨
  (∃ e w', get_db_connection E w = (Raise e, w') ∧
           exn_cls e = DatabaseError ∧ documents w' = documents w).
Proof.
  unfold get_db_connection. rewrite try_except_run, bind_run.
  pose proof (keeps_documents_load_configuration E w) as Hdoc.
  destruct (load_configuration E w) as [[cfg|e] w0] eqn:Hcfg; simpl in Hdoc.
  - rewrite bind_run.
    destruct (db_action_cases (EvConnect (postgres_url cfg)) w0) as [->|[msg ->]].
    + left. rewrite <- Hdoc. by eexists.
    + right. by eexists _, _.
  - right. assert (exn_cls e = ConfigurationError) as Hcls.
    { revert Hcfg. unfold load_configuration. destruct (_config w); [done|].
      destruct (getenv_truthy E "GEMINI_API_KEY"); [|by intros [= <- _]].
      destruct (getenv_truthy E "EMBEDDING_MODEL"); [|by intros [= <- _]].
      destruct (getenv_truthy E "POSTGRES_URL"); [done|by intros [= <- _]]. }
    unfold caught_by. rewrite Hcls. by eexists _, _.
Qed.

(** A commit that fails changes no row. *)
Lemma commit_cases c w :
  (∃ w', commit E c w = (Return tt, w') ∧ documents w' = pending c) ∨
  (∃ msg w', commit E c w = (Raise (Exn Psycopg2Error msg), w') ∧
             documents w' = documents w).
Proof.
  unfold commit. rewrite bind_run.
  destruct (db_action_cases EvCommit w) as [->|[msg ->]].
  - left. by eexists.
  - right. by eexists _, _.
Qed.

Lemma rollback_run {A} (k : M A) w :
  (rollback E;; k) w =
  match rollback_fault E (trace w) with
  | Some msg => (Raise (Exn Psycopg2Error msg), w)
  | None => k w
  end.
Proof.
  rewrite bind_run. unfold rollback. by destruct (rollback_fault E (trace w)).
Qed.

(** The four steps of [ensure_database_schema] without its handler. *)
Lemma schema_steps_cases c w :
  let m := db_action E (EvExecute CreateTable);;
           db_action E (EvExecute CreateDotProduct);;
           db_action E (EvExecute CreateVectorNorm);;
           commit E c in
  let steps := [EvExecute CreateTable; EvExecute CreateDotProduct;
                EvExecute CreateVectorNorm; EvCommit] in
  (∃ w', m w = (Return tt, w') ∧ documents w' = pending c ∧
         trace w' = trace w ++ steps) ∨
  (∃ msg w', m w = (Raise (Exn Psycopg2Error msg), w') ∧
             documents w' = documents w ∧
             ∃ k, 1 ≤ k ≤ 4 ∧ trace w' = trace w ++ take k steps).
Proof.
  cbv zeta. rewrite bind_run.
  destruct (db_action_cases (EvExecute CreateTable) w) as [->|[msg ->]].
  2:{ right. eexists _, _. split; [done|]. split; [done|].
      exists 1. split; [lia | done]. }
  rewrite bind_run.
  destruct (db_action_cases (EvExecute CreateDotProduct)
              (add_events w [EvExecute CreateTable])) as [->|[msg ->]].
  2:{ right. eexists _, _. split; [done|]. split; [done|].
      exists 2. split; [lia|]. cbn. by rewrite <- (assoc_L (++)). }
  rewrite bind_run.
  destruct (db_action_cases (EvExecute CreateVectorNorm)
              (add_events (add_events w [EvExecute CreateTable])
                 [EvExecute CreateDotProduct])) as [->|[msg ->]].
  2:{ right. eexists _, _. split; [done|]. split; [done|].
      exists 3. split; [lia|]. cbn. by rewrite <- !(assoc_L (++)). }
  unfold commit. rewrite bind_run.
  destruct (db_action_cases EvCommit
              (add_events (add_events (add_events w [EvExecute CreateTable])
                 [EvExecute CreateDotProduct]) [EvExecute CreateVectorNorm]))
    as [->|[msg ->]].
  - left. eexists. split; [done|]. split; [done|].
    cbn. by rewrite <- !(assoc_L (++)).
  - right. eexists _, _. split; [done|]. split; [done|].
    exists 4. split; [lia|]. cbn. by rewrite <- !(assoc_L (++)).
Qed.

(** What [ensure_database_schema] does: it returns with the rows of the
    transaction committed, or it raises with no row changed, the
    [DatabaseError] of its handler or, when the rollback fails, the
    [psycopg2.Error] of the rollback. *)
Lemma ensure_database_schema_run c w :
  let steps := [EvExecute CreateTable; EvExecute CreateDotProduct;
                EvExecute CreateVectorNorm; EvCommit] in
  match ensure_database_schema E c w with
  | (Return _, w') => documents w' = pending c ∧ trace w' = trace w ++ steps
  | (Raise e, w') =>
      documents w' = documents w ∧
      (∃ k, 1 ≤ k ≤ 4 ∧ trace w' = trace w ++ take k steps) ∧
      match rollback_fault E (trace w') with
      | None =>
          exn_cls e = DatabaseError ∧
          String.prefix "Failed to ensure database schema: " (exn_str e) = true
      | Some msg => e = Exn Psycopg2Error msg
      end
  end.
Proof.
  cbv zeta. unfold ensure_database_schema. rewrite try_except_all_run.
  destruct (schema_steps_cases c w)
    as [(w' & Hm & Hd & Ht)|(msg & w' & Hm & Hd & Hk)]; cbv zeta in Hm;
    rewrite Hm; [done|].
  rewrite rollback_run.
  destruct (rollback_fault E (trace w')) as [msg'|] eqn:Hrb; cbn.
  - rewrite Hrb. done.
  - rewrite Hrb. split; [done|]. split; [done|]. split; [done|].
    apply prefix_app.
Qed.

Lemma ensure_database_schema_cases c w :
  (∃ w', ensure_database_schema E c w = (Return tt, w') ∧
         documents w' = pending c) ∨
  (∃ e w', ensure_database_schema E c w = (Raise e, w') ∧
           caught_by [DatabaseError; Psycopg2Error] e = true ∧
           documents w' = documents w).
Proof.
  pose proof (ensure_database_schema_run c w) as H. cbv zeta in H.
  destruct (ensure_database_schema E c w) as [[[]|e] w'].
  - left. exists w'. by destruct H.
  - right. exists e, w'. destruct H as (Hd & _ & He). split; [done|].
    split; [|done]. unfold caught_by.
    destruct (rollback_fault E (trace w')); [by subst e|].
    destruct He as [-> _]. done.
Qed.


Lemma List_filter_all {A} (f : A → bool) (l : list A) :
  Forall (λ x, f x = true) l → List.filter f l = l.
Proof.
  induction 1 as [|x l Hx Hl IH]; [done|]. simpl. by rewrite Hx, IH.
Qed.

Lemma List_filter_none {A} (f : A → bool) (l : list A) :
  Forall (λ x, f x = false) l → List.filter f l = [].
Proof.
  induction 1 as [|x l Hx Hl IH]; [done|]. simpl. by rewrite Hx, IH.
Qed.

(** The statement of [delete_document_data] and the rows it leaves. *)
Lemma delete_statement_cases filename c w :
  let m := match filename with
           | Some (String _ _ as f) =>
               db_action E (EvExecute (DeleteWhereFilename f));;
               mret (Connection
                       (List.filter
                          (fun r => negb (String.eqb (row_filename r) f))
                          (pending c)))
           | _ =>
               db_action E (EvExecute TruncateDocuments);;
               mret (Connection [])
           end in
  (∃ w', m w = (Return (Connection (rows_after_delete filename (pending c))), w')
         ∧ documents w' = documents w) ∨
  (∃ msg w', m w = (Raise (Exn Psycopg2Error msg), w') ∧
             documents w' = documents w).
Proof.
  cbv zeta. destruct filename as [[|ch f]|]; rewrite bind_run;
    (match goal with
     | |- context [db_action E ?ev w] =>
         destruct (db_action_cases ev w) as [->|[msg ->]]
     end; [left; by eexists | right; by eexists _, _]).
Qed.

Lemma try_with_connection_run body classes w :
  try_with_connection E body classes w =
  match get_db_connection E w with
  | (Return c, w1) =>
      match body c w1 with
      | (Raise e, w2) =>
          if caught_by classes e
          then match rollback_fault E (trace w2) with
               | Some msg => (Raise (Exn Psycopg2Error msg), w2)
               | None => (Return false, w2)
               end
          else (Raise e, w2)
      | r => r
      end
  | (Raise e, w1) =>
      if caught_by classes e then (Return false, w1) else (Raise e, w1)
  end.
Proof.
  unfold try_with_connection.
  destruct (get_db_connection E w) as [[c|e] w1]; [|done].
  rewrite try_except_run. destruct (body c w1) as [[b|e] w2]; [done|].
  destruct (caught_by classes e); [|done]. by rewrite rollback_run.
Qed.

Lemma delete_document_data_run filename w :
  match delete_document_data E filename w with
  | (Return b, w') =>
      documents w' =
        (if b then rows_after_delete filename (documents w) else documents w)
  | (Raise e, w') => rollback_failed E e w' ∧ documents w' = documents w
  end.
Proof.
  unfold delete_document_data. rewrite try_with_connection_run.
  destruct (get_db_connection_cases w)
    as [(w1 & -> & Hd1)|(e & w1 & -> & Hcls & Hd1)].
  2:{ unfold caught_by. by rewrite Hcls. }
  rewrite bind_run.
  destruct (delete_statement_cases filename (Connection (documents w)) w1)
    as [(w2 & Hs & Hd2)|(msg & w2 & Hs & Hd2)]; cbv zeta in Hs; rewrite Hs.
  2:{ cbn. destruct (rollback_fault E (trace w2)) eqn:Hrb.
      - split; [by split|]. congruence.
      - congruence. }
  rewrite bind_run.
  destruct (commit_cases
              (Connection (rows_after_delete filename
                             (pending (Connection (documents w))))) w2)
    as [(w3 & -> & Hd3)|(msg & w3 & -> & Hd3)].
  - done.
  - cbn. destruct (rollback_fault E (trace w3)) eqn:Hrb.
    + split; [by split|]. congruence.
    + congruence.
Qed.


Lemma delete_document_data_ok filename w :
  db_reliable E → configured E w →
  ∃ w', delete_document_data E filename w = (Return true, w') ∧
        documents w' = rows_after_delete filename (documents w).
Proof.
  intros Hdb (cfg & w0 & Hcfg).
  unfold delete_document_data. rewrite try_with_connection_run.
  destruct (get_db_connection_ok E w cfg w0 Hdb Hcfg) as (w1 & ->).
  pose proof (keeps_documents_load_configuration E w) as Hdoc.
  rewrite Hcfg in Hdoc. simpl in Hdoc. rewrite Hdoc.
  rewrite bind_run.
  destruct (delete_statement_cases filename (Connection (documents w)) w1)
    as [(w2 & Hs & Hd2)|(msg & w2 & Hs & Hd2)]; cbv zeta in Hs.
  2:{ exfalso. revert Hs.
      destruct filename as [[|ch f]|]; rewrite bind_run, db_action_ok;
        by try apply Hdb. }
  rewrite Hs, bind_run. unfold commit. rewrite bind_run, db_action_ok by apply Hdb.
  by eexists.
Qed.

(** X7: With the settings at hand and a database that answers,
    [delete_document_data] returns [True]; deleting a file name that has
    no row succeeds too and leaves the table as it is. *)
Theorem delete_document_data_succeeds filename w :
  db_reliable E → configured E w →
  ∃ w', delete_document_data E filename w = (Return true, w') ∧
        documents w' = rows_after_delete filename (documents w) ∧
        (∀ f, filename = Some f → f ≠ "" →
              Forall (λ r, row_filename r ≠ f) (documents w) →
              documents w' = documents w).
Proof.
  intros Hdb Hcfg.
  destruct (delete_document_data_ok filename w Hdb Hcfg) as (w' & Hrun & Hdocs).
  exists w'.
  split; [done|]. split; [done|].
  intros f -> Hf Hall. rewrite Hdocs. destruct f as [|ch f]; [done|].
  cbn [rows_after_delete]. apply List_filter_all.
  eapply Forall_impl; [exact Hall|]. intros r Hr. cbv beta.
  by apply negb_true_iff, String.eqb_neq.
Qed.

End StoreFacts.

(* ===================================================================== *)
(** ** index_documents.py: what reaches the table *)
(* ===================================================================== *)

Section IndexTable.

Context (E : env).

Implicit Types (w : world) (chunks : list string) (embeddings : list vector)
  (filename file_path split_strategy text : string).

Lemma validate_raises_ValueError chunks embeddings filename e :
  _validate_data_for_indexing chunks embeddings filename = Raise e →
  exn_cls e = ValueError.
Proof.
  unfold _validate_data_for_indexing.
  destruct chunks as [|chunk chunks]; [by intros [= <-]|].
  destruct embeddings as [|embedding embeddings]; [by intros [= <-]|].
  destruct (negb _); [by intros [= <-]|].
  destruct (_ || _); [by intros [= <-] | done].
Qed.

Lemma validate_returns chunks embeddings filename :
  _validate_data_for_indexing chunks embeddings filename = Return tt →
  chunks ≠ [] ∧ length chunks = length embeddings ∧ blank filename = false.
Proof.
  unfold _validate_data_for_indexing.
  destruct chunks as [|chunk chunks]; [done|].
  destruct embeddings as [|embedding embeddings]; [done|].
  destruct (length (chunk :: chunks) =? length (embedding :: embeddings))%nat
    eqn:Hlen; [|done].
  rewrite chunk_guard. cbn [negb]. destruct (blank filename); [done|].
  apply Nat.eqb_eq in Hlen. done.
Qed.

Lemma rows_to_store_inserted chunks embeddings filename split_strategy :
  map (inserted_row E)
    (map (fun '(chunk, embedding) =>
            (filename, chunk, split_strategy, embedding))
         (zip chunks embeddings))
  = rows_to_store chunks embeddings filename split_strategy (vector_norm E).
Proof.
  unfold rows_to_store. rewrite map_map. apply map_ext. by intros [chunk e].
Qed.

(** The rows stored for lists of one length: one for each chunk, in the
    order of the chunks, each with the file name, the strategy, its
    embedding and the norm of that embedding. *)
Lemma rows_to_store_spec chunks embeddings filename split_strategy norm :
  length chunks = length embeddings →
  let rows := rows_to_store chunks embeddings filename split_strategy norm in
  map row_chunk_text rows = chunks ∧
  map row_embedding rows = embeddings ∧
  Forall (λ r, row_filename r = filename ∧
               row_split_strategy r = split_strategy ∧
               row_embedding_norm r = norm (row_embedding r)) rows.
Proof.
  cbv zeta. unfold rows_to_store. revert embeddings.
  induction chunks as [|chunk chunks IH]; intros [|e embeddings] Hlen;
    try done.
  injection Hlen as Hlen. destruct (IH embeddings Hlen) as (H1 & H2 & H3).
  cbn [zip zip_with map]. rewrite H1, H2. repeat split; try done.
  by constructor.
Qed.

Lemma store_chunks_to_db_run chunks embeddings filename split_strategy w :
  match store_chunks_to_db E chunks embeddings filename split_strategy w with
  | (Return b, w') =>
      if b
      then _validate_data_for_indexing chunks embeddings filename = Return tt ∧
           documents w' =
             documents w ++
             rows_to_store chunks embeddings filename split_strategy
               (vector_norm E)
      else documents w' = documents w
  | (Raise e, w') => rollback_failed E e w' ∧ documents w' = documents w
  end.
Proof.
  unfold store_chunks_to_db. rewrite bind_run, try_except_run, bind_run.
  unfold lift.
  destruct (_validate_data_for_indexing chunks embeddings filename)
    as [[]|e] eqn:Hv.
  2:{ unfold caught_by. by rewrite (validate_raises_ValueError _ _ _ _ Hv). }
  cbn [mret M_ret negb]. rewrite try_with_connection_run.
  destruct (get_db_connection_cases E w)
    as [(w1 & -> & Hd1)|(e & w1 & -> & Hcls & Hd1)].
  2:{ unfold caught_by. by rewrite Hcls. }
  assert (Hfail : ∀ w2, documents w2 = documents w →
    match (match rollback_fault E (trace w2) with
           | Some msg => (Raise (Exn Psycopg2Error msg), w2)
           | None => (Return false, w2)
           end : res bool * world) with
    | (Return b, w') =>
        if b
        then Return tt = Return tt ∧
             documents w' =
               documents w ++
               rows_to_store chunks embeddings filename split_strategy
                 (vector_norm E)
        else documents w' = documents w
    | (Raise e, w') => rollback_failed E e w' ∧ documents w' = documents w
    end).
  { intros w2 Hd. destruct (rollback_fault E (trace w2)) eqn:Hrb; [|done].
    split; [by split | done]. }
  rewrite bind_run.
  destruct (ensure_database_schema_cases E (Connection (documents w)) w1)
    as [(w2 & -> & Hd2)|(e & w2 & -> & Hcaught & Hd2)].
  2:{ rewrite Hcaught. apply Hfail. congruence. }
  rewrite bind_run.
  match goal with
  | |- context [db_action E ?ev w2] =>
      destruct (db_action_cases E ev w2) as [->|[msg ->]]
  end.
  2:{ cbn [caught_by exn_cls]. apply Hfail. done. }
  rewrite bind_run.
  match goal with
  | |- context [commit E ?c ?w0] =>
      destruct (commit_cases E c w0) as [(w3 & -> & Hd3)|(msg & w3 & -> & Hd3)]
  end.
  - split; [done|]. rewrite Hd3. cbn [pending].
    by rewrite rows_to_store_inserted.
  - cbn [caught_by exn_cls]. apply Hfail. by rewrite Hd3.
Qed.


Lemma store_chunks_to_db_ok chunks embeddings filename split_strategy w :
  db_reliable E → configured E w →
  chunks ≠ [] → length chunks = length embeddings → blank filename = false →
  ∃ w', store_chunks_to_db E chunks embeddings filename split_strategy w
        = (Return true, w').
Proof.
  intros Hdb (cfg & w0 & Hcfg) Hne Hlen Hbl.
  unfold store_chunks_to_db.
  rewrite bind_run, try_except_run, bind_run. unfold lift.
  rewrite (validate_valid _ _ _ Hne Hlen Hbl). cbn [mret M_ret negb].
  rewrite try_with_connection_run.
  destruct (get_db_connection_ok E w cfg w0 Hdb Hcfg) as (w1 & ->).
  rewrite bind_run.
  destruct (ensure_database_schema_ok E (Connection (documents w0)) w1 Hdb)
    as (w2 & ->).
  rewrite bind_run, db_action_ok by apply Hdb.
  rewrite bind_run. unfold commit. rewrite bind_run, db_action_ok by apply Hdb.
  by eexists.
Qed.

(** X9: With the settings at hand and a database that answers,
    [store_chunks_to_db] returns [True] exactly for valid data: lists of
    one length that are not empty and a file name that is not blank. *)
Theorem store_chunks_to_db_succeeds chunks embeddings filename split_strategy w :
  db_reliable E → configured E w →
  ∃ (b : bool) w',
    store_chunks_to_db E chunks embeddings filename split_strategy w
    = (Return b, w') ∧
    (b = true ↔ chunks ≠ [] ∧ length chunks = length embeddings
                ∧ blank filename = false).
Proof.
  intros Hdb Hcfg.
  destruct (_validate_data_for_indexing chunks embeddings filename)
    as [[]|e] eqn:Hv.
  - apply validate_returns in Hv as (Hne & Hlen & Hbl).
    destruct (store_chunks_to_db_ok chunks embeddings filename split_strategy
                w Hdb Hcfg Hne Hlen Hbl) as (w' & Hrun).
    by exists true, w'.
  - exists false, w. split.
    + unfold store_chunks_to_db.
      rewrite bind_run, try_except_run, bind_run. unfold lift. rewrite Hv.
      unfold caught_by. by rewrite (validate_raises_ValueError _ _ _ _ Hv).
    + split; [done|]. intros (Hne & Hlen & Hbl).
      by rewrite (validate_valid _ _ _ Hne Hlen Hbl) in Hv.
Qed.

End IndexTable.

Section Reindex.

Context (E : env).

Implicit Types (w : world) (chunks : list string) (embeddings : list vector)
  (file_path text : string).

Lemma keeps_documents_load_document file_path :
  keeps_documents (load_document E file_path).
Proof.
  unfold load_document. destruct (negb _); [apply keeps_documents_raise|].
  apply keeps_documents_bind; [by intros w|].
  intros [|]; [|apply keeps_documents_raise]. cbn [negb].
  apply keeps_documents_bind.
  - apply keeps_documents_try_except_all; [|intros e; apply keeps_documents_raise].
    intros w. unfold extract. by destruct (extract_text E (trace w) file_path).
  - intros text. destruct (_ || _);
      [apply keeps_documents_raise | apply keeps_documents_ret].
Qed.

Lemma keeps_documents_embed_attempts model content max_retries attempts :
  keeps_documents (embed_attempts E model content max_retries attempts).
Proof.
  induction attempts as [|attempt rest IH]; [apply keeps_documents_ret|].
  cbn [embed_attempts]. apply keeps_documents_try_except_all.
  - apply keeps_documents_bind; [|intros r; apply keeps_documents_ret].
    intros w. unfold genai_embed_content.
    by destruct (embed_content E (trace w) model content).
  - intros e. destruct (_ =? _)%nat; [apply keeps_documents_raise|].
    apply keeps_documents_bind; [by intros w | by intros _].
Qed.

Lemma keeps_documents_embed_batches model chunks batch_starts :
  ∀ embeddings,
    keeps_documents (embed_batches E model chunks batch_starts embeddings).
Proof.
  induction batch_starts as [|batch_start rest IH]; intros embeddings;
    [apply keeps_documents_ret|].
  cbn [embed_batches].
  apply keeps_documents_bind; [apply keeps_documents_embed_attempts|].
  intros [embedding|]; [|apply keeps_documents_raise].
  apply keeps_documents_bind; [|intros _; apply IH].
  destruct (_ <? _)%nat; [by intros w | apply keeps_documents_ret].
Qed.

Lemma keeps_documents_generate_embeddings chunks :
  keeps_documents (generate_embeddings E chunks).
Proof.
  destruct chunks as [|chunk chunks]; [apply keeps_documents_raise|].
  apply keeps_documents_bind.
  - apply keeps_documents_try_except_all;
      [apply keeps_documents_load_configuration|].
    intros e. apply keeps_documents_raise.
  - intros cfg. apply keeps_documents_try_except_all;
      [apply keeps_documents_embed_batches|].
    intros e. apply keeps_documents_raise.
Qed.

(** X10: What [load_document] hands on can be chunked: the text it returns is
    not blank, so that [chunk_by_paragraphs] returns for it, a list that
    is not empty.  It returns only for the suffixes ".pdf" and ".docx";
    for any other suffix it raises [ValueError] and touches nothing.  It
    raises [ValueError], [FileNotFoundError] or [DocumentProcessingError]
    and nothing else. *)
Theorem load_document_outcome file_path w :
  match load_document E file_path w with
  | (Return text, w') =>
      suffix_lower E file_path ∈ [".pdf"; ".docx"] ∧
      blank text = false ∧
      ∃ chunks, chunk_by_paragraphs text = Return chunks ∧ chunks ≠ []
  | (Raise e, w') =>
      exn_cls e ∈ [ValueError; FileNotFoundError; DocumentProcessingError] ∧
      (suffix_lower E file_path ∉ [".pdf"; ".docx"] →
       exn_cls e = ValueError ∧ w' = w)
  end.
Proof.
  unfold load_document.
  destruct (bool_decide (suffix_lower E file_path ∈ [".pdf"; ".docx"]))
    eqn:Hsuf; cbn [negb].
  2:{ apply bool_decide_eq_false in Hsuf. split; [apply list_elem_of_In; simpl; auto | done]. }
  apply bool_decide_eq_true in Hsuf.
  rewrite bind_run. unfold check_exists.
  destruct (path_exists E (trace w) file_path); cbn [negb].
  2:{ split; [apply list_elem_of_In; simpl; auto | done]. }
  rewrite bind_run. unfold try_except_all, extract.
  destruct (extract_text E (trace _) file_path) as [text|e].
  2:{ split; [apply list_elem_of_In; simpl; auto | done]. }
  rewrite chunk_guard. destruct (blank text) eqn:Hb.
  { split; [apply list_elem_of_In; simpl; auto | done]. }
  split; [done|]. split; [done|].
  rewrite chunk_by_paragraphs_nonblank by done. eexists. split; [done|].
  intros Hnil. apply cleaned_split_nil in Hnil. congruence.
Qed.

Lemma process_document_table_run file_path w :
  ∃ (b : bool) w',
    process_document E file_path w = (Return b, w') ∧
    if b
    then ∃ w1 text w2 chunks embeddings w3,
           delete_document_data E (Some file_path) w = (Return true, w1) ∧
           load_document E file_path w1 = (Return text, w2) ∧
           chunk_by_paragraphs text = Return chunks ∧
           generate_embeddings E chunks w2 = (Return embeddings, w3) ∧
           store_chunks_to_db E chunks embeddings file_path "paragraph" w3
           = (Return true, w') ∧
           chunks ≠ [] ∧ length chunks = length embeddings ∧
           documents w' =
             rows_after_delete (Some file_path) (documents w) ++
             rows_to_store chunks embeddings file_path "paragraph"
               (vector_norm E)
    else documents w' = documents w ∨
         documents w' = rows_after_delete (Some file_path) (documents w).
Proof.
  pose proof (process_document_run E file_path w) as Hrun.
  pose proof (delete_document_data_run E (Some file_path) w) as Hd1.
  destruct (delete_document_data E (Some file_path) w) as [[d|e] w1] eqn:Hd.
  2:{ exists false, w1. split; [done|]. left. by destruct Hd1. }
  destruct d; [|exists false, w1; split; [done | by left]].
  pose proof (keeps_documents_load_document file_path w1) as Hl.
  destruct (load_document E file_path w1) as [[text|e] w2] eqn:Hload;
    simpl in Hl; [|exists false, w2; split; [done | right; congruence]].
  destruct (chunk_by_paragraphs text) as [chunks|e] eqn:Hc;
    [|exists false, w2; split; [done | right; congruence]].
  pose proof (keeps_documents_generate_embeddings chunks w2) as Hg.
  destruct (generate_embeddings E chunks w2) as [[embeddings|e] w3] eqn:Hgen;
    simpl in Hg; [|exists false, w3; split; [done | right; congruence]].
  pose proof (store_chunks_to_db_run E chunks embeddings file_path "paragraph"
                w3) as Hs4.
  destruct (store_chunks_to_db E chunks embeddings file_path "paragraph" w3)
    as [[s|e] w4] eqn:Hs.
  2:{ exists false, w4. split; [done|]. right. destruct Hs4 as [_ Hs4].
      congruence. }
  exists s, w4. split; [done|]. destruct s.
  - destruct Hs4 as [Hv Hdocs]. apply validate_returns in Hv as (Hne & Hlen & _).
    exists w1, text, w2, chunks, embeddings, w3.
    repeat (split; [done|]). congruence.
  - right. congruence.
Qed.

(** X12: [process_document] never raises, and the table after it is one of
    three.  [True]: the rows of the other files as they were, followed by
    one row for each chunk of the document.  [False]: the table as it
    was, or the table without the rows of this file (the delete step came
    through, a later step did not); chunks are never stored in part. *)
Theorem process_document_table file_path w :
  ∃ (b : bool) w',
    process_document E file_path w = (Return b, w') ∧
    if b
    then ∃ rows,
           rows ≠ [] ∧
           Forall (λ r, row_filename r = file_path ∧
                        row_split_strategy r = "paragraph" ∧
                        row_embedding_norm r = vector_norm E (row_embedding r))
                  rows ∧
           documents w' =
             rows_after_delete (Some file_path) (documents w) ++ rows
    else documents w' = documents w ∨
         documents w' = rows_after_delete (Some file_path) (documents w).
Proof.
  destruct (process_document_table_run file_path w) as (b & w' & Hrun & Hb).
  exists b, w'. split; [done|]. destruct b; [|done].
  destruct Hb as (w1 & text & w2 & chunks & embeddings & w3 & _ & _ & _ & _
                  & _ & Hne & Hlen & Hdocs).
  destruct (rows_to_store_spec chunks embeddings file_path "paragraph"
              (vector_norm E) Hlen) as (Htexts & _ & Hall).
  eexists. split; [|split; [exact Hall | exact Hdocs]].
  intros Hnil. rewrite Hnil in Htexts. simpl in Htexts. congruence.
Qed.

(** X13: Indexing again replaces.  After a [process_document] that returns
    [True] for a file path that is not empty, the rows of that path in the
    table are exactly the rows of this run and no others: one row for each
    chunk of the text this run loaded, in the order of the chunks, with
    the embedding this run got for the chunk; whatever rows the path had
    before are gone.  The rows of all other paths are as they were, and
    the table is these followed by the new rows. *)
Theorem process_document_one_generation file_path w w' :
  file_path ≠ "" →
  process_document E file_path w = (Return true, w') →
  ∃ w1 text w2 chunks embeddings w3 rows,
    delete_document_data E (Some file_path) w = (Return true, w1) ∧
    load_document E file_path w1 = (Return text, w2) ∧
    chunk_by_paragraphs text = Return chunks ∧
    generate_embeddings E chunks w2 = (Return embeddings, w3) ∧
    map row_chunk_text rows = chunks ∧
    map row_embedding rows = embeddings ∧
    Forall (λ r, row_filename r = file_path ∧
                 row_split_strategy r = "paragraph" ∧
                 row_embedding_norm r = vector_norm E (row_embedding r))
           rows ∧
    List.filter (λ r, String.eqb (row_filename r) file_path) (documents w')
    = rows ∧
    List.filter (λ r, negb (String.eqb (row_filename r) file_path))
      (documents w')
    = List.filter (λ r, negb (String.eqb (row_filename r) file_path))
        (documents w) ∧
    documents w' =
      List.filter (λ r, negb (String.eqb (row_filename r) file_path))
        (documents w) ++ rows.
Proof.
  intros Hne Hrun.
  destruct (process_document_table_run file_path w) as (b & w0 & Hrun' & Hb).
  rewrite Hrun in Hrun'. injection Hrun' as <- <-.
  destruct Hb as (w1 & text & w2 & chunks & embeddings & w3 & Hdel & Hload
                  & Hchunk & Hgen & _ & Hcne & Hlen & Hdocs).
  destruct (rows_to_store_spec chunks embeddings file_path "paragraph"
              (vector_norm E) Hlen) as (Htexts & Hembs & Hall).
  set (rows := rows_to_store chunks embeddings file_path "paragraph"
                 (vector_norm E)) in *.
  assert (Hyes : Forall (λ r, String.eqb (row_filename r) file_path = true) rows).
  { eapply Forall_impl; [exact Hall|]. intros r (Hr & _). cbv beta.
    by apply String.eqb_eq. }
  assert (Hno : Forall (λ r, negb (String.eqb (row_filename r) file_path) = false)
                  rows).
  { eapply Forall_impl; [exact Hyes|]. intros r Hr. cbv beta in *. by rewrite Hr. }
  exists w1, text, w2, chunks, embeddings, w3, rows.
  do 7 (split; [done|]).
  destruct file_path as [|ch f]; [done|]. cbn [rows_after_delete] in Hdocs.
  split; [|split; [|done]].
  - rewrite Hdocs, List.filter_app, (List_filter_all _ rows Hyes).
    rewrite List_filter_none; [done|].
    apply Forall_forall. intros r Hr.
    apply list_elem_of_In, filter_In in Hr as [_ Hr].
    by apply negb_true_iff in Hr.
  - rewrite Hdocs, List.filter_app, (List_filter_none _ rows Hno).
    rewrite app_nil_r. apply List_filter_all.
    apply Forall_forall. intros r Hr.
    by apply list_elem_of_In, filter_In in Hr as [_ Hr].
Qed.

End Reindex.

(* ===================================================================== *)
(** ** utils/shared_utils.py: retries and batches *)
(* ===================================================================== *)

Section RetryFacts.

Context (E : env).

Implicit Types (w : world) (model : string) (content chunks : list string).

Lemma retry_events_succ call attempt k :
  1 ≤ k →
  retry_events call attempt (S k)
  = call :: EvSleep (inject_Z (2 ^ Z.of_nat attempt))
    :: retry_events call (S attempt) k.
Proof. destruct k; [lia | done]. Qed.

Lemma embed_attempts_seq model content n : ∀ a w,
  ∃ k, 1 ≤ k ≤ S n ∧
       match embed_attempts E model content (a + S n) (seq a (S n)) w with
       | (Return (Some _), w') =>
           w' = add_events w (retry_events (EvEmbed model content) a k)
       | (Return None, _) => False
       | (Raise e, w') =>
           w' = add_events w (retry_events (EvEmbed model content) a k) ∧
           k = S n ∧ exn_cls e = EmbeddingGenerationError
       end.
Proof.
  induction n as [|n IH]; intros a w.
  - exists 1. split; [lia|]. cbn [seq]. rewrite embed_attempts_cons. cbv zeta.
    destruct (embed_content E (trace w) model content) as [r|e]; [done|].
    replace (a + 1 - 1) with a by lia. by rewrite Nat.eqb_refl.
  - change (seq a (S (S n))) with (a :: seq (S a) (S n)).
    rewrite embed_attempts_cons. cbv zeta.
    destruct (embed_content E (trace w) model content) as [r|e].
    { exists 1. split; [lia | done]. }
    destruct (a =? a + S (S n) - 1) eqn:Heq; [apply Nat.eqb_eq in Heq; lia|].
    destruct (IH (S a)
                (add_events (add_events w [EvEmbed model content])
                   [EvSleep (inject_Z (2 ^ Z.of_nat a))])) as (k & Hk & Hrun).
    replace (S a + S n) with (a + S (S n)) in Hrun by lia.
    exists (S k). split; [lia|]. rewrite retry_events_succ by lia.
    destruct (embed_attempts E model content (a + S (S n)) (seq (S a) (S n)) _)
      as [[[r|]|e'] w'].
    + by rewrite Hrun, !add_events_add.
    + done.
    + destruct Hrun as (-> & -> & Hcls). by rewrite !add_events_add.
Qed.

(** X14: [_embed_with_retry] for any [max_retries].  With [max_retries = 0] it
    makes no call and returns [None].  Otherwise it makes between 1 and
    [max_retries] calls, with sleeps of 1, 2, 4, ... seconds between them
    and nothing else; it never returns [None]; and it raises only after
    [max_retries] calls, and then [EmbeddingGenerationError]. *)
Theorem embed_with_retry_bounded model content max_retries w :
  match max_retries with
  | O => _embed_with_retry E model content 0 w = (Return None, w)
  | S _ =>
      ∃ k, 1 ≤ k ≤ max_retries ∧
           (_embed_with_retry E model content max_retries w).2
           = add_events w (retry_events (EvEmbed model content) 0 k) ∧
           match (_embed_with_retry E model content max_retries w).1 with
           | Return (Some _) => True
           | Return None => False
           | Raise e => k = max_retries ∧ exn_cls e = EmbeddingGenerationError
           end
  end.
Proof.
  destruct max_retries as [|n]; [done|].
  destruct (embed_attempts_seq model content n 0 w) as (k & Hk & Hrun).
  exists k. split; [done|]. unfold _embed_with_retry.
  change (0 + S n) with (S n) in Hrun.
  destruct (embed_attempts E model content (S n) (seq 0 (S n)) w)
    as [[[r|]|e] w']; simpl; [done | done | by destruct Hrun as (-> & -> & ->)].
Qed.

(** *** Requests *)

Lemma emits_embed_attempts_gen (P : event → Prop) model content max_retries
    attempts :
  P (EvEmbed model content) → (∀ s, P (EvSleep s)) →
  emits P (embed_attempts E model content max_retries attempts).
Proof.
  intros Hcall Hsleep.
  induction attempts as [|attempt rest IH]; [apply emits_ret|].
  cbn [embed_attempts]. apply emits_try_except_all.
  - apply emits_bind; [|intros r; apply emits_ret].
    by apply (emits_one _ _ (EvEmbed model content)).
  - intros e. destruct (_ =? _)%nat; [apply emits_raise|].
    apply emits_bind; [|by intros _].
    by apply (emits_one _ _ (EvSleep (inject_Z (2 ^ Z.of_nat attempt)))).
Qed.

Lemma slice_batch content (chunks : list string) start :
  start < length chunks →
  content = slice chunks start ((start + BATCH_SIZE) `min` length chunks) →
  0 < length content ≤ BATCH_SIZE ∧
  ∃ i, content = take (length content) (drop i chunks).
Proof.
  intros Hlt ->. unfold slice, BATCH_SIZE.
  rewrite length_take, length_drop. split; [lia|].
  exists start. f_equal. lia.
Qed.

Lemma emits_embed_batches_gen model chunks batch_starts : ∀ embeddings,
  Forall (λ start, start < length chunks) batch_starts →
  emits (batch_event model chunks)
    (embed_batches E model chunks batch_starts embeddings).
Proof.
  induction batch_starts as [|batch_start rest IH]; intros embeddings Hstarts;
    [apply emits_ret|].
  apply Forall_cons in Hstarts as [Hstart Hrest].
  cbn [embed_batches]. apply emits_bind.
  - apply emits_embed_attempts_gen; [|done]. simpl. split; [done|].
    by eapply slice_batch.
  - intros [embedding|]; [|apply emits_raise].
    apply emits_bind; [|intros _; by apply IH].
    destruct (_ <? _)%nat; [|apply emits_ret].
    by apply (emits_one _ _ (EvSleep 0.1)).
Qed.

Lemma range_step_starts len :
  Forall (λ start, start < len) (range_step len BATCH_SIZE).
Proof.
  unfold range_step, BATCH_SIZE. apply Forall_forall. intros start Hin.
  apply list_elem_of_fmap in Hin as (j & -> & Hj). apply elem_of_seq in Hj.
  pose proof (Nat.div_mod_eq (len + 10 - 1) 10) as Hd.
  pose proof (Nat.mod_upper_bound (len + 10 - 1) 10) as Hm.
  lia.
Qed.

Lemma load_configuration_same_trace w :
  trace (load_configuration E w).2 = trace w.
Proof.
  unfold load_configuration. destruct (_config w); [done|].
  destruct (getenv_truthy E "GEMINI_API_KEY"); [|done].
  destruct (getenv_truthy E "EMBEDDING_MODEL"); [|done].
  by destruct (getenv_truthy E "POSTGRES_URL").
Qed.

Lemma generate_embeddings_batch_events chunks w :
  ∃ evs,
    trace (generate_embeddings E chunks w).2 = trace w ++ evs ∧
    match chunks, (load_configuration E w).1 with
    | _ :: _, Return cfg =>
        Forall (batch_event (embedding_model cfg) chunks) evs
    | _, _ => evs = []
    end.
Proof.
  destruct chunks as [|chunk chunks].
  { exists []. by rewrite app_nil_r. }
  unfold generate_embeddings. rewrite bind_run, try_except_all_run.
  pose proof (load_configuration_same_trace w) as Ht.
  destruct (load_configuration E w) as [[cfg|e] w0]; simpl in Ht.
  - destruct (emits_try_except_all (batch_event (embedding_model cfg)
                (chunk :: chunks))
                (embed_batches E (embedding_model cfg) (chunk :: chunks)
                   (range_step (length (chunk :: chunks)) BATCH_SIZE) [])
                (λ e, raise (Exn EmbeddingGenerationError
                   ("Failed to generate embeddings: " +:+ exn_str e)))
                (emits_embed_batches_gen _ _ _ _ (range_step_starts _))
                (λ e, emits_raise _ _) w0) as (evs & Hevs & HP).
    exists evs. split; [|done]. by rewrite Hevs, Ht.
  - exists []. simpl. by rewrite Ht, app_nil_r.
Qed.

Lemma generate_embeddings_result chunks w :
  match (generate_embeddings E chunks w).1 with
  | Return _ => chunks ≠ []
  | Raise e =>
      (chunks = [] ∧ exn_cls e = ValueError
       ∧ (generate_embeddings E chunks w).2 = w) ∨
      (chunks ≠ [] ∧ exn_cls e = EmbeddingGenerationError)
  end.
Proof.
  destruct chunks as [|chunk chunks]; [left; done|].
  unfold generate_embeddings. rewrite bind_run, try_except_all_run.
  destruct (load_configuration E w) as [[cfg|e] w0]; [|by right].
  rewrite try_except_all_run.
  destruct (embed_batches E _ _ _ _ w0) as [[vs|e] w1]; [done | by right].
Qed.

(** X15: Whether the calls succeed or fail, [generate_embeddings] asks the
    remote service for nothing but batches: each request names the model
    of the configuration that [load_configuration] returns, and carries
    between 1 and 10 chunks that stand together in the input; apart from
    requests the run only sleeps.  For the empty list, and when the
    configuration cannot be had, nothing is requested at all.  It never
    writes to the table.  It raises [ValueError] exactly for the empty
    list, before anything else happens, and otherwise only
    [EmbeddingGenerationError]. *)
Theorem generate_embeddings_requests chunks w :
  (∃ evs,
     trace (generate_embeddings E chunks w).2 = trace w ++ evs ∧
     match chunks, (load_configuration E w).1 with
     | _ :: _, Return cfg =>
         Forall (batch_event (embedding_model cfg) chunks) evs
     | _, _ => evs = []
     end) ∧
  documents (generate_embeddings E chunks w).2 = documents w ∧
  match (generate_embeddings E chunks w).1 with
  | Return _ => chunks ≠ []
  | Raise e =>
      (chunks = [] ∧ exn_cls e = ValueError
       ∧ (generate_embeddings E chunks w).2 = w) ∨
      (chunks ≠ [] ∧ exn_cls e = EmbeddingGenerationError)
  end.
Proof.
  split; [apply generate_embeddings_batch_events|]. split.
  - apply keeps_documents_generate_embeddings.
  - apply generate_embeddings_result.
Qed.

End RetryFacts.

(* ===================================================================== *)
(** ** search_documents.py: what a search returns and raises *)
(* ===================================================================== *)

Section SearchOutcome.

Context (E : env).

Implicit Types (rows : list row) (query embedding : vector) (query_norm : Q)
  (top_k limit : Z) (w : world) (c : connection) (qs : list vector).

Lemma score_row_cases query query_norm (r : row) :
  score_row query query_norm r = Return (scored_result query query_norm r) ∨
  ∃ msg, score_row query query_norm r = Raise (Exn Psycopg2Error msg).
Proof.
  unfold score_row, sql_div. destruct (Qeq_bool _ 0); [right|left]; [|done].
  by eexists.
Qed.

Lemma traverse_score_row_cases query query_norm rows :
  traverse (score_row query query_norm) rows
  = Return (map (scored_result query query_norm) rows) ∨
  ∃ msg, traverse (score_row query query_norm) rows
         = Raise (Exn Psycopg2Error msg).
Proof.
  induction rows as [|r rows IH]; [by left|]. cbn [traverse map].
  destruct (score_row_cases query query_norm r) as [->|[msg ->]];
    [|right; by exists msg].
  cbn [mbind res_bind]. destruct IH as [->|[msg ->]]; [by left|].
  right. by exists msg.
Qed.

Lemma select_similar_cases rows query query_norm limit :
  match select_similar rows query query_norm limit with
  | Return out =>
      out = take (Z.to_nat limit)
              (merge_sort score_ge
                 (map (scored_result query query_norm)
                    (List.filter norm_positive rows)))
  | Raise e => exn_cls e = Psycopg2Error
  end.
Proof.
  unfold select_similar.
  destruct (traverse_score_row_cases query query_norm
              (List.filter norm_positive rows)) as [->|[msg ->]]; [|done].
  cbn [mbind res_bind]. by destruct (limit <? 0)%Z.
Qed.

Lemma result_of_mono rows qs qs' x :
  qs ⊆ qs' → result_of E rows qs x → result_of E rows qs' x.
Proof.
  intros Hsub (q & r & Hq & Hr). exists q, r. split; [by apply Hsub | done].
Qed.

Lemma search_single_cases embedding c top_k w :
  documents (_search_single_embedding E embedding c top_k w).2 = documents w ∧
  match (_search_single_embedding E embedding c top_k w).1 with
  | Return out => Forall (result_of E (pending c) [embedding]) out
  | Raise e => exn_cls e = DatabaseSearchError
  end.
Proof.
  unfold _search_single_embedding. rewrite try_except_run. cbv zeta.
  destruct (Qeq_bool (np_norm E embedding) 0);
    [split; [done | by apply Forall_nil]|].
  rewrite bind_run.
  match goal with
  | |- context [db_action E ?ev w] =>
      destruct (db_action_cases E ev w) as [->|[msg ->]]; [|by split]
  end.
  unfold lift.
  pose proof (select_similar_cases (pending c) embedding (np_norm E embedding)
                top_k) as Hs.
  destruct (select_similar _ _ _ _) as [out|e].
  - split; [done|]. simpl. subst out. apply Forall_forall. intros x Hx.
    apply subseteq_take in Hx. rewrite merge_sort_Permutation in Hx.
    apply list_elem_of_fmap in Hx as (r & -> & Hr).
    apply list_elem_of_In, filter_In in Hr as [Hr Hpos].
    exists embedding, r. split; [by apply list_elem_of_singleton|].
    split; [by apply list_elem_of_In|].
    split; [by apply norm_positive_spec | done].
  - unfold caught_by. rewrite Hs. by split.
Qed.

Lemma search_each_cases c top_k : ∀ qs acc w,
  documents (search_each E c top_k qs acc w).2 = documents w ∧
  match (search_each E c top_k qs acc w).1 with
  | Return lists =>
      ∃ found, lists = acc ++ found ∧ length found = length qs ∧
               Forall (Forall (result_of E (pending c) qs)) found
  | Raise e => exn_cls e = DatabaseSearchError
  end.
Proof.
  induction qs as [|q qs IH]; intros acc w.
  - split; [done|]. exists []. by rewrite app_nil_r.
  - cbn [search_each]. rewrite bind_run.
    destruct (search_single_cases q c top_k w) as [Hd Hr].
    destruct (_search_single_embedding E q c top_k w) as [[out|e] w1];
      simpl in Hd, Hr; [|by split].
    destruct (IH (acc ++ [out]) w1) as [Hd' Hr'].
    destruct (search_each E c top_k qs (acc ++ [out]) w1) as [[lists|e] w2];
      simpl in Hd', Hr'; (split; [simpl; congruence|]); [|done].
    destruct Hr' as (found & -> & Hlen & Hall). exists (out :: found).
    rewrite <- (assoc_L (++)). split; [done|]. split; [simpl; lia|].
    constructor.
    + eapply Forall_impl; [exact Hr|]. intros x. apply result_of_mono.
      intros q' ->%list_elem_of_singleton. apply list_elem_of_here.
    + eapply Forall_impl; [exact Hall|]. intros l Hl.
      eapply Forall_impl; [exact Hl|]. intros x. apply result_of_mono.
      intros q' Hq'. by apply list_elem_of_further.
Qed.

(** The merge returns for every [top_k], with what [merge_seen] and the
    bound say of its result. *)
Lemma merge_returns lists top_k :
  ∃ out, _merge_search_results lists top_k = Return out ∧
         NoDup (map chunk_text out) ∧
         (∀ x, x ∈ out → x ∈ concat lists) ∧
         ((0 <= top_k)%Z → (Z.of_nat (length out) <= top_k)%Z).
Proof.
  destruct (merge_rounds_seen top_k (range top_k) lists)
    as (st' & Hr & Hinv & Hin & _).
  exists st'.1. unfold _merge_search_results. rewrite Hr.
  split; [done|]. split; [by apply merge_inv_NoDup|]. split.
  - intros x Hx. eapply rounds_entries_from_lists. by apply Hin.
  - intros Hk.
    destruct (merge_rounds_bounded top_k (range top_k) lists ([], ∅))
      as (st'' & Hr' & _ & Hlen); [apply merge_inv_init | simpl; lia |].
    congruence.
Qed.

Lemma similarity_search_run qs top_k w :
  documents (similarity_search E qs top_k w).2 = documents w ∧
  match (similarity_search E qs top_k w).1 with
  | Return out =>
      qs ≠ [] ∧ NoDup (map chunk_text out) ∧
      Forall (result_of E (documents w) qs) out ∧
      ((0 <= top_k)%Z → (Z.of_nat (length out) <= top_k)%Z)
  | Raise e =>
      (qs = [] ∧ e = Exn ValueError "Cannot search without embeddings"
       ∧ (similarity_search E qs top_k w).2 = w) ∨
      (qs ≠ [] ∧ exn_cls e = DatabaseSearchError)
  end.
Proof.
  destruct qs as [|q qs]; [split; [done | by left]|].
  unfold similarity_search. rewrite try_except_run, bind_run.
  destruct (get_db_connection_cases E w)
    as [(w1 & -> & Hd1)|(e & w1 & -> & Hcls & Hd1)].
  2:{ unfold caught_by. rewrite Hcls. simpl. split; [done | by right]. }
  rewrite bind_run.
  destruct (ensure_database_schema_cases E (Connection (documents w)) w1)
    as [(w2 & -> & Hd2)|(e & w2 & -> & Hcls & Hd2)].
  2:{ rewrite Hcls. simpl. split; [congruence | by right]. }
  rewrite bind_run.
  destruct (search_each_cases (Connection (documents w)) top_k (q :: qs) [] w2)
    as [Hd3 Hr3].
  destruct (search_each E _ top_k (q :: qs) [] w2) as [[lists|e] w3];
    simpl in Hd3, Hr3.
  2:{ unfold caught_by. rewrite Hr3. simpl. split; [by rewrite Hd3, Hd2 | by right]. }
  destruct Hr3 as (found & -> & Hlen & Hall). cbn [app]. unfold lift.
  destruct (merge_returns found top_k) as (out & -> & Hnd & Hin & Hbound).
  simpl. split; [by rewrite Hd3, Hd2|].
  split; [done|]. split; [done|]. split; [|done].
  apply Forall_forall. intros x Hx. apply Hin in Hx.
  apply list_elem_of_In, in_concat in Hx as (l & Hl & Hx).
  apply list_elem_of_In in Hl, Hx.
  rewrite Forall_forall in Hall. specialize (Hall l Hl).
  rewrite Forall_forall in Hall. by apply Hall.
Qed.

Lemma emits_weaken {A} (P P' : event → Prop) (m : M A) :
  (∀ ev, P ev → P' ev) → emits P m → emits P' m.
Proof.
  intros HP Hm w'. destruct (Hm w') as (evs & Ht & Hevs). exists evs.
  split; [done|]. by eapply Forall_impl.
Qed.

Lemma emits_search_single embedding c top_k :
  emits search_event (_search_single_embedding E embedding c top_k).
Proof.
  apply emits_try_except; [|intros e; apply emits_raise]. cbv zeta.
  destruct (Qeq_bool _ 0); [apply emits_ret|].
  apply emits_bind; [by apply emits_db_action|]. intros _. apply emits_lift.
Qed.

Lemma emits_search_each c top_k qs : ∀ acc,
  emits search_event (search_each E c top_k qs acc).
Proof.
  induction qs as [|q qs IH]; intros acc; [apply emits_ret|].
  cbn [search_each]. apply emits_bind; [apply emits_search_single|].
  intros out. apply IH.
Qed.

Lemma emits_similarity_search qs top_k :
  emits search_event (similarity_search E qs top_k).
Proof.
  destruct qs as [|q qs]; [apply emits_raise|].
  apply emits_try_except; [|intros e; apply emits_raise].
  apply emits_bind; [by apply emits_get_db_connection|]. intros c.
  apply emits_bind; [by apply emits_ensure_database_schema|]. intros _.
  apply emits_bind; [apply emits_search_each|]. intros lists.
  apply emits_lift.
Qed.

(** X18: [similarity_search] only reads.  Whatever the database does, the table
    is as it was afterwards, and all that is sent to the database are the
    connection, the schema statements with their commit, and SELECT
    statements.  It raises [ValueError] exactly for the empty list of
    vectors, before anything is contacted, and otherwise only
    [DatabaseSearchError].  When it returns, no chunk text is in the result
    twice, every result is the score of a stored row with a positive norm
    against one of the query vectors, and for [top_k >= 0] there are at
    most [top_k] results. *)
Theorem similarity_search_outcome qs top_k w :
  documents (similarity_search E qs top_k w).2 = documents w ∧
  (∃ evs, trace (similarity_search E qs top_k w).2 = trace w ++ evs ∧
          Forall search_event evs) ∧
  match (similarity_search E qs top_k w).1 with
  | Return out =>
      qs ≠ [] ∧ NoDup (map chunk_text out) ∧
      Forall (result_of E (documents w) qs) out ∧
      ((0 <= top_k)%Z → (Z.of_nat (length out) <= top_k)%Z)
  | Raise e =>
      (qs = [] ∧ e = Exn ValueError "Cannot search without embeddings"
       ∧ (similarity_search E qs top_k w).2 = w) ∨
      (qs ≠ [] ∧ exn_cls e = DatabaseSearchError)
  end.
Proof.
  destruct (similarity_search_run qs top_k w) as [Hdocs Hres].
  split; [done|]. split; [|done]. apply emits_similarity_search.
Qed.

End SearchOutcome.

Section QueryFacts.

Context (E : env) (format_1f : Q → string).

Implicit Types (w : world) (query user_question : string).

Lemma create_query_embeddings_run query w :
  documents (create_query_embeddings E query w).2 = documents w ∧
  match (create_query_embeddings E query w).1 with
  | Return (chunks, embeddings) =>
      chunk_by_paragraphs query = Return chunks ∧ chunks ≠ [] ∧
      generate_embeddings E chunks w
      = (Return embeddings, (create_query_embeddings E query w).2)
  | Raise e =>
      (blank query = true ∧
       e = Exn ValueError "Invalid query: Cannot chunk empty text" ∧
       (create_query_embeddings E query w).2 = w) ∨
      (blank query = false ∧ exn_cls e = EmbeddingError)
  end.
Proof.
  unfold create_query_embeddings. rewrite try_except_all_run, bind_run.
  unfold lift. destruct (blank query) eqn:Hb.
  { rewrite chunk_by_paragraphs_blank by done. split; [done | by left]. }
  rewrite chunk_by_paragraphs_nonblank by done. rewrite bind_run.
  pose proof (keeps_documents_generate_embeddings E
                (cleaned (split_nn query)) w) as Hd.
  pose proof (generate_embeddings_result E (cleaned (split_nn query)) w) as Hr.
  destruct (generate_embeddings E (cleaned (split_nn query)) w)
    as [[embeddings|e] w1] eqn:Hgen; simpl in Hd, Hr.
  - split; [done|]. simpl. split; [done|]. split; [|exact Hgen].
    by rewrite cleaned_split_nil, Hb.
  - destruct Hr as [(Hnil & _)|(_ & Hcls)].
    { apply cleaned_split_nil in Hnil. congruence. }
    unfold caught_by. rewrite Hcls. simpl. split; [done | by right].
Qed.

Lemma emits_create_query_embeddings query :
  emits embed_event (create_query_embeddings E query).
Proof.
  apply emits_try_except_all.
  - apply emits_bind; [apply emits_lift|]. intros chunks.
    apply emits_bind; [apply emits_generate_embeddings|]. intros embeddings.
    apply emits_ret.
  - intros e. destruct (caught_by [ValueError] e); [apply emits_raise|].
    destruct (caught_by [EmbeddingGenerationError] e); apply emits_raise.
Qed.

(** X21: [create_query_embeddings] raises [ValueError] exactly for a query that
    is empty or all whitespace, with the message "Invalid query: Cannot
    chunk empty text" and before anything is contacted; every other
    failure is an [EmbeddingError].  What it returns are the chunks of the
    query, at least one, together with the vectors that
    [generate_embeddings] returns for these chunks, and the world is the
    one that call left.  It never writes to the table, and all it does
    besides is to call the embedding service and to sleep. *)
Theorem create_query_embeddings_outcome query w :
  documents (create_query_embeddings E query w).2 = documents w ∧
  (∃ evs, trace (create_query_embeddings E query w).2 = trace w ++ evs ∧
          Forall embed_event evs) ∧
  match (create_query_embeddings E query w).1 with
  | Return (chunks, embeddings) =>
      chunk_by_paragraphs query = Return chunks ∧ chunks ≠ [] ∧
      generate_embeddings E chunks w
      = (Return embeddings, (create_query_embeddings E query w).2)
  | Raise e =>
      (blank query = true ∧
       e = Exn ValueError "Invalid query: Cannot chunk empty text" ∧
       (create_query_embeddings E query w).2 = w) ∨
      (blank query = false ∧ exn_cls e = EmbeddingError)
  end.
Proof.
  destruct (create_query_embeddings_run query w) as [Hdocs Hres].
  split; [done|]. split; [|done]. apply emits_create_query_embeddings.
Qed.

Lemma emits_search_query user_question :
  emits (λ ev, embed_event ev ∨ search_event ev)
    (search_query E format_1f user_question).
Proof.
  apply emits_try_except_all; [|intros e; apply emits_ret].
  apply emits_try_except; [|intros e; apply emits_ret].
  apply emits_bind.
  { eapply emits_weaken; [|apply emits_create_query_embeddings]. by left. }
  intros [chunks embeddings]. apply emits_bind; [|intros r; apply emits_ret].
  eapply emits_weaken; [|apply emits_similarity_search]. by right.
Qed.

Lemma search_query_run user_question w :
  ∃ text w',
    search_query E format_1f user_question w = (Return text, w') ∧
    documents w' = documents w ∧
    (blank user_question = true →
     text = "Search failed: Invalid query: Cannot chunk empty text" ∧ w' = w).
Proof.
  unfold search_query. rewrite try_except_all_run, try_except_run, bind_run.
  destruct (create_query_embeddings_run user_question w) as [Hd Hr].
  destruct (create_query_embeddings E user_question w)
    as [[[chunks embeddings]|e] w1]; simpl in Hd, Hr.
  - rewrite bind_run.
    destruct (similarity_search_run E embeddings 5 w1) as [Hd' Hr'].
    destruct (similarity_search E embeddings 5 w1) as [[results|e] w2];
      simpl in Hd', Hr'.
    + eexists _, _. split; [done|]. split; [congruence|].
      intros Hb. destruct Hr as [Hc _].
      by rewrite chunk_by_paragraphs_blank in Hc.
    + assert (Hcaught : caught_by [ValueError; EmbeddingError; DatabaseSearchError]
                          e = true).
      { unfold caught_by.
        destruct Hr' as [(_ & -> & _)|(_ & ->)]; apply bool_decide_eq_true;
          apply list_elem_of_In; simpl; auto. }
      rewrite Hcaught. eexists _, _. split; [done|]. split; [congruence|].
      intros Hb. destruct Hr as [Hc _].
      by rewrite chunk_by_paragraphs_blank in Hc.
  - destruct Hr as [(Hb & -> & ->)|(Hb & Hcls)].
    + eexists _, _. split; [done|]. split; [done|]. by intros _.
    + unfold caught_by. rewrite Hcls. simpl.
      eexists _, _. split; [done|]. split; [done|]. congruence.
Qed.

(** X22: [search_query] never raises and never changes the table, whatever the
    embedding service and the database do: all it does is to call the
    embedding service, to sleep, and to send the database what a search
    sends.  For a question that is empty or all whitespace it answers
    "Search failed: Invalid query: Cannot chunk empty text" and contacts
    nothing. *)
Theorem search_query_outcome user_question w :
  ∃ text w',
    search_query E format_1f user_question w = (Return text, w') ∧
    documents w' = documents w ∧
    (∃ evs, trace w' = trace w ++ evs ∧
            Forall (λ ev, embed_event ev ∨ search_event ev) evs) ∧
    (blank user_question = true →
     text = "Search failed: Invalid query: Cannot chunk empty text" ∧ w' = w).
Proof.
  destruct (search_query_run user_question w) as (text & w' & Hrun & Hd & Hb).
  exists text, w'. split; [done|]. split; [done|]. split; [|done].
  destruct (emits_search_query user_question w) as (evs & Ht & Hevs).
  rewrite Hrun in Ht. by exists evs.
Qed.

End QueryFacts.

Section MergeOrder.

Implicit Types (st : merge_state) (y x : result) (V : list result)
  (lists : list (list result)) (top_k : Z).

(** While the chunk texts seen are all different, the result is the list of
    the entries seen, cut at [top_k]. *)
Lemma merge_visit_fresh top_k V st y :
  merge_inv st ∧
  (NoDup (map chunk_text V) → st.1 = take (Z.to_nat top_k) V) →
  merge_full top_k st = false →
  ∃ st', merge_visit y st = Return st' ∧
         merge_inv st' ∧
         (NoDup (map chunk_text (V ++ [y])) →
          st'.1 = take (Z.to_nat top_k) (V ++ [y])).
Proof.
  intros [Hinv Heq] Hfull. apply merge_full_false in Hfull.
  destruct (merge_visit_cases y st Hinv)
    as [(i & x & Hs & Hx & Ht & ->) | (Hs & ->)].
  - eexists. split; [done|]. split.
    + destruct (Qgt_bool _ _); [by eapply merge_inv_replace | done].
    + intros Hnd. exfalso. rewrite map_app in Hnd.
      apply NoDup_app in Hnd as (Hnd & Hdisj & _). specialize (Heq Hnd).
      apply (Hdisj (chunk_text y)).
      * rewrite <- Ht. apply list_elem_of_fmap. exists x. split; [done|].
        apply (subseteq_take (Z.to_nat top_k)). rewrite <- Heq.
        by eapply list_elem_of_lookup_2.
      * simpl. apply list_elem_of_here.
  - eexists. split; [done|]. split; [by apply merge_inv_append|].
    intros Hnd. simpl. rewrite map_app in Hnd.
    apply NoDup_app in Hnd as (Hnd & _ & _). specialize (Heq Hnd).
    rewrite Heq in Hfull. rewrite length_take in Hfull.
    rewrite Heq, !take_ge; [done | rewrite length_app; simpl; lia | lia].
Qed.

Lemma merge_rounds_fresh top_k rounds lists :
  ∃ st', merge_rounds top_k rounds lists ([], ∅) = Return st' ∧
         (NoDup (map chunk_text (rounds_entries rounds lists)) →
          st'.1 = take (Z.to_nat top_k) (rounds_entries rounds lists)).
Proof.
  destruct (merge_rounds_keeps top_k
              (λ V st, merge_inv st ∧
                       (NoDup (map chunk_text V) →
                        st.1 = take (Z.to_nat top_k) V)))
    with (rounds := rounds) (lists := lists) (V := @nil result)
         (st := (@nil result, ∅ : gmap string nat))
    as (st' & Hr & _ & HQ); [| | |by exists st'].
  - intros V st y. apply merge_visit_fresh.
  - intros V V' st [Hinv Heq] Hfull. split; [done|]. intros Hnd.
    rewrite map_app in Hnd. apply NoDup_app in Hnd as (Hnd & _ & _).
    specialize (Heq Hnd). apply merge_full_true in Hfull.
    rewrite Heq, length_take in Hfull.
    rewrite Heq, take_app_le; [done | lia].
  - split; [apply merge_inv_init|]. intros _. simpl. by rewrite take_nil.
Qed.

(** X20: The order of the merge.  When the entries the rounds reach have
    different chunk texts, the result is these entries in the order of
    the rounds (round 0: the first entry of each list that has one, in the
    order of the lists; round 1: the second entries; ...), cut after
    [top_k] of them. *)
Theorem merge_round_robin lists top_k :
  NoDup (map chunk_text (rounds_entries (range top_k) lists)) →
  _merge_search_results lists top_k
  = Return (take (Z.to_nat top_k) (rounds_entries (range top_k) lists)).
Proof.
  intros Hnd.
  destruct (merge_rounds_fresh top_k (range top_k) lists) as (st' & Hr & Heq).
  unfold _merge_search_results. rewrite Hr. cbn [mbind res_bind].
  by rewrite (Heq Hnd).
Qed.

End MergeOrder.

Lemma merge_round_robin_example :
  _merge_search_results [[ex_a 0.9; ex_b 0.5]; [ex_c 0.6]] 2
  = Return [ex_a 0.9; ex_c 0.6].
Proof.
  apply (merge_round_robin [[ex_a 0.9; ex_b 0.5]; [ex_c 0.6]] 2).
  apply (bool_decide_unpack _). by vm_compute.
Defined.

Section SearchBest.

Context (E : env).

Implicit Types (rows : list row) (query embedding : vector) (query_norm : Q)
  (top_k limit : Z) (w : world) (c : connection).

Lemma select_similar_eq rows query query_norm limit :
  ¬ (query_norm == 0)%Q → (0 <= limit)%Z →
  select_similar rows query query_norm limit
  = Return (take (Z.to_nat limit)
              (merge_sort score_ge
                 (map (scored_result query query_norm)
                    (List.filter norm_positive rows)))).
Proof.
  intros Hq Hl. unfold select_similar.
  rewrite traverse_score_rows by (by apply scoring_divisors).
  cbn [mbind res_bind]. destruct (limit <? 0)%Z eqn:Hneg; [lia | done].
Qed.

(** X19: The search for one query vector returns the best rows.  For a query
    vector whose norm is not zero and [top_k >= 0], when the server
    answers the statement: the results and the scores left out make up
    the scores of all rows with a positive norm; the results are
    [top_k] of them, or all if there are fewer; they are in descending
    order; and no score left out is higher than a result. *)
Theorem search_single_best embedding c top_k w :
  ¬ (np_norm E embedding == 0)%Q → (0 <= top_k)%Z →
  db_fault E (trace w)
    (EvExecute (SelectSimilar embedding (np_norm E embedding) top_k)) = None →
  ∃ out rest w',
    _search_single_embedding E embedding c top_k w = (Return out, w') ∧
    out ++ rest ≡ₚ map (scored_result embedding (np_norm E embedding))
                     (List.filter norm_positive (pending c)) ∧
    length out
    = Z.to_nat top_k `min` length (List.filter norm_positive (pending c)) ∧
    sorted_desc out ∧
    (∀ x y, x ∈ out → y ∈ rest → score_ge x y).
Proof.
  intros Hq Hk Hdb.
  set (scores := map (scored_result embedding (np_norm E embedding))
                   (List.filter norm_positive (pending c))).
  assert (Hsorted : StronglySorted score_ge (merge_sort score_ge scores)).
  { apply StronglySorted_merge_sort; [apply score_ge_trans | apply score_ge_total]. }
  exists (take (Z.to_nat top_k) (merge_sort score_ge scores)),
         (drop (Z.to_nat top_k) (merge_sort score_ge scores)).
  eexists. split; [|split; [|split; [|split]]].
  - unfold _search_single_embedding. rewrite try_except_run. cbv zeta.
    destruct (Qeq_bool (np_norm E embedding) 0) eqn:Heq.
    { by apply Qeq_bool_iff in Heq. }
    rewrite bind_run, db_action_ok by done. unfold lift.
    by rewrite select_similar_eq.
  - by rewrite take_drop, merge_sort_Permutation.
  - rewrite length_take, merge_sort_Permutation. unfold scores.
    by rewrite length_map.
  - by apply StronglySorted_take.
  - intros x y [i Hi]%list_elem_of_lookup_1 [j Hj]%list_elem_of_lookup_1.
    apply lookup_take_Some in Hi as [Hi Hlt]. rewrite lookup_drop in Hj.
    eapply (StronglySorted_lookup_lt score_ge _ i (Z.to_nat top_k + j));
      [done | lia | done | done].
Qed.

End SearchBest.

Lemma search_single_best_example :
  ∃ out rest w',
    _search_single_embedding example_env [1; 0]%Q (Connection example_rows) 2
      example_world = (Return out, w') ∧
    out ++ rest ≡ₚ map (scored_result [1; 0]%Q (np_norm example_env [1; 0]%Q))
                     (List.filter norm_positive
                        (pending (Connection example_rows))) ∧
    length out
    = Z.to_nat 2 `min` length (List.filter norm_positive
                                 (pending (Connection example_rows))) ∧
    sorted_desc out ∧
    (∀ x y, x ∈ out → y ∈ rest → score_ge x y).
Proof.
  apply (search_single_best example_env [1; 0]%Q (Connection example_rows) 2
           example_world).
  - intros H. vm_compute in H. discriminate.
  - lia.
  - reflexivity.
Defined.

Section Requests.

Context (E : env).

Implicit Types (w : world) (model : string) (chunks : list string).

(** Every call of the remote service returns. *)
Hypothesis service_answers : ∀ h model content,
  ∃ vs, embed_content E h model content = Return vs.

Lemma embed_with_retry_once model content w :
  ∃ vs, _embed_with_retry E model content 3 w
        = (Return (Some vs), add_events w [EvEmbed model content]).
Proof.
  destruct (service_answers (trace w) model content) as (vs & Hvs).
  exists vs. unfold _embed_with_retry. cbn [seq].
  rewrite embed_attempts_cons. cbv zeta. by rewrite Hvs.
Qed.

Lemma batches_from_cons chunks i n :
  batches_from chunks i (S n)
  = slice chunks (i * BATCH_SIZE)
      ((i * BATCH_SIZE + BATCH_SIZE) `min` length chunks)
    :: batches_from chunks (S i) n.
Proof. reflexivity. Qed.

(** The batches from [i] on, the last of which ends the list: one request
    for each, a sleep after each but the last. *)
Lemma embed_batches_requests model chunks n : ∀ i acc w,
  (n = 0 ∨ (i + n - 1) * BATCH_SIZE < length chunks ≤ (i + n) * BATCH_SIZE) →
  ∃ vs,
    embed_batches E model chunks (map (λ j, j * BATCH_SIZE) (seq i n)) acc w
    = (Return vs,
       add_events w (batch_requests model (batches_from chunks i n))).
Proof.
  induction n as [|n IH]; intros i acc w Hn.
  - exists acc. by rewrite add_events_nil.
  - destruct Hn as [Hn|Hn]; [done|].
    cbn [seq map embed_batches]. rewrite bind_run.
    destruct (embed_with_retry_once model
                (slice chunks (i * BATCH_SIZE)
                   ((i * BATCH_SIZE + BATCH_SIZE) `min` length chunks)) w)
      as (r & ->).
    rewrite bind_run, batches_from_cons. destruct n as [|n].
    + destruct (_ <? _)%nat eqn:Hlt; [apply Nat.ltb_lt in Hlt; lia|].
      by exists (acc ++ r).
    + destruct (_ <? _)%nat eqn:Hlt; [|apply Nat.ltb_ge in Hlt; lia].
      unfold sleep, emit.
      match goal with
      | |- context [embed_batches E model chunks _ ?acc' ?w'] =>
          destruct (IH (S i) acc' w') as (vs & Hvs); [right; lia|]
      end.
      exists vs. rewrite Hvs, batches_from_cons, !add_events_add. done.
Qed.

Lemma batches_from_concat chunks n :
  concat (batches_from chunks 0 n) = take (n * BATCH_SIZE) chunks.
Proof.
  unfold batches_from. induction n as [|n IH]; [by rewrite take_0|].
  rewrite seq_S, map_app, concat_app, IH. cbn [map concat plus].
  rewrite app_nil_r, take_next_batch. f_equal. lia.
Qed.

Lemma batch_count len :
  let n := (len + BATCH_SIZE - 1) / BATCH_SIZE in
  len ≤ n * BATCH_SIZE ∧ (0 < len → (n - 1) * BATCH_SIZE < len).
Proof.
  cbv zeta. unfold BATCH_SIZE.
  pose proof (Nat.div_mod_eq (len + 10 - 1) 10) as Hd.
  pose proof (Nat.mod_upper_bound (len + 10 - 1) 10) as Hm.
  lia.
Qed.

(** X16: With the settings at hand and a service that answers every call,
    [generate_embeddings] sends every chunk once: the requests carry the
    chunks ten at a time, in their order, each batch being requested once;
    it sleeps 0.1 s between two requests and not after the last; and it
    does nothing else. *)
Theorem generate_embeddings_one_request_per_batch chunks w cfg w0 :
  load_configuration E w = (Return cfg, w0) → chunks ≠ [] →
  let batches :=
    batches_from chunks 0 ((length chunks + BATCH_SIZE - 1) / BATCH_SIZE) in
  concat batches = chunks ∧
  ∃ vs, generate_embeddings E chunks w
        = (Return vs,
           add_events w0 (batch_requests (embedding_model cfg) batches)).
Proof.
  intros Hcfg Hne. cbv zeta.
  destruct (batch_count (length chunks)) as [Hle Hgt]. split.
  - rewrite batches_from_concat. by apply take_ge.
  - destruct chunks as [|chunk chunks]; [done|].
    unfold generate_embeddings. rewrite bind_run, try_except_all_run, Hcfg.
    rewrite try_except_all_run, range_step_batches.
    generalize dependent (chunk :: chunks). clear chunk chunks.
    intros chunks Hne Hle Hgt.
    destruct (embed_batches_requests (embedding_model cfg) chunks
                ((length chunks + BATCH_SIZE - 1) / BATCH_SIZE) 0 [] w0)
      as (vs & ->).
    + right. destruct chunks; [done|]. simpl in Hgt, Hle |- *. lia.
    + by exists vs.
Qed.

End Requests.

Lemma generate_embeddings_eleven_chunks_requests :
  let batches :=
    batches_from eleven_chunks 0
      ((length eleven_chunks + BATCH_SIZE - 1) / BATCH_SIZE) in
  concat batches = eleven_chunks ∧
  ∃ vs, generate_embeddings example_env eleven_chunks empty_world
        = (Return vs,
           add_events (load_configuration example_env empty_world).2
             (batch_requests "models/embedding-001" batches)).
Proof.
  apply (generate_embeddings_one_request_per_batch example_env
           (λ h model content, ex_intro _ _ eq_refl)
           eleven_chunks empty_world
           (Config "secret" "postgresql://db" "models/embedding-001")
           (load_configuration example_env empty_world).2).
  - reflexivity.
  - discriminate.
Defined.

(* ===================================================================== *)
(** ** utils/db_utils.py: the connection and the schema *)
(* ===================================================================== *)

Section Schema.

Context (E : env).

Implicit Types (w : world) (c : connection).

(** X3: [get_db_connection] raises [DatabaseError] and nothing else: a setting
    that is missing comes out as [DatabaseError] too, and then the server
    is not contacted.  Otherwise it connects once, with the configured
    URL.  The connection it returns sees the committed rows, and no row
    changes. *)
Theorem get_db_connection_outcome w :
  match get_db_connection E w with
  | (Return c, w') =>
      pending c = documents w ∧ documents w' = documents w ∧
      ∃ cfg, (load_configuration E w).1 = Return cfg ∧
             trace w' = trace w ++ [EvConnect (postgres_url cfg)]
  | (Raise e, w') =>
      exn_cls e = DatabaseError ∧ documents w' = documents w ∧
      String.prefix "Failed to get database connection: " (exn_str e) = true ∧
      match (load_configuration E w).1 with
      | Return cfg => trace w' = trace w ++ [EvConnect (postgres_url cfg)]
      | Raise _ => w' = w
      end
  end.
Proof.
  unfold get_db_connection. rewrite try_except_run, bind_run.
  pose proof (keeps_documents_load_configuration E w) as Hdoc.
  pose proof (load_configuration_same_trace E w) as Htr.
  destruct (load_configuration E w) as [[cfg|e] w0] eqn:Hcfg;
    simpl in Hdoc, Htr.
  - rewrite bind_run.
    destruct (db_action_cases E (EvConnect (postgres_url cfg)) w0)
      as [->|[msg ->]].
    + cbn. split; [done|]. split; [done|]. exists cfg. by rewrite Htr.
    + cbn. split; [done|]. split; [done|]. split; [apply prefix_app|].
      unfold add_events. simpl. by rewrite Htr.
  - assert (exn_cls e = ConfigurationError ∧ w0 = w) as [Hcls ->].
    { revert Hcfg. unfold load_configuration. destruct (_config w); [done|].
      destruct (getenv_truthy E "GEMINI_API_KEY"); [|by intros [= <- <-]].
      destruct (getenv_truthy E "EMBEDDING_MODEL"); [|by intros [= <- <-]].
      destruct (getenv_truthy E "POSTGRES_URL"); [done|by intros [= <- <-]]. }
    unfold caught_by. rewrite Hcls. cbn.
    split; [done|]. split; [done|]. split; [apply prefix_app | done].
Qed.

(** X4: [ensure_database_schema] sends its three statements in order and then
    commits; it stops at the first of the four that fails and rolls back,
    and no row has changed.  It then raises [DatabaseError], with a
    message that begins "Failed to ensure database schema: "; but when
    the rollback itself fails, what leaves the function is the
    [psycopg2.Error] of the rollback.  It raises nothing else, and where
    no rollback fails, [DatabaseError] only.  When it returns, the table
    holds the rows of the connection's transaction. *)
Theorem ensure_database_schema_outcome c w :
  let steps := [EvExecute CreateTable; EvExecute CreateDotProduct;
                EvExecute CreateVectorNorm; EvCommit] in
  match ensure_database_schema E c w with
  | (Return _, w') => documents w' = pending c ∧ trace w' = trace w ++ steps
  | (Raise e, w') =>
      documents w' = documents w ∧
      (∃ k, 1 ≤ k ≤ 4 ∧ trace w' = trace w ++ take k steps) ∧
      match rollback_fault E (trace w') with
      | None =>
          exn_cls e = DatabaseError ∧
          String.prefix "Failed to ensure database schema: " (exn_str e) = true
      | Some msg => e = Exn Psycopg2Error msg
      end ∧
      (exn_cls e = DatabaseError ∨ exn_cls e = Psycopg2Error) ∧
      ((∀ h, rollback_fault E h = None) → exn_cls e = DatabaseError)
  end.
Proof.
  cbv zeta. pose proof (ensure_database_schema_run E c w) as H.
  cbv zeta in H.
  destruct (ensure_database_schema E c w) as [[[]|e] w']; [done|].
  destruct H as (Hd & Hk & He). split; [done|]. split; [done|].
  split; [done|].
  destruct (rollback_fault E (trace w')) as [msg|] eqn:Hrb.
  - subst e. split; [by right|]. intros Hnone. by rewrite Hnone in Hrb.
  - destruct He as [-> _]. split; [by left | done].
Qed.

(** X5: The SQL function [dot_product] pairs the components by position and
    leaves out what only one array has: components of the second array
    beyond the length of the first change nothing, and no error is
    raised for arrays of different lengths.  It is symmetric. *)
Theorem dot_product_positions (a b surplus : vector) :
  length b ≤ length a →
  dot_product b (a ++ surplus) = dot_product b a ∧
  dot_product (a ++ surplus) b = dot_product a b ∧
  (dot_product a b == dot_product b a)%Q.
Proof.
  intros Hlen. unfold dot_product. split; [|split].
  - f_equal. revert a Hlen. induction b as [|x b IH]; intros [|y a] Hlen;
      simpl in *; try done; try lia. f_equal. apply IH. lia.
  - f_equal. revert a Hlen. induction b as [|x b IH]; intros [|y a] Hlen;
      simpl in *; try done; try lia.
    + by destruct surplus.
    + f_equal. apply IH. lia.
  - clear Hlen. revert b. induction a as [|x a IH]; intros [|y b]; simpl;
      try reflexivity.
    rewrite IH. ring.
Qed.

End Schema.

Lemma dot_product_positions_example :
  dot_product [3; 4]%Q ([1; 2] ++ [5])%Q = dot_product [3; 4]%Q [1; 2]%Q ∧
  dot_product ([1; 2] ++ [5])%Q [3; 4]%Q = dot_product [1; 2]%Q [3; 4]%Q ∧
  (dot_product [1; 2]%Q [3; 4]%Q == dot_product [3; 4]%Q [1; 2]%Q)%Q.
Proof.
  apply (dot_product_positions [1; 2]%Q [3; 4]%Q [5]%Q). simpl. lia.
Defined.

(* ===================================================================== *)
(** ** Examples *)
(* ===================================================================== *)

Lemma example_db_reliable : db_reliable example_env.
Proof. intros h ev. reflexivity. Qed.

Lemma delete_document_data_example :
  ∃ w', delete_document_data example_env (Some "other.pdf") example_world
        = (Return true, w') ∧
        documents w'
        = rows_after_delete (Some "other.pdf") (documents example_world) ∧
        (∀ f, Some "other.pdf" = Some f → f ≠ "" →
              Forall (λ r, row_filename r ≠ f) (documents example_world) →
              documents w' = documents example_world).
Proof.
  apply (delete_document_data_succeeds example_env (Some "other.pdf")
           example_world).
  - apply example_db_reliable.
  - apply example_configured.
Defined.

Lemma store_chunks_to_db_example :
  ∃ (b : bool) w',
    store_chunks_to_db example_env ["D"] [[1; 1]%Q] "doc.pdf" "paragraph"
      example_world = (Return b, w') ∧
    (b = true ↔ ["D"] ≠ [] ∧ length ["D"] = length [[1; 1]%Q]
                ∧ blank "doc.pdf" = false).
Proof.
  apply (store_chunks_to_db_succeeds example_env ["D"] [[1; 1]%Q] "doc.pdf"
           "paragraph" example_world).
  - apply example_db_reliable.
  - apply example_configured.
Defined.

Lemma process_document_reindex_example :
  let w' := (process_document example_env "doc.pdf" example_world).2 in
  ∃ w1 text w2 chunks embeddings w3 rows,
    delete_document_data example_env (Some "doc.pdf") example_world
    = (Return true, w1) ∧
    load_document example_env "doc.pdf" w1 = (Return text, w2) ∧
    chunk_by_paragraphs text = Return chunks ∧
    generate_embeddings example_env chunks w2 = (Return embeddings, w3) ∧
    map row_chunk_text rows = chunks ∧
    map row_embedding rows = embeddings ∧
    Forall (λ r, row_filename r = "doc.pdf" ∧
                 row_split_strategy r = "paragraph" ∧
                 row_embedding_norm r
                 = vector_norm example_env (row_embedding r))
           rows ∧
    List.filter (λ r, String.eqb (row_filename r) "doc.pdf") (documents w')
    = rows ∧
    List.filter (λ r, negb (String.eqb (row_filename r) "doc.pdf"))
      (documents w')
    = List.filter (λ r, negb (String.eqb (row_filename r) "doc.pdf"))
        (documents example_world) ∧
    documents w' =
      List.filter (λ r, negb (String.eqb (row_filename r) "doc.pdf"))
        (documents example_world) ++ rows.
Proof.
  apply (process_document_one_generation example_env "doc.pdf" example_world).
  - discriminate.
  - vm_compute. reflexivity.
Defined.

(* ===================================================================== *)
(** ** Whitespace around a text, and DOCX paragraphs *)
(* ===================================================================== *)

Section ChunkSpace.

Implicit Types (s t a b cur p text pre post : string) (c d w : ascii)
  (X chunks : list string).

Lemma blank_space c : isspace c = true → blank (String c "") = true.
Proof. intros H. rewrite blank_all_space. simpl. by rewrite H. Qed.

(** A whitespace character in front of a text changes no chunk. *)
Lemma cleaned_split_space c s :
  isspace c = true →
  cleaned (split_nn (String c s)) = cleaned (split_nn s).
Proof.
  intros Hc. destruct (is_newline c) eqn:Hn.
  { apply bool_decide_eq_true in Hn. subst c. apply cleaned_split_newline. }
  destruct s as [|d s].
  - change (split_nn (String c "")) with [String c ""].
    change (split_nn "") with [""].
    by rewrite !cleaned_single, blank_space, blank_empty.
  - rewrite split_nn_cons2, Hn. cbn [andb].
    apply cleaned_cons_hd_space; [done | apply split_nn_nonempty].
Qed.

Lemma cleaned_split_spaces_before pre s :
  all_space pre = true →
  cleaned (split_nn (pre +:+ s)) = cleaned (split_nn s).
Proof.
  induction pre as [|c pre IH]; [done|]. cbn [all_space].
  intros [Hc Hpre]%andb_true_iff.
  rewrite str_app_cons, cleaned_split_space by done. by apply IH.
Qed.

Lemma cleaned_prepend_space cur w :
  isspace w = true →
  cleaned [cur +:+ String w ""] = cleaned [cur].
Proof.
  intros Hw. rewrite !cleaned_single, blank_app, blank_space by done.
  rewrite andb_true_r. by rewrite strip_app_space.
Qed.

(** A whitespace character behind a text changes no chunk. *)
Lemma cleaned_split_space_behind w s :
  isspace w = true → ∀ cur,
  cleaned (prepend cur (split_nn (s +:+ String w ""))) =
  cleaned (prepend cur (split_nn s)).
Proof.
  intros Hw.
  induction s as [| c | c d s IHs IHd] using string_ind2; intros cur.
  - rewrite str_app_nil_l.
    change (split_nn (String w "")) with [String w ""].
    change (split_nn "") with [""]. cbn [prepend].
    by rewrite str_app_nil_r, cleaned_prepend_space.
  - rewrite str_app_cons, str_app_nil_l, split_nn_cons2.
    change (split_nn (String w "")) with [String w ""].
    change (split_nn (String c "")) with [String c ""].
    destruct (is_newline c && is_newline w) eqn:Hcw; cbn [prepend cons_hd].
    + apply andb_true_iff in Hcw as [Hc%is_newline_space _].
      rewrite (cleaned_cons (cur +:+ "")), str_app_nil_r.
      change (cleaned [""]) with (@nil string). rewrite app_nil_r.
      by rewrite cleaned_prepend_space.
    + change (String c (String w "")) with (String c "" +:+ String w "").
      by rewrite <- str_app_assoc, cleaned_prepend_space.
  - rewrite !str_app_cons, !split_nn_cons2.
    destruct (is_newline c && is_newline d).
    + cbn [prepend].
      rewrite (cleaned_cons _ (split_nn _)), (cleaned_cons _ (split_nn s)).
      specialize (IHs ""). rewrite !prepend_empty in IHs. by rewrite IHs.
    + rewrite !prepend_cons_hd, <- str_app_cons. apply IHd.
Qed.

Lemma cleaned_split_spaces_behind post : ∀ s,
  all_space post = true →
  cleaned (split_nn (s +:+ post)) = cleaned (split_nn s).
Proof.
  induction post as [|w post IH]; intros s; [by rewrite str_app_nil_r|].
  cbn [all_space]. intros [Hw Hpost]%andb_true_iff.
  change (String w post) with (String w "" +:+ post).
  rewrite <- str_app_assoc, IH by done.
  pose proof (cleaned_split_space_behind w s Hw "") as H.
  by rewrite !prepend_empty in H.
Qed.

Lemma lstrip_decomp s : ∃ pre, all_space pre = true ∧ s = pre +:+ lstrip s.
Proof.
  induction s as [|c s (pre & Hpre & IH)]; [by exists ""|].
  cbn [lstrip]. destruct (isspace c) eqn:Hc; [|by exists ""].
  exists (String c pre). cbn [all_space]. rewrite Hc, Hpre.
  split; [done|]. by rewrite str_app_cons, <- IH.
Qed.

Lemma rstrip_decomp s : ∃ post, all_space post = true ∧ s = rstrip s +:+ post.
Proof.
  induction s as [|c s (post & Hpost & IH)]; [by exists ""|].
  cbn [rstrip]. cbv zeta.
  destruct (str_empty (rstrip s) && isspace c) eqn:Hc.
  - apply andb_true_iff in Hc as [He Hc]. exists (String c s).
    split; [|by rewrite str_app_nil_l]. cbn [all_space]. rewrite Hc.
    destruct (rstrip s); [|done]. rewrite str_app_nil_l in IH. by subst.
  - exists post. split; [done|]. by rewrite str_app_cons, <- IH.
Qed.

Lemma chunk_by_paragraphs_ext a b :
  blank a = blank b → cleaned (split_nn a) = cleaned (split_nn b) →
  chunk_by_paragraphs a = chunk_by_paragraphs b.
Proof.
  intros Hb Hc. unfold chunk_by_paragraphs.
  by rewrite !chunk_guard, !split_nn_eq, Hb, Hc.
Qed.

Lemma chunk_by_paragraphs_around pre text post :
  all_space pre = true → all_space post = true →
  chunk_by_paragraphs (pre +:+ text +:+ post) = chunk_by_paragraphs text.
Proof.
  intros Hpre Hpost. apply chunk_by_paragraphs_ext.
  - rewrite !blank_app, !blank_all_space, Hpre, Hpost.
    by rewrite andb_true_r.
  - rewrite cleaned_split_spaces_before by done.
    by apply cleaned_split_spaces_behind.
Qed.

(** X17: Whitespace around a text changes nothing for the chunker: with
    whitespace put before and behind, and with the text stripped, the
    outcome is the same, be it the chunks or the error. *)
Theorem chunk_by_paragraphs_surrounding_space pre text post :
  all_space pre = true → all_space post = true →
  chunk_by_paragraphs (pre +:+ text +:+ post) = chunk_by_paragraphs text ∧
  chunk_by_paragraphs (strip text) = chunk_by_paragraphs text.
Proof.
  intros Hpre Hpost. split; [by apply chunk_by_paragraphs_around|].
  destruct (lstrip_decomp text) as (pre' & Hpre' & Hl).
  destruct (rstrip_decomp (lstrip text)) as (post' & Hpost' & Hr).
  rewrite Hl at 2. rewrite Hr. symmetry.
  by apply chunk_by_paragraphs_around.
Qed.

(** *** DOCX paragraphs *)

Lemma cleaned_split_join_any X :
  cleaned (split_nn (join nn X))
  = concat (map (λ p, cleaned (split_nn p)) X).
Proof.
  induction X as [|p X IH]; [done|]. destruct X as [|q X].
  - simpl. by rewrite app_nil_r.
  - change (join nn (p :: q :: X)) with (p +:+ nn +:+ join nn (q :: X)).
    pose proof (cleaned_split_nn_app p "" (join nn (q :: X))) as H.
    rewrite !prepend_empty in H. by rewrite H, IH.
Qed.

Lemma concat_cleaned_filter X :
  concat (map (λ p, cleaned (split_nn p))
            (List.filter (λ text, negb (str_empty (strip text))) X))
  = concat (map (λ p, cleaned (split_nn p)) X).
Proof.
  induction X as [|p X IH]; [done|]. cbn [List.filter map concat].
  destruct (str_empty (strip p)) eqn:Hp; cbn [negb map concat];
    [|by rewrite IH].
  rewrite IH. assert (cleaned (split_nn p) = []) as ->; [|done].
  by apply cleaned_split_nil.
Qed.

Lemma join_blank X :
  blank (join nn X) = forallb blank X.
Proof.
  induction X as [|p X IH]; [done|]. destruct X as [|q X].
  - simpl. by rewrite andb_true_r.
  - change (join nn (p :: q :: X)) with (p +:+ nn +:+ join nn (q :: X)).
    rewrite !blank_app, IH. cbn [forallb].
    change (blank nn) with true. done.
Qed.

Lemma forallb_blank_filter X :
  forallb blank (List.filter (λ text, negb (str_empty (strip text))) X)
  = forallb blank X.
Proof.
  induction X as [|p X IH]; [done|]. cbn [List.filter forallb].
  unfold blank at 2. destruct (str_empty (strip p)) eqn:Hp; cbn [negb andb].
  - done.
  - cbn [forallb]. unfold blank at 1. by rewrite Hp.
Qed.

(** X11: What becomes of the paragraphs of a DOCX file.  When every paragraph
    is blank the text [_extract_docx_text] returns is empty.  Otherwise
    the chunker returns for it the chunks of the paragraphs, one paragraph
    after the other; and where no paragraph has an empty line inside,
    these are the paragraphs that are not blank, each one chunk, its text
    stripped. *)
Theorem extract_docx_text_chunks paragraph_texts :
  (forallb blank paragraph_texts = true →
   _extract_docx_text paragraph_texts = "") ∧
  (forallb blank paragraph_texts = false →
   chunk_by_paragraphs (_extract_docx_text paragraph_texts)
   = Return (concat (map (λ p, cleaned (split nn p)) paragraph_texts))) ∧
  (Forall (λ p, no_nn p = true) paragraph_texts →
   concat (map (λ p, cleaned (split nn p)) paragraph_texts)
   = map strip (List.filter (λ p, negb (blank p)) paragraph_texts)).
Proof.
  split; [|split].
  - intros Hall. unfold _extract_docx_text.
    rewrite List_filter_none; [done|].
    apply Forall_forall. intros p Hp%list_elem_of_In.
    rewrite forallb_forall in Hall. specialize (Hall p Hp).
    unfold blank in Hall. by rewrite Hall.
  - intros Hsome. rewrite chunk_by_paragraphs_nonblank.
    + unfold _extract_docx_text.
      rewrite cleaned_split_join_any, concat_cleaned_filter. f_equal.
      f_equal. apply map_ext. intros p. by rewrite split_nn_eq.
    + unfold _extract_docx_text. by rewrite join_blank, forallb_blank_filter.
  - induction 1 as [|p X Hp HX IH]; [done|].
    cbn [map concat List.filter]. rewrite IH, split_nn_eq.
    rewrite split_nn_no_nn, cleaned_single by done.
    by destruct (blank p).
Qed.

End ChunkSpace.

Lemma chunk_by_paragraphs_surrounding_space_example :
  chunk_by_paragraphs ((" " +:+ String newline "") +:+ "a" +:+ "  ")
  = chunk_by_paragraphs "a" ∧
  chunk_by_paragraphs (strip "a") = chunk_by_paragraphs "a".
Proof.
  apply (chunk_by_paragraphs_surrounding_space
           (" " +:+ String newline "") "a" "  "); reflexivity.
Defined.

(* ===================================================================== *)
(** ** document_search_cli.py *)
(* ===================================================================== *)

Section CliFacts.

Context (int : string → option Z).

Implicit Types (max_option : Z) (keys rest : list key)
  (printed : list notice) (skipped : list string).

(** X23: [get_user_choice] returns the first choice typed that is a number
    from 1 to [max_option], and so a number in this range: every line
    before it was blank, not a number, or out of range, and each of these
    that was not blank got one notice.  Ctrl-C ends the program with exit
    code 0 after a farewell; the end of the input ends the loop with the
    error of [input()]. *)
Theorem get_user_choice_first_valid max_option keys : ∀ printed,
  ∃ skipped notices,
    Forall (passed_over int max_option) skipped ∧
    complaints skipped notices ∧
    match get_user_choice int max_option keys printed with
    | (Chosen n, printed', rest) =>
        (1 <= n <= max_option)%Z ∧
        printed' = printed ++ notices ∧
        ∃ s, keys = map Line skipped ++ Line s :: rest ∧
             strip s ≠ "" ∧ int (strip s) = Some n
    | (SysExit code, printed', rest) =>
        code = 0%Z ∧ printed' = printed ++ notices ++ [Goodbye] ∧
        keys = map Line skipped ++ CtrlC :: rest
    | (EndOfInput, printed', rest) =>
        rest = [] ∧ printed' = printed ++ notices ∧ keys = map Line skipped
    end.
Proof.
  induction keys as [|[s|] keys IH]; intros printed.
  - exists [], []. split; [constructor|]. split; [by split|].
    simpl. by rewrite app_nil_r.
  - cbn [get_user_choice]. cbv zeta.
    destruct (str_empty (strip s)) eqn:Hempty.
    { destruct (IH printed) as (skipped & notices & Hsk & [Hlen Hng] & Hrun).
      exists (s :: skipped), notices. split.
      { constructor; [|done]. left. by destruct (strip s). }
      split.
      { split; [|done]. cbn [List.filter]. by rewrite Hempty. }
      destruct (get_user_choice int max_option keys printed)
        as [[[n|code|] printed'] rest].
      - destruct Hrun as (Hn & Hp & s' & -> & Hs'). split; [done|].
        split; [done|]. by exists s'.
      - by destruct Hrun as (-> & -> & ->).
      - by destruct Hrun as (-> & -> & ->). }
    assert (Hne : strip s ≠ "") by (by destruct (strip s)).
    assert (Hstep : ∀ m, m ≠ Goodbye → passed_over int max_option s →
      ∃ skipped notices,
        Forall (passed_over int max_option) skipped ∧
        complaints skipped notices ∧
        match get_user_choice int max_option keys (printed ++ [m]) with
        | (Chosen n, printed', rest) =>
            (1 <= n <= max_option)%Z ∧ printed' = printed ++ notices ∧
            ∃ s0, Line s :: keys = map Line skipped ++ Line s0 :: rest ∧
                  strip s0 ≠ "" ∧ int (strip s0) = Some n
        | (SysExit code, printed', rest) =>
            code = 0%Z ∧ printed' = printed ++ notices ++ [Goodbye] ∧
            Line s :: keys = map Line skipped ++ CtrlC :: rest
        | (EndOfInput, printed', rest) =>
            rest = [] ∧ printed' = printed ++ notices ∧
            Line s :: keys = map Line skipped
        end).
    { intros m Hm Hpass.
      destruct (IH (printed ++ [m]))
        as (skipped & notices & Hsk & [Hlen Hng] & Hrun).
      exists (s :: skipped), (m :: notices). split; [by constructor|]. split.
      { split; [|by constructor]. cbn [List.filter]. rewrite Hempty.
        simpl. by rewrite Hlen. }
      destruct (get_user_choice int max_option keys (printed ++ [m]))
        as [[[n|code|] printed'] rest].
      - destruct Hrun as (Hn & -> & s' & -> & Hs'). split; [done|].
        split; [by rewrite <- (assoc_L (++))|]. by exists s'.
      - destruct Hrun as (-> & -> & ->). split; [done|].
        split; [by rewrite <- (assoc_L (++))|done].
      - destruct Hrun as (-> & -> & ->). split; [done|].
        split; [by rewrite <- (assoc_L (++))|done]. }
    destruct (int (strip s)) as [n|] eqn:Hint.
    + destruct ((1 <=? n) && (n <=? max_option))%Z eqn:Hrange.
      * exists [], []. split; [constructor|]. split; [by split|].
        split; [lia|]. split; [by rewrite app_nil_r|]. by exists s.
      * apply Hstep; [done|]. right. right. exists n. split; [done | lia].
    + apply Hstep; [done|]. right. by left.
  - exists [], []. split; [constructor|]. split; [by split|]. done.
Qed.

End CliFacts.

Section CliDelete.

Context (E : env).

Implicit Types (w : world) (confirmation_line : string).


End CliDelete.
